(** * Procedural mesh generators of esShapes.c

    A shallow embedding of [esGenSphere], [esGenCube] and [esGenArrow]
    (Windows/Common/Source/esShapes.c) and the properties of the mesh
    buffers they produce.

    Modelling conventions.
    - [int] is a 32-bit signed integer.  Every [int] operation is computed
      in [Z] and checked against [INT_MIN .. INT_MAX]; a result out of range
      is signed overflow, which C leaves undefined: the run stops with
      [SignedOverflow].
    - [GLfloat] is IEEE-754 binary32, every operation rounded to nearest
      even (Stdlib's [SpecFloat] at precision 24, [emax] 128), each
      operation rounded on its own (no excess precision).
    - [sinf] and [cosf] belong to the C library, not to this repository:
      they are parameters of the sphere generator.
    - Each output argument is a pointer to a pointer of the caller.  It is
      either NULL, or the address of a caller variable whose value is some
      pointer; [malloc] makes it point to a fresh block of indeterminate
      cells.  [malloc] is taken to succeed (the source does not check it)
      and [size_t] to be wide enough for the byte counts.
    - Every access through an output argument is recorded in a trace. *)

From Stdlib Require Import ZArith Lia Bool.
From Stdlib Require Import Floats.SpecFloat.
From stdpp Require Import base list.

Local Open Scope Z_scope.

(** ** binary32 *)

Module F32.

Definition prec : Z := 24.
Definition emax : Z := 128.

Definition float32 : Type := spec_float.

Definition mul : float32 -> float32 -> float32 := SFmul prec emax.
Definition div : float32 -> float32 -> float32 := SFdiv prec emax.
Definition sub : float32 -> float32 -> float32 := SFsub prec emax.

(** [m * 2^e] rounded to binary32; used for literals and for the
    conversion [(float) i]. *)
Definition of_Z_exp (m e : Z) : float32 := binary_normalize prec emax m e false.
Definition of_int (i : Z) : float32 := of_Z_exp i 0.

Definition zero : float32 := S754_zero false.
Definition one : float32 := of_Z_exp 1 0.
Definition two : float32 := of_Z_exp 2 0.
Definition half : float32 := of_Z_exp 1 (-1).
Definition infinity : float32 := S754_infinity false.

(** [0 < x], the comparison of C on floats. *)
Definition pos (x : float32) : bool := SFltb zero x.

(** A binary32 datum: canonical mantissa, exponent in range. *)
Definition valid (x : float32) : bool := valid_binary prec emax x.

(** A normal number of magnitude at least [2^-125]: its half is again a
    normal number, so halving it is exact. *)
Definition halvable (x : float32) : bool :=
  match x with
  | S754_finite _ m e =>
    (Zpos (digits2_pos m) =? 24) && (-148 <=? e) && (e <=? 104)
  | _ => false
  end.

(** Both factors are finite and not zero, and their exact product has
    magnitude at least [2^-125]. *)
Definition product_no_underflow (x y : float32) : bool :=
  match x, y with
  | S754_finite _ mx ex, S754_finite _ my ey =>
    -124 <=? Zpos (digits2_pos (mx * my)) + (ex + ey)
  | _, _ => false
  end.

End F32.

Abbreviation float32 := F32.float32.

Infix "*f" := F32.mul (at level 40, left associativity).
Infix "/f" := F32.div (at level 40, left associativity).
Infix "-f" := F32.sub (at level 50, left associativity).

(** ** int *)

Definition INT_MAX : Z := 2147483647.
Definition INT_MIN : Z := -2147483648.

Definition in_int (z : Z) : bool := (INT_MIN <=? z) && (z <=? INT_MAX).

(** Conversion of an [int] to [GLuint] (32-bit unsigned). *)
Definition to_GLuint (z : Z) : Z := z mod 4294967296.

(** ** Output arguments, blocks and the trace *)

Inductive slot : Type := Vertices | Colors | Normals | TexCoords | Indices.

#[global] Instance slot_eq_dec : EqDecision slot.
Proof. solve_decision. Defined.

(** One 4-byte element of a block.  [Indet] is what [malloc] leaves. *)
Inductive cell : Type :=
| Indet
| FVal (f : float32)
| UVal (n : Z).

Abbreviation block := (list cell).

(** An output argument: NULL, or the address of a caller variable holding
    a pointer to a block ([Some]) or to nothing this model knows ([None]). *)
Inductive outptr : Type :=
| NullArg
| Target (p : option block).

Record outputs : Type := mkOutputs {
  o_vertices : outptr;
  o_colors : outptr;
  o_normals : outptr;
  o_texCoords : outptr;
  o_indices : outptr
}.

Definition get_out (s : slot) (o : outputs) : outptr :=
  match s with
  | Vertices => o_vertices o
  | Colors => o_colors o
  | Normals => o_normals o
  | TexCoords => o_texCoords o
  | Indices => o_indices o
  end.

Definition set_out (s : slot) (v : outptr) (o : outputs) : outputs :=
  match s with
  | Vertices => mkOutputs v (o_colors o) (o_normals o) (o_texCoords o) (o_indices o)
  | Colors => mkOutputs (o_vertices o) v (o_normals o) (o_texCoords o) (o_indices o)
  | Normals => mkOutputs (o_vertices o) (o_colors o) v (o_texCoords o) (o_indices o)
  | TexCoords => mkOutputs (o_vertices o) (o_colors o) (o_normals o) v (o_indices o)
  | Indices => mkOutputs (o_vertices o) (o_colors o) (o_normals o) (o_texCoords o) v
  end.

Inductive event : Type :=
| EvAlloc (s : slot) (n : Z)
| EvStore (s : slot) (i : Z)
| EvLoad (s : slot) (i : Z).

Definition event_slot (e : event) : slot :=
  match e with
  | EvAlloc s _ | EvStore s _ | EvLoad s _ => s
  end.

(** The trace lists the accesses, the latest first. *)
Record heap : Type := mkHeap {
  outs : outputs;
  trace : list event
}.

Definition start (o : outputs) : heap := mkHeap o [].

(** ** The monad of effects *)

Inductive error : Type :=
| SignedOverflow
| DivByZero
| BadAlloc (s : slot)
| NullDeref (s : slot)
| WildPointer (s : slot)
| OutOfBounds (s : slot) (i : Z).

Inductive result (A : Type) : Type :=
| Ok (a : A)
| Err (e : error).
Arguments Ok {A} a.
Arguments Err {A} e.

Definition M (A : Type) : Type := heap -> heap * result A.

Definition ret {A} (a : A) : M A := fun h => (h, Ok a).
Definition fail {A} (e : error) : M A := fun h => (h, Err e).

Definition bind {A B} (m : M A) (k : A -> M B) : M B :=
  fun h =>
    match m h with
    | (h', Ok a) => k a h'
    | (h', Err e) => (h', Err e)
    end.

Notation "x <- m ;; k" := (bind m (fun x => k))
  (at level 100, m at next level, right associativity).
Notation "m ;;; k" := (bind m (fun _ => k))
  (at level 100, right associativity).

(** *** Checked [int] arithmetic *)

Definition int_chk (z : Z) : M Z :=
  if in_int z then ret z else fail SignedOverflow.

Definition iadd (a b : Z) : M Z := int_chk (a + b).
Definition isub (a b : Z) : M Z := int_chk (a - b).
Definition imul (a b : Z) : M Z := int_chk (a * b).

(** [a / b] of C truncates toward zero. *)
Definition idiv (a b : Z) : M Z :=
  if b =? 0 then fail DivByZero else int_chk (Z.quot a b).

(** *** Access through an output argument *)

(** [if ( p != NULL )]: looks at the argument, not through it. *)
Definition requested (s : slot) : M bool :=
  fun h =>
    (h, Ok match get_out s (outs h) with NullArg => false | Target _ => true end).

Definition when (b : bool) (m : M unit) : M unit :=
  if b then m else ret tt.

(** [*p = malloc ( 4 * n )]: the caller variable now points to a block of
    [n] indeterminate cells. *)
Definition alloc (s : slot) (n : Z) : M unit :=
  fun h =>
    match get_out s (outs h) with
    | NullArg => (h, Err (NullDeref s))
    | Target _ =>
      if n <? 0 then (h, Err (BadAlloc s))
      else (mkHeap (set_out s (Target (Some (replicate (Z.to_nat n) Indet))) (outs h))
                   (EvAlloc s n :: trace h), Ok tt)
    end.

(** [if ( p != NULL ) *p = malloc ( 4 * n );] *)
Definition malloc_if_requested (s : slot) (n : Z) : M unit :=
  has <- requested s ;;
  when has (alloc s n).

(** Read of cell [i] of the block the argument points to. *)
Definition load (s : slot) (i : Z) : M cell :=
  fun h =>
    match get_out s (outs h) with
    | NullArg => (h, Err (NullDeref s))
    | Target None => (h, Err (WildPointer s))
    | Target (Some b) =>
      if (0 <=? i) && (i <? Z.of_nat (length b))
      then (mkHeap (outs h) (EvLoad s i :: trace h),
            Ok (default Indet (b !! Z.to_nat i)))
      else (h, Err (OutOfBounds s i))
    end.

(** Write of [c] to cell [i] of the block the argument points to. *)
Definition store (s : slot) (i : Z) (c : cell) : M unit :=
  fun h =>
    match get_out s (outs h) with
    | NullArg => (h, Err (NullDeref s))
    | Target None => (h, Err (WildPointer s))
    | Target (Some b) =>
      if (0 <=? i) && (i <? Z.of_nat (length b))
      then (mkHeap (set_out s (Target (Some (<[Z.to_nat i := c]> b))) (outs h))
                   (EvStore s i :: trace h), Ok tt)
      else (h, Err (OutOfBounds s i))
    end.

(** [memcpy ( *p, table, sizeof ( table ) )]: the cells of [table] go to
    cells [i], [i+1], ... of the block. *)
Fixpoint memcpy_from (s : slot) (i : Z) (table : list cell) : M unit :=
  match table with
  | [] => ret tt
  | c :: table' => store s i c ;;; memcpy_from s (i + 1) table'
  end.

Definition memcpy (s : slot) (table : list cell) : M unit :=
  memcpy_from s 0 table.

(** *** [for ( i = lo; i < hi; i++ )] with the locals the body updates *)

Fixpoint for_range {L} (n : nat) (i : Z) (body : Z -> L -> M L) (acc : L) : M L :=
  match n with
  | O => ret acc
  | S n' => acc' <- body i acc ;; for_range n' (i + 1) body acc'
  end.

Definition for_lt {L} (lo hi : Z) (body : Z -> L -> M L) (acc : L) : M L :=
  for_range (Z.to_nat (hi - lo)) lo body acc.

(** Arithmetic on a cell read as a [GLfloat]: an indeterminate cell stays
    indeterminate. *)
Definition cell_mul (c : cell) (x : float32) : cell :=
  match c with
  | FVal f => FVal (f *f x)
  | _ => Indet
  end.

Definition cell_div (c : cell) (x : float32) : cell :=
  match c with
  | FVal f => FVal (f /f x)
  | _ => Indet
  end.

(** ** esGenSphere *)

(** [#define ES_PI (3.14159265f)]: the binary32 nearest to the decimal,
    [13176795 * 2^-22]. *)
Definition ES_PI : float32 := S754_finite false 13176795 (-22).

Section Sphere.

(** The C library's single-precision sine and cosine. *)
Variables sinf cosf : float32 -> float32.

(** The three coordinates written for grid point [(i, j)]. *)
Definition sphere_x (radius angleStep : float32) (i j : Z) : float32 :=
  radius *f sinf (angleStep *f F32.of_int i) *f sinf (angleStep *f F32.of_int j).
Definition sphere_y (radius angleStep : float32) (i : Z) : float32 :=
  radius *f cosf (angleStep *f F32.of_int i).
Definition sphere_z (radius angleStep : float32) (i j : Z) : float32 :=
  radius *f sinf (angleStep *f F32.of_int i) *f cosf (angleStep *f F32.of_int j).

(** [if ( vertices ) { ... }], lines 82-89. *)
Definition sphere_write_position (radius angleStep : float32) (i j vertex : Z) : M unit :=
  hasV <- requested Vertices ;;
  when hasV (
    v0 <- iadd vertex 0 ;;
    store Vertices v0 (FVal (sphere_x radius angleStep i j)) ;;;
    v1 <- iadd vertex 1 ;;
    store Vertices v1 (FVal (sphere_y radius angleStep i)) ;;;
    v2 <- iadd vertex 2 ;;
    store Vertices v2 (FVal (sphere_z radius angleStep i j))).

(** [if ( normals ) { ... }], lines 91-96: each component is read back
    from the vertex block. *)
Definition sphere_write_normal (radius : float32) (vertex : Z) : M unit :=
  hasN <- requested Normals ;;
  when hasN (
    v0 <- iadd vertex 0 ;;
    x <- load Vertices v0 ;;
    store Normals v0 (cell_div x radius) ;;;
    v1 <- iadd vertex 1 ;;
    y <- load Vertices v1 ;;
    store Normals v1 (cell_div y radius) ;;;
    v2 <- iadd vertex 2 ;;
    z <- load Vertices v2 ;;
    store Normals v2 (cell_div z radius)).

(** [if ( texCoords ) { ... }], lines 98-103. *)
Definition sphere_write_texCoord (numSlices numParallels : Z) (i j : Z) : M unit :=
  hasT <- requested TexCoords ;;
  when hasT (
    w <- iadd numSlices 1 ;;
    r <- imul i w ;;
    t <- iadd r j ;;
    texIndex <- imul t 2 ;;
    t0 <- iadd texIndex 0 ;;
    store TexCoords t0 (FVal (F32.of_int j /f F32.of_int numSlices)) ;;;
    t1 <- iadd texIndex 1 ;;
    d <- isub numParallels 1 ;;
    store TexCoords t1 (FVal ((F32.one -f F32.of_int i) /f F32.of_int d))).

(** Body of the inner loop of the vertex pass, lines 80-103. *)
Definition sphere_vertex_body (numSlices numParallels : Z) (radius angleStep : float32)
    (i j : Z) (_ : unit) : M unit :=
  w <- iadd numSlices 1 ;;
  r <- imul i w ;;
  t <- iadd r j ;;
  vertex <- imul t 3 ;;
  sphere_write_position radius angleStep i j vertex ;;;
  sphere_write_normal radius vertex ;;;
  sphere_write_texCoord numSlices numParallels i j.

(** Body of the inner loop of the index pass, lines 115-121; the local
    it updates is the position of [indexBuf] in the block. *)
Definition sphere_index_body (numSlices : Z) (i j : Z) (indexBuf : Z) : M Z :=
  w <- iadd numSlices 1 ;;
  r <- imul i w ;;
  a <- iadd r j ;;
  store Indices indexBuf (UVal (to_GLuint a)) ;;;
  i1 <- iadd i 1 ;;
  w <- iadd numSlices 1 ;;
  r1 <- imul i1 w ;;
  b <- iadd r1 j ;;
  store Indices (indexBuf + 1) (UVal (to_GLuint b)) ;;;
  i1 <- iadd i 1 ;;
  w <- iadd numSlices 1 ;;
  r1 <- imul i1 w ;;
  j1 <- iadd j 1 ;;
  c <- iadd r1 j1 ;;
  store Indices (indexBuf + 2) (UVal (to_GLuint c)) ;;;
  w <- iadd numSlices 1 ;;
  r <- imul i w ;;
  a <- iadd r j ;;
  store Indices (indexBuf + 3) (UVal (to_GLuint a)) ;;;
  i1 <- iadd i 1 ;;
  w <- iadd numSlices 1 ;;
  r1 <- imul i1 w ;;
  j1 <- iadd j 1 ;;
  c <- iadd r1 j1 ;;
  store Indices (indexBuf + 4) (UVal (to_GLuint c)) ;;;
  w <- iadd numSlices 1 ;;
  r <- imul i w ;;
  j1 <- iadd j 1 ;;
  d <- iadd r j1 ;;
  store Indices (indexBuf + 5) (UVal (to_GLuint d)) ;;;
  ret (indexBuf + 6).

Definition esGenSphere (numSlices : Z) (radius : float32) : M Z :=
  numParallels <- idiv numSlices 2 ;;
  p1 <- iadd numParallels 1 ;;
  s1 <- iadd numSlices 1 ;;
  numVertices <- imul p1 s1 ;;
  ps <- imul numParallels numSlices ;;
  numIndices <- imul ps 6 ;;
  let angleStep := (F32.two *f ES_PI) /f F32.of_int numSlices in
  malloc_if_requested Vertices (3 * numVertices) ;;;
  malloc_if_requested Normals (3 * numVertices) ;;;
  malloc_if_requested TexCoords (2 * numVertices) ;;;
  malloc_if_requested Indices numIndices ;;;
  iEnd <- iadd numParallels 1 ;;
  for_lt 0 iEnd (fun i _ =>
    jEnd <- iadd numSlices 1 ;;
    for_lt 0 jEnd (sphere_vertex_body numSlices numParallels radius angleStep i) tt) tt ;;;
  hasI <- requested Indices ;;
  when hasI (
    for_lt 0 numParallels (fun i indexBuf =>
      for_lt 0 numSlices (sphere_index_body numSlices i) indexBuf) 0 ;;;
    ret tt) ;;;
  ret numIndices.

End Sphere.

(** ** esGenCube *)

Definition neg_half : float32 := F32.of_Z_exp (-1) (-1).
Definition neg_one : float32 := F32.of_Z_exp (-1) 0.

Definition cubeVerts : list float32 :=
  let m := neg_half in let p := F32.half in
  [ m; m; m;   m; m; p;   p; m; p;   p; m; m;
    m; p; m;   m; p; p;   p; p; p;   p; p; m;
    m; m; m;   m; p; m;   p; p; m;   p; m; m;
    m; m; p;   m; p; p;   p; p; p;   p; m; p;
    m; m; m;   m; m; p;   m; p; p;   m; p; m;
    p; m; m;   p; m; p;   p; p; p;   p; p; m ].

Definition cubeNormals : list float32 :=
  let o := F32.zero in let p := F32.one in let m := neg_one in
  [ o; m; o;   o; m; o;   o; m; o;   o; m; o;
    o; p; o;   o; p; o;   o; p; o;   o; p; o;
    o; o; m;   o; o; m;   o; o; m;   o; o; m;
    o; o; p;   o; o; p;   o; o; p;   o; o; p;
    m; o; o;   m; o; o;   m; o; o;   m; o; o;
    p; o; o;   p; o; o;   p; o; o;   p; o; o ].

Definition cubeTex : list float32 :=
  let o := F32.zero in let p := F32.one in
  [ o; o;   o; p;   p; p;   p; o;
    p; o;   p; p;   o; p;   o; o;
    o; o;   o; p;   p; p;   p; o;
    o; o;   o; p;   p; p;   p; o;
    o; o;   o; p;   p; p;   p; o;
    o; o;   o; p;   p; p;   p; o ].

Definition cubeIndices : list Z :=
  [ 0; 2; 1;     0; 3; 2;
    4; 5; 6;     4; 6; 7;
    8; 9; 10;    8; 10; 11;
    12; 15; 14;  12; 14; 13;
    16; 17; 18;  16; 18; 19;
    20; 23; 22;  20; 22; 21 ].

(** Body of the scaling loop of the cube and of the arrow: cell [i] of the
    vertex block is multiplied by [scale] in place. *)
Definition scale_body (scale : float32) (i : Z) (_ : unit) : M unit :=
  c <- load Vertices i ;;
  store Vertices i (cell_mul c scale).

Definition esGenCube (scale : float32) : M Z :=
  let numVertices := 24 in
  let numIndices := 36 in
  hasV <- requested Vertices ;;
  when hasV (
    alloc Vertices (3 * numVertices) ;;;
    memcpy Vertices (map FVal cubeVerts) ;;;
    n <- imul numVertices 3 ;;
    for_lt 0 n (scale_body scale) tt) ;;;
  hasN <- requested Normals ;;
  when hasN (
    alloc Normals (3 * numVertices) ;;;
    memcpy Normals (map FVal cubeNormals)) ;;;
  hasT <- requested TexCoords ;;
  when hasT (
    alloc TexCoords (2 * numVertices) ;;;
    memcpy TexCoords (map FVal cubeTex)) ;;;
  hasI <- requested Indices ;;
  when hasI (
    alloc Indices numIndices ;;;
    memcpy Indices (map UVal cubeIndices)) ;;;
  ret numIndices.

(** ** esGenArrow *)

(** [0.3f]: the binary32 nearest to the decimal, [10066330 * 2^-25]. *)
Definition f0_3 : float32 := S754_finite false 10066330 (-25).
Definition neg_f0_3 : float32 := S754_finite true 10066330 (-25).

Definition ARROW_V1 : list float32 := [ F32.zero; F32.one; F32.zero ].
Definition ARROW_V2 : list float32 := [ neg_f0_3; neg_f0_3; F32.zero ].
Definition ARROW_V3 : list float32 := [ f0_3; neg_f0_3; F32.zero ].
Definition ARROW_V4 : list float32 := [ F32.zero; F32.zero; f0_3 ].

Definition ARROW_C1 : list float32 := [ F32.one; F32.zero; F32.zero; F32.zero ].
Definition ARROW_C2 : list float32 := [ F32.zero; F32.one; F32.zero; F32.zero ].
Definition ARROW_C3 : list float32 := [ F32.zero; F32.zero; F32.one; F32.zero ].

(** The initialiser of [arrowVerts] as compiled: the rows commented out in
    the source are not part of it. *)
Definition arrowVerts : list float32 :=
  ARROW_V1 ++ ARROW_V4 ++ ARROW_V2 ++
  ARROW_V1 ++ ARROW_V4 ++ ARROW_V3.

Definition arrowColors : list float32 :=
  ARROW_C1 ++ ARROW_C1 ++ ARROW_C1 ++
  ARROW_C2 ++ ARROW_C2 ++ ARROW_C2 ++
  ARROW_C3 ++ ARROW_C3 ++ ARROW_C3 ++
  ARROW_C1 ++ ARROW_C1 ++ ARROW_C1.

Definition arrowIndices : list Z :=
  [ 0; 1; 2;
    3; 4; 5;
    6; 7; 8;
    9; 10; 11 ].

Definition esGenArrow (scale : float32) : M Z :=
  let numVertices := 12 in
  let numIndices := 12 in
  hasV <- requested Vertices ;;
  when hasV (
    alloc Vertices (3 * numVertices) ;;;
    memcpy Vertices (map FVal arrowVerts) ;;;
    n <- imul numVertices 3 ;;
    for_lt 0 n (scale_body scale) tt) ;;;
  hasC <- requested Colors ;;
  when hasC (
    alloc Colors (4 * numVertices) ;;;
    memcpy Colors (map FVal arrowColors)) ;;;
  hasI <- requested Indices ;;
  when hasI (
    alloc Indices numIndices ;;;
    memcpy Indices (map UVal arrowIndices)) ;;;
  ret numIndices.

(** ** Calls *)

(** The block an output argument points to after a call, if any. *)
Definition block_of (s : slot) (h : heap) : option block :=
  match get_out s (outs h) with
  | Target (Some b) => Some b
  | _ => None
  end.

(** A caller variable not yet pointing anywhere. *)
Definition fresh : outptr := Target None.

(** The row-major number of grid vertex [(i, j)] of the sphere. *)
Definition grid_vertex (numSlices i j : Z) : Z := i * (numSlices + 1) + j.

(** The largest slice count whose index count fits an [int]. *)
Definition MAX_SLICES : Z := 26755.

(** ** A C library for concrete runs

    The correctly rounded sine and cosine at the five angles a 4-slice
    sphere asks for (0, pi/2, pi, 3pi/2 and 2pi as binary32 numbers), and
    NaN elsewhere. *)

Definition sinf_quadrant (x : float32) : float32 :=
  match x with
  | S754_zero s => S754_zero s
  | S754_finite false 13176795 (-23) => F32.one
  | S754_finite false 13176795 (-22) => S754_finite true 12303662 (-47)
  | S754_finite false 9882596 (-21) => neg_one
  | S754_finite false 13176795 (-21) => S754_finite false 12303662 (-46)
  | _ => S754_nan
  end.

Definition cosf_quadrant (x : float32) : float32 :=
  match x with
  | S754_zero _ => F32.one
  | S754_finite false 13176795 (-23) => S754_finite true 12303662 (-48)
  | S754_finite false 13176795 (-22) => neg_one
  | S754_finite false 9882596 (-21) => S754_finite false 13426222 (-50)
  | S754_finite false 13176795 (-21) => F32.one
  | _ => S754_nan
  end.

Definition three : float32 := F32.of_int 3.

(** The smallest positive binary32 number, [2^-149]. *)
Definition tiny : float32 := S754_finite false 1 (-149).

(** [2^127], the largest power of two in binary32. *)
Definition huge : float32 := S754_finite false 8388608 104.

(** ** Weakest preconditions *)

(** [wp m Q E h]: run from [h], [m] ends in a heap and a value that
    satisfy [Q], or in a heap and an error that satisfy [E]. *)
Definition wp {A} (m : M A) (Q : A -> heap -> Prop) (E : error -> heap -> Prop)
    (h : heap) : Prop :=
  match m h with
  | (h', Ok a) => Q a h'
  | (h', Err e) => E e h'
  end.

(** No error at all. *)
Definition no_err : error -> heap -> Prop := fun _ _ => False.

(** ** Blocks filled in grid order *)

Definition cellZ (b : block) (k : Z) : option cell := b !! Z.to_nat k.

(** A block is filled up to cell [n] when the cells of the grid points, [per]
    cells a point, rows of [w] points, are there in row-major order. *)
Definition filled (w per : Z) (f : Z -> Z -> Z -> cell) (n : Z) (b : block) : Prop :=
  forall i j c, 0 <= i -> 0 <= j < w -> 0 <= c < per ->
    (i * w + j) * per + c < n ->
    cellZ b ((i * w + j) * per + c) = Some (f i j c).

(** An output argument is NULL, or points to a block of [len] cells filled
    up to cell [n]. *)
Definition grid_slot (s : slot) (len w per : Z) (f : Z -> Z -> Z -> cell)
    (n : Z) (h : heap) : Prop :=
  get_out s (outs h) = NullArg \/
  exists b, get_out s (outs h) = Target (Some b) /\
    Z.of_nat (length b) = len /\ filled w per f n b.

(** The six indices written for grid cell [(i, j)]: two triangles. *)
Definition sphere_index_cell (numSlices i j c : Z) : cell :=
  UVal (match c with
        | 0 => grid_vertex numSlices i j
        | 1 => grid_vertex numSlices (i + 1) j
        | 2 => grid_vertex numSlices (i + 1) (j + 1)
        | 3 => grid_vertex numSlices i j
        | 4 => grid_vertex numSlices (i + 1) (j + 1)
        | _ => grid_vertex numSlices i (j + 1)
        end).

(** The cells written for grid vertex [(i, j)]. *)
Definition sphere_pos_cell (sinf cosf : float32 -> float32)
    (radius angleStep : float32) (i j c : Z) : cell :=
  FVal (match c with
        | 0 => sphere_x sinf radius angleStep i j
        | 1 => sphere_y cosf radius angleStep i
        | _ => sphere_z sinf cosf radius angleStep i j
        end).

Definition sphere_normal_cell (sinf cosf : float32 -> float32)
    (radius angleStep : float32) (i j c : Z) : cell :=
  cell_div (sphere_pos_cell sinf cosf radius angleStep i j c) radius.

Definition sphere_tex_cell (numSlices numParallels : Z) (i j c : Z) : cell :=
  FVal (match c with
        | 0 => F32.of_int j /f F32.of_int numSlices
        | _ => (F32.one -f F32.of_int i) /f F32.of_int (numParallels - 1)
        end).

Definition sphere_angleStep (numSlices : Z) : float32 :=
  (F32.two *f ES_PI) /f F32.of_int numSlices.

(** ** Invariants of the two passes of the sphere *)

(** After [t] vertices of the vertex pass; [o] is what the arguments were
    when the pass began. *)
Definition vertex_inv (sinf cosf : float32 -> float32) (numSlices numParallels : Z)
    (radius angleStep : float32) (o : outputs) (t : Z) (_ : unit) (h : heap) : Prop :=
  let numVertices := (numParallels + 1) * (numSlices + 1) in
  grid_slot Vertices (3 * numVertices) (numSlices + 1) 3
    (sphere_pos_cell sinf cosf radius angleStep) (t * 3) h /\
  grid_slot Normals (3 * numVertices) (numSlices + 1) 3
    (sphere_normal_cell sinf cosf radius angleStep) (t * 3) h /\
  grid_slot TexCoords (2 * numVertices) (numSlices + 1) 2
    (sphere_tex_cell numSlices numParallels) (t * 2) h /\
  (get_out Normals (outs h) = NullArg \/ get_out Vertices (outs h) <> NullArg) /\
  (forall s, get_out s (outs h) = NullArg <-> get_out s o = NullArg) /\
  get_out Colors (outs h) = get_out Colors o /\
  get_out Indices (outs h) = get_out Indices o.

(** After [n] cells of the index pass: [indexBuf] is at [n], the block holds
    the indices of the grid cells before it, the other arguments are as in
    [o]. *)
Definition index_inv (numSlices numParallels : Z) (o : outputs)
    (n : Z) (indexBuf : Z) (h : heap) : Prop :=
  indexBuf = n /\
  exists b, get_out Indices (outs h) = Target (Some b) /\
    Z.of_nat (length b) = numParallels * numSlices * 6 /\
    filled numSlices 6 (sphere_index_cell numSlices) n b /\
    forall s, s <> Indices -> get_out s (outs h) = get_out s o.

(** What a call of [esGenSphere] leaves: the count returned and, for every
    argument that is not NULL, a block of the full size with every cell
    written. *)
Definition sphere_mesh (sinf cosf : float32 -> float32) (o : outputs)
    (numSlices : Z) (radius : float32) (n : Z) (h : heap) : Prop :=
  let numParallels := numSlices / 2 in
  let numVertices := (numParallels + 1) * (numSlices + 1) in
  let numIndices := numParallels * numSlices * 6 in
  let angleStep := sphere_angleStep numSlices in
  n = numIndices /\
  grid_slot Vertices (3 * numVertices) (numSlices + 1) 3
    (sphere_pos_cell sinf cosf radius angleStep) (numVertices * 3) h /\
  grid_slot Normals (3 * numVertices) (numSlices + 1) 3
    (sphere_normal_cell sinf cosf radius angleStep) (numVertices * 3) h /\
  grid_slot TexCoords (2 * numVertices) (numSlices + 1) 2
    (sphere_tex_cell numSlices numParallels) (numVertices * 2) h /\
  grid_slot Indices numIndices numSlices 6
    (sphere_index_cell numSlices) numIndices h /\
  get_out Colors (outs h) = get_out Colors o /\
  forall s, get_out s (outs h) = NullArg <-> get_out s o = NullArg.

(** What a call of the cube or of the arrow leaves in argument [s]: NULL
    stays NULL, anything else points to the block [b]. *)
Definition leaves (s : slot) (o : outputs) (b : block) (h : heap) : Prop :=
  match get_out s o with
  | NullArg => get_out s (outs h) = NullArg
  | Target _ => get_out s (outs h) = Target (Some b)
  end.

(** ** Access disciplines *)

(** The output argument an access error is about. *)
Definition err_slot (e : error) : option slot :=
  match e with
  | BadAlloc s | NullDeref s | WildPointer s | OutOfBounds s _ => Some s
  | SignedOverflow | DivByZero => None
  end.

(** A heap keeps a discipline when the arguments in [nul] are NULL and
    every access of the trace is one [okev] allows. *)
Definition disciplined (nul : slot -> Prop) (okev : event -> Prop) (h : heap) : Prop :=
  (forall s, nul s -> get_out s (outs h) = NullArg) /\ Forall okev (trace h).

(** [m] keeps the discipline, and stops only on an error [okerr] allows. *)
Definition keeps (nul : slot -> Prop) (okev : event -> Prop) (okerr : error -> Prop)
    {A} (m : M A) : Prop :=
  forall h, disciplined nul okev h ->
    wp m (fun _ h' => disciplined nul okev h')
         (fun e h' => disciplined nul okev h' /\ okerr e) h.

(** Only the index argument is passed. *)
Definition only_indices (s : slot) : Prop := s <> Indices.
Definition on_indices (e : event) : Prop := event_slot e = Indices.
Definition about_indices (e : error) : Prop :=
  forall s, err_slot e = Some s -> s = Indices.

(** A call that was passed the index argument alone, [p] being what the
    caller's pointer held. *)
Definition indices_alone (p : option block) : outputs :=
  mkOutputs NullArg NullArg NullArg NullArg (Target p).

(** The outcome of such a call: the other arguments are still NULL, every
    access went through the index argument, and an access error, if any,
    is about the index argument. *)
Definition touches_indices_only {A} (run : heap * result A) : Prop :=
  (forall s, s <> Indices -> get_out s (outs (fst run)) = NullArg) /\
  Forall on_indices (trace (fst run)) /\
  forall e, snd run = Err e -> about_indices e.

(** The vertex argument is NULL. *)
Definition no_vertices (s : slot) : Prop := s = Vertices.
Definition not_normal_store (e : event) : Prop :=
  forall i, e <> EvStore Normals i.
Definition any_error (e : error) : Prop := True.

(** The access [e] is not through argument [s]. *)
Definition untouched (s : slot) (e : event) : Prop := event_slot e <> s.

(** ** The calls the claims are about *)

(** The call of the concrete scenario: positions and indices. *)
Definition positions_and_indices : outputs :=
  mkOutputs fresh NullArg NullArg NullArg fresh.

(** The call of the sample program: positions, colors and indices. *)
Definition positions_colors_indices : outputs :=
  mkOutputs fresh fresh NullArg NullArg fresh.

(** A call that asks for positions only. *)
Definition positions_alone : outputs :=
  mkOutputs fresh NullArg NullArg NullArg NullArg.

(** Cell [i] of the positions [esGenCube] generates for [scale]. *)
Definition cube_position (scale : float32) (i : Z) : option cell :=
  match block_of Vertices (fst (esGenCube scale (start positions_alone))) with
  | Some b => cellZ b i
  | None => None
  end.

(** A call that asks for positions and normals, and one that asks for
    normals only. *)
Definition positions_and_normals : outputs :=
  mkOutputs fresh NullArg fresh NullArg NullArg.
Definition normals_alone : outputs :=
  mkOutputs NullArg NullArg fresh NullArg NullArg.

(** Cell [i] of the block [esGenSphere] leaves in argument [s] at 4 slices
    and radius 3.0, positions and normals asked for, with the correctly
    rounded sine and cosine. *)
Definition sphere_3_cell (s : slot) (i : Z) : option cell :=
  match block_of s (fst (esGenSphere sinf_quadrant cosf_quadrant 4 three
                           (start positions_and_normals))) with
  | Some b => cellZ b i
  | None => None
  end.

(** ** Reading the blocks of a call *)

(** What [malloc_if_requested s n] makes of the arguments. *)
Definition malloc_out (s : slot) (n : Z) (o : outputs) : outputs :=
  match get_out s o with
  | NullArg => o
  | Target _ => set_out s (Target (Some (replicate (Z.to_nat n) Indet))) o
  end.

(** The arguments after the four allocations of [esGenSphere] and nothing
    else. *)
Definition sphere_allocated (numSlices : Z) (o : outputs) : outputs :=
  let numParallels := Z.quot numSlices 2 in
  let numVertices := (numParallels + 1) * (numSlices + 1) in
  let numIndices := numParallels * numSlices * 6 in
  malloc_out Indices numIndices
    (malloc_out TexCoords (2 * numVertices)
       (malloc_out Normals (3 * numVertices)
          (malloc_out Vertices (3 * numVertices) o))).

(** An access that is an allocation. *)
Definition is_alloc (e : event) : Prop :=
  match e with EvAlloc _ _ => True | _ => False end.

(** A cell that holds a value. *)
Definition written (c : cell) : Prop := c <> Indet.

(** The three coordinates of grid vertex [(i, j)] in a position or normal
    block [b]. *)
Definition vertex_at (numSlices : Z) (b : block) (i j : Z)
    : option (cell * cell * cell) :=
  let vertex := grid_vertex numSlices i j * 3 in
  match cellZ b vertex, cellZ b (vertex + 1), cellZ b (vertex + 2) with
  | Some x, Some y, Some z => Some (x, y, z)
  | _, _, _ => None
  end.

(** The two texture coordinates of grid vertex [(i, j)] in block [b]. *)
Definition tex_u (numSlices : Z) (b : block) (i j : Z) : option cell :=
  cellZ b (grid_vertex numSlices i j * 2).
Definition tex_v (numSlices : Z) (b : block) (i j : Z) : option cell :=
  cellZ b (grid_vertex numSlices i j * 2 + 1).

(** The three indices of triangle [t] in an index block [b]. *)
Definition triangle (b : block) (t : Z) : option (cell * cell * cell) :=
  match cellZ b (3 * t), cellZ b (3 * t + 1), cellZ b (3 * t + 2) with
  | Some x, Some y, Some z => Some (x, y, z)
  | _, _, _ => None
  end.

(** The block [esGenSphere] leaves in argument [s] when called with the
    arguments [o]. *)
Definition sphere_block (sinf cosf : float32 -> float32) (numSlices : Z)
    (radius : float32) (o : outputs) (s : slot) : option block :=
  block_of s (fst (esGenSphere sinf cosf numSlices radius (start o))).

(** Normals are not asked for without positions. *)
Definition normals_have_vertices (o : outputs) : Prop :=
  get_out Normals o = NullArg \/ get_out Vertices o <> NullArg.

(** The block [esGenCube] leaves in argument [s] when called with the
    arguments [o]. *)
Definition cube_block (scale : float32) (o : outputs) (s : slot) : option block :=
  block_of s (fst (esGenCube scale (start o))).

(** The axis the normals of face [f] of the cube lie on (0 is x), and whether
    they point down it: the tables list the faces in the order -y, +y, -z,
    +z, -x, +x, four vertices a face. *)
Definition cube_face_axis (f : Z) : Z :=
  match f / 2 with
  | 0 => 1
  | 1 => 2
  | _ => 0
  end.
Definition cube_face_down (f : Z) : bool := Z.even f.

(** ** Bounds on rounded numbers *)

(** [m * 2^e <= K], for a mantissa, an exponent of either sign and an
    integer bound. *)
Definition le_int (m e K : Z) : Prop :=
  m * 2 ^ Z.max e 0 <= K * 2 ^ Z.max (- e) 0.

(** The record [r] is the mantissa [N] shifted right [j] times: what is
    left of it, and a remainder the two flags of [r] know to be zero or
    not. *)
Definition shifted (N j : Z) (r : shr_record) : Prop :=
  0 <= shr_m r /\
  exists rem, N = shr_m r * 2 ^ j + rem /\ 0 <= rem < 2 ^ j /\
    (shr_r r || shr_s r = true -> 0 < rem).

(** What rounding [n * 2^e] with sign [s] to [prec] digits gives: a number
    of the format, of that sign, and no further from zero than any integer
    below [2^prec] that [n * 2^e] does not exceed. *)
Definition rounds_to (prec emax : Z) (s : bool) (n e : Z) (r : spec_float) : Prop :=
  match r with
  | S754_zero s' => s' = s
  | S754_infinity s' => s' = s /\ forall K, 0 <= K < 2 ^ prec -> ~ le_int n e K
  | S754_finite s' m' e' =>
    s' = s /\ bounded prec emax m' e' = true /\
    forall K, 0 <= K < 2 ^ prec -> le_int n e K -> le_int (Zpos m') e' K
  | S754_nan => False
  end.

(** [x <= K] and [x >= -K] for a number that is not NaN and an integer
    [K >= 0], by value: the mantissa need not be normalised. *)
Definition at_most (K : Z) (x : spec_float) : Prop :=
  match x with
  | S754_nan => False
  | S754_infinity s => s = true
  | S754_zero _ => True
  | S754_finite s m e => s = true \/ le_int (Zpos m) e K
  end.

Definition at_least_neg (K : Z) (x : spec_float) : Prop :=
  match x with
  | S754_nan => False
  | S754_infinity s => s = false
  | S754_zero _ => True
  | S754_finite s m e => s = false \/ le_int (Zpos m) e K
  end.

(** Zero or more, NaN apart. *)
Definition not_negative (x : spec_float) : Prop :=
  match x with
  | S754_nan => False
  | S754_infinity s => s = false
  | S754_zero _ => True
  | S754_finite s _ _ => s = false
  end.

(** Zero or a finite number. *)
Definition is_finite (x : spec_float) : Prop :=
  match x with
  | S754_zero _ | S754_finite _ _ _ => True
  | _ => False
  end.

(** ** Simple_VertexShader.c

    [Update] (Windows/Chapter_8/Simple_VertexShader/Simple_VertexShader.c)
    moves the rotation angle of the sample back and forth and rebuilds the
    matrix.  [float] expressions are evaluated in binary32 and [double]
    ones in binary64, each operation rounded to nearest even in its own
    type; a comparison with a NaN is false. *)

(** binary64, for the one expression of [Update] that C evaluates in
    [double]: [deltaTime * 60.0] and the subtraction from the angle. *)
Module F64.

Definition prec : Z := 53.
Definition emax : Z := 1024.

Definition float64 : Type := spec_float.

Definition mul : float64 -> float64 -> float64 := SFmul prec emax.
Definition sub : float64 -> float64 -> float64 := SFsub prec emax.
Definition of_Z_exp (m e : Z) : float64 := binary_normalize prec emax m e false.

(** A [float] promoted to [double]: the same number on 53 digits. *)
Definition of_float32 (x : float32) : float64 :=
  match x with
  | S754_finite s m e => binary_normalize prec emax (cond_Zopp s (Zpos m)) e false
  | _ => x
  end.

(** A [double] assigned to a [float]: rounded to the nearest. *)
Definition to_float32 (x : float64) : float32 :=
  match x with
  | S754_finite s m e =>
    binary_normalize F32.prec F32.emax (cond_Zopp s (Zpos m)) e false
  | _ => x
  end.

End F64.

Definition fadd : float32 -> float32 -> float32 := SFadd F32.prec F32.emax.
Infix "+f" := fadd (at level 50, left associativity).

(** [#define ANGLE_MAX (75.0f)] and [#define ANGLE_MIN (-75.0f)]. *)
Definition ANGLE_MAX : float32 := F32.of_int 75.
Definition ANGLE_MIN : float32 := F32.of_int (-75).

Section SimpleVertexShader.

(** The matrix type of esUtil and the functions of esUtil that [Update]
    calls; they are not among these sources.  Each one takes what the matrix
    its first argument points to holds, and gives what it leaves there. *)
Variable ESMatrix : Type.
Variable esMatrixLoadIdentity : ESMatrix -> ESMatrix.
Variable esPerspective : ESMatrix -> float32 -> float32 -> float32 -> float32 -> ESMatrix.
Variable esTranslate : ESMatrix -> float32 -> float32 -> float32 -> ESMatrix.
Variable esRotate : ESMatrix -> float32 -> float32 -> float32 -> float32 -> ESMatrix.
Variable esMatrixMultiply : ESMatrix -> ESMatrix -> ESMatrix -> ESMatrix.

(** The fields of [UserData] that [Update] reads or writes. *)
Record UserData : Type := mkUserData {
  angle : float32;
  increase : Z;
  mvpMatrix : ESMatrix
}.

(** Lines 105-118 of [Update]: the angle goes up by [deltaTime * 100.0f]
    until it reaches [ANGLE_MAX], then down by [deltaTime * 60.0], a
    [double], until it reaches [ANGLE_MIN], and so on. *)
Definition Update_angle (deltaTime : float32) (angle : float32) (increase : Z)
    : float32 * Z :=
  if negb (increase =? 0) then
    let angle := angle +f (deltaTime *f F32.of_int 100) in
    if SFleb ANGLE_MAX angle then (ANGLE_MAX, 0) else (angle, increase)
  else
    let angle :=
      F64.to_float32
        (F64.sub (F64.of_float32 angle)
                 (F64.mul (F64.of_float32 deltaTime) (F64.of_Z_exp 60 0))) in
    if SFleb angle ANGLE_MIN then (ANGLE_MIN, 1) else (angle, increase).

(** [Update]; [width] and [height] are the fields of [esContext],
    [perspective] and [modelview] what the two local matrices hold when the
    function is entered. *)
Definition Update (width height : Z) (perspective modelview : ESMatrix)
    (deltaTime : float32) (userData : UserData) : UserData :=
  let '(angle, increase) :=
    Update_angle deltaTime (angle userData) (increase userData) in
  let aspect := F32.of_int width /f F32.of_int height in
  let perspective := esMatrixLoadIdentity perspective in
  let perspective :=
    esPerspective perspective (F32.of_int 60) aspect F32.one (F32.of_int 20) in
  let modelview := esMatrixLoadIdentity modelview in
  let modelview := esTranslate modelview F32.zero F32.zero (F32.of_int (-2)) in
  let modelview :=
    esRotate modelview (F32.of_int 60) F32.one F32.zero F32.zero in
  let modelview := esRotate modelview angle F32.zero F32.zero F32.one in
  mkUserData angle increase (esMatrixMultiply (mvpMatrix userData) modelview perspective).

(** The calls of [Update] the main loop makes, one for each frame time of
    the list. *)
Definition frames (width height : Z) (perspective modelview : ESMatrix)
    (deltaTimes : list float32) (userData : UserData) : UserData :=
  fold_left (fun u deltaTime => Update width height perspective modelview deltaTime u)
            deltaTimes userData.

End SimpleVertexShader.

(** The angle is a number of binary32 from [ANGLE_MIN] to [ANGLE_MAX]. *)
Definition angle_in_range (a : float32) : Prop :=
  F32.valid a = true /\ SFleb ANGLE_MIN a = true /\ SFleb a ANGLE_MAX = true.

(** A frame time that is zero or more. *)
Definition forward (deltaTime : float32) : Prop := SFleb F32.zero deltaTime = true.

(** * Proofs *)

(** ** Rules of the weakest precondition *)

Lemma wp_ret {A} (a : A) Q E h : Q a h -> wp (ret a) Q E h.
Proof. done. Qed.

Lemma wp_bind {A B} (m : M A) (k : A -> M B) Q E h :
  wp m (fun a h' => wp (k a) Q E h') E h -> wp (bind m k) Q E h.
Proof.
  unfold wp, bind. destruct (m h) as [h' [a|e]]; done.
Qed.

Lemma wp_mono {A} (m : M A) (Q Q' : A -> heap -> Prop) (E E' : error -> heap -> Prop) h :
  wp m Q E h ->
  (forall a h', Q a h' -> Q' a h') ->
  (forall e h', E e h' -> E' e h') ->
  wp m Q' E' h.
Proof.
  unfold wp. destruct (m h) as [h' [a|e]]; eauto.
Qed.

Lemma wp_int_chk z Q E h :
  (in_int z = true -> Q z h) ->
  (in_int z = false -> E SignedOverflow h) ->
  wp (int_chk z) Q E h.
Proof.
  unfold wp, int_chk. destruct (in_int z); cbn; auto.
Qed.

Lemma wp_int_ok z Q E h :
  INT_MIN <= z <= INT_MAX -> Q z h -> wp (int_chk z) Q E h.
Proof.
  intros Hz HQ. apply wp_int_chk; [done|].
  unfold in_int. intros [F|F]%andb_false_iff; lia.
Qed.

Lemma wp_requested s Q E h :
  Q (match get_out s (outs h) with NullArg => false | Target _ => true end) h ->
  wp (requested s) Q E h.
Proof. done. Qed.

Lemma wp_when (b : bool) m Q E h :
  (b = true -> wp m Q E h) -> (b = false -> Q tt h) -> wp (when b m) Q E h.
Proof. destruct b; cbn; auto. Qed.

Lemma wp_for_range {L} (I : Z -> L -> heap -> Prop) E body n :
  forall lo acc h,
  I lo acc h ->
  (forall k a h', lo <= k < lo + Z.of_nat n -> I k a h' ->
     wp (body k a) (I (k + 1)) E h') ->
  wp (for_range n lo body acc) (I (lo + Z.of_nat n)) E h.
Proof.
  induction n as [|n IH]; intros lo acc h H0 Hbody.
  - cbn [for_range]. apply wp_ret.
    replace (lo + Z.of_nat 0) with lo by lia. done.
  - cbn [for_range]. apply wp_bind.
    eapply wp_mono; [apply (Hbody lo); [lia|done] | | done].
    intros a h' Ha. cbn beta.
    replace (lo + Z.of_nat (S n)) with ((lo + 1) + Z.of_nat n) by lia.
    apply IH; [done|]. intros k a' h'' Hk. apply Hbody. lia.
Qed.

Lemma wp_for_lt {L} (I : Z -> L -> heap -> Prop) E body lo hi acc h :
  lo <= hi ->
  I lo acc h ->
  (forall k a h', lo <= k < hi -> I k a h' -> wp (body k a) (I (k + 1)) E h') ->
  wp (for_lt lo hi body acc) (I hi) E h.
Proof.
  intros Hle H0 Hbody. unfold for_lt.
  replace hi with (lo + Z.of_nat (Z.to_nat (hi - lo))) at 2 by lia.
  apply wp_for_range; [done|]. intros k a h' Hk. apply Hbody. lia.
Qed.

(** A loop of any length, with an invariant that does not depend on the
    counter. *)
Lemma wp_for_lt_any {L} (I : L -> heap -> Prop) E body lo hi acc h :
  I acc h ->
  (forall k a h', I a h' -> wp (body k a) I E h') ->
  wp (for_lt lo hi body acc) I E h.
Proof.
  intros H0 Hbody. unfold for_lt.
  generalize (Z.to_nat (hi - lo)) as n. intros n.
  eapply wp_mono; [apply (wp_for_range (fun _ => I)); [done|] | done | done].
  intros k a h' _. apply Hbody.
Qed.

Lemma wp_no_err_run {A} (m : M A) Q h :
  wp m Q no_err h -> exists h' a, m h = (h', Ok a) /\ Q a h'.
Proof.
  unfold wp. destruct (m h) as [h' [a|e]]; [|done]. intros HQ. by exists h', a.
Qed.

(** A loop that runs at least once stops where its first round stops. *)
Lemma wp_for_lt_first {L} (body : Z -> L -> M L) lo hi acc
    (Q : L -> heap -> Prop) (E : error -> heap -> Prop) h :
  lo < hi -> wp (body lo acc) (fun _ _ => False) E h ->
  wp (for_lt lo hi body acc) Q E h.
Proof.
  intros Hlt Hbody. unfold for_lt.
  destruct (Z.to_nat (hi - lo)) as [|n] eqn:Hn; [lia|].
  cbn [for_range]. apply wp_bind.
  eapply wp_mono; [exact Hbody|done|done].
Qed.

(** ** Blocks *)

Lemma cellZ_insert_eq (b : block) k c :
  0 <= k < Z.of_nat (length b) -> cellZ (<[Z.to_nat k := c]> b) k = Some c.
Proof. intros Hk. unfold cellZ. apply list_lookup_insert_eq. lia. Qed.

Lemma cellZ_insert_ne (b : block) k k' c :
  0 <= k -> 0 <= k' -> k <> k' -> cellZ (<[Z.to_nat k := c]> b) k' = cellZ b k'.
Proof. intros Hk Hk' Hne. unfold cellZ. apply list_lookup_insert_ne. lia. Qed.

Lemma to_GLuint_small z : 0 <= z <= INT_MAX -> to_GLuint z = z.
Proof. unfold to_GLuint, INT_MAX. intros Hz. apply Z.mod_small. lia. Qed.

Lemma lin_index_inj w a r a' r' :
  0 <= r < w -> 0 <= r' < w -> a * w + r = a' * w + r' -> a = a' /\ r = r'.
Proof.
  intros Hr Hr' Heq.
  assert (a = a') as ->; [|lia].
  destruct (Z.lt_trichotomy a a') as [Hlt|[->|Hgt]]; [|done|].
  - assert ((a + 1) * w <= a' * w) by (apply Z.mul_le_mono_nonneg_r; lia). lia.
  - assert ((a' + 1) * w <= a * w) by (apply Z.mul_le_mono_nonneg_r; lia). lia.
Qed.

Lemma grid_index_inj w per i j c i' j' c' :
  0 <= j < w -> 0 <= c < per -> 0 <= j' < w -> 0 <= c' < per ->
  (i * w + j) * per + c = (i' * w + j') * per + c' ->
  i = i' /\ j = j' /\ c = c'.
Proof.
  intros Hj Hc Hj' Hc' Heq.
  apply lin_index_inj in Heq as [Heq ->]; [|done..].
  apply lin_index_inj in Heq as [-> ->]; done.
Qed.

Lemma grid_index_nonneg w per i j c :
  0 <= i -> 0 <= j < w -> 0 <= c < per -> 0 <= (i * w + j) * per + c.
Proof.
  intros Hi Hj Hc.
  assert (0 <= i * w) by (apply Z.mul_nonneg_nonneg; lia).
  assert (0 <= (i * w + j) * per) by (apply Z.mul_nonneg_nonneg; lia).
  lia.
Qed.

Lemma filled_start w per f b : filled w per f 0 b.
Proof.
  intros i j c Hi Hj Hc Hlt.
  pose proof (grid_index_nonneg w per i j c Hi Hj Hc). lia.
Qed.

Lemma filled_insert w per f n b i j c :
  filled w per f n b ->
  0 <= i -> 0 <= j < w -> 0 <= c < per ->
  n = (i * w + j) * per + c ->
  n < Z.of_nat (length b) ->
  filled w per f (n + 1) (<[Z.to_nat n := f i j c]> b).
Proof.
  intros Hf Hi Hj Hc Hn Hlen i' j' c' Hi' Hj' Hc' Hlt.
  pose proof (grid_index_nonneg w per i j c Hi Hj Hc).
  pose proof (grid_index_nonneg w per i' j' c' Hi' Hj' Hc').
  destruct (decide ((i' * w + j') * per + c' = n)) as [Heq|Hne].
  - rewrite Heq, cellZ_insert_eq by lia.
    destruct (grid_index_inj w per i j c i' j' c') as (-> & -> & ->); [done..|lia|done].
  - rewrite cellZ_insert_ne by lia. apply Hf; [done..|lia].
Qed.

(** ** Steps through an output argument *)

Lemma wp_alloc s n p Q E h :
  get_out s (outs h) = Target p -> 0 <= n ->
  Q tt (mkHeap (set_out s (Target (Some (replicate (Z.to_nat n) Indet))) (outs h))
               (EvAlloc s n :: trace h)) ->
  wp (alloc s n) Q E h.
Proof.
  intros Hs Hn HQ. unfold wp, alloc. rewrite Hs.
  destruct (Z.ltb_spec n 0); [lia|done].
Qed.

Lemma wp_store s i c b Q E h :
  get_out s (outs h) = Target (Some b) -> 0 <= i < Z.of_nat (length b) ->
  Q tt (mkHeap (set_out s (Target (Some (<[Z.to_nat i := c]> b))) (outs h))
               (EvStore s i :: trace h)) ->
  wp (store s i c) Q E h.
Proof.
  intros Hs Hi HQ. unfold wp, store. rewrite Hs.
  destruct (Z.leb_spec 0 i); [|lia].
  destruct (Z.ltb_spec i (Z.of_nat (length b))); [|lia]. done.
Qed.

Lemma wp_load s i v b Q E h :
  get_out s (outs h) = Target (Some b) -> 0 <= i < Z.of_nat (length b) ->
  cellZ b i = Some v ->
  Q v (mkHeap (outs h) (EvLoad s i :: trace h)) ->
  wp (load s i) Q E h.
Proof.
  intros Hs Hi Hv HQ. unfold wp, load. rewrite Hs.
  destruct (Z.leb_spec 0 i); [|lia].
  destruct (Z.ltb_spec i (Z.of_nat (length b))); [|lia].
  cbn. unfold cellZ in Hv. by rewrite Hv.
Qed.

Lemma wp_load_null s i (Q : cell -> heap -> Prop) (E : error -> heap -> Prop) h :
  get_out s (outs h) = NullArg -> E (NullDeref s) h -> wp (load s i) Q E h.
Proof. intros Hs HE. unfold wp, load. by rewrite Hs. Qed.

Lemma get_set_eq s v o : get_out s (set_out s v o) = v.
Proof. by destruct s. Qed.

Lemma get_set_ne s s' v o : s <> s' -> get_out s (set_out s' v o) = get_out s o.
Proof. by destruct s, s'. Qed.

(** ** The index pass of the sphere *)

Ltac int_range := unfold INT_MIN, INT_MAX in *; lia.

Ltac wp_int :=
  apply wp_bind; unfold iadd, imul, isub;
  apply wp_int_ok; [int_range | cbn beta].

Ltac wp_put :=
  rewrite ?to_GLuint_small by int_range;
  apply wp_bind; eapply wp_store;
  [ cbn; reflexivity || eassumption
  | rewrite ?length_insert; int_range
  | cbn beta ].

Section IndexPass.

Variables numSlices numParallels : Z.
Hypothesis slices_nonneg : 0 <= numSlices.
Hypothesis parallels_nonneg : 0 <= numParallels.
Hypothesis vertices_fit : (numParallels + 1) * (numSlices + 1) <= INT_MAX.

Let numIndices : Z := numParallels * numSlices * 6.
Local Abbreviation inv := (index_inv numSlices numParallels).
Local Abbreviation index_cell := (sphere_index_cell numSlices).

Lemma cell_in_block i j :
  0 <= i < numParallels -> 0 <= j < numSlices ->
  0 <= (i * numSlices + j) * 6 /\ (i * numSlices + j) * 6 + 6 <= numIndices.
Proof.
  intros Hi Hj. unfold numIndices.
  assert (0 <= i * numSlices) by (apply Z.mul_nonneg_nonneg; lia).
  assert ((i + 1) * numSlices <= numParallels * numSlices)
    by (apply Z.mul_le_mono_nonneg_r; lia).
  lia.
Qed.

Lemma corner_in_int i j :
  0 <= i < numParallels -> 0 <= j < numSlices ->
  0 <= i * (numSlices + 1) /\
  i * (numSlices + 1) <= (i + 1) * (numSlices + 1) /\
  (i + 1) * (numSlices + 1) + (j + 1) <= INT_MAX.
Proof.
  intros Hi Hj.
  assert (0 <= i * (numSlices + 1)) by (apply Z.mul_nonneg_nonneg; lia).
  assert ((i + 2) * (numSlices + 1) <= (numParallels + 1) * (numSlices + 1))
    by (apply Z.mul_le_mono_nonneg_r; lia).
  lia.
Qed.

Lemma sphere_index_body_spec o i j indexBuf h :
  0 <= i < numParallels -> 0 <= j < numSlices ->
  inv o ((i * numSlices + j) * 6) indexBuf h ->
  wp (sphere_index_body numSlices i j indexBuf)
     (inv o ((i * numSlices + j + 1) * 6)) no_err h.
Proof.
  intros Hi Hj (-> & b & Hb & Hlen & Hfill & Hframe).
  destruct (cell_in_block i j Hi Hj) as [Hlo Hhi].
  destruct (corner_in_int i j Hi Hj) as (Hc0 & Hc1 & Hc2).
  unfold sphere_index_cell, grid_vertex in *.
  set (n := (i * numSlices + j) * 6) in *.
  unfold sphere_index_body.
  do 3 wp_int. wp_put.
  do 4 wp_int. wp_put.
  do 5 wp_int. wp_put.
  do 3 wp_int. wp_put.
  do 5 wp_int. wp_put.
  do 4 wp_int. wp_put.
  apply wp_ret. split; [lia|].
  eexists. split; [cbn; reflexivity|].
  split; [by rewrite !length_insert|].
  split; [|intros s Hs; cbn [outs]; rewrite !get_set_ne by done; by apply Hframe].
  replace ((i * numSlices + j + 1) * 6) with (n + 1 + 1 + 1 + 1 + 1 + 1) by lia.
  replace (n + 5) with (n + 1 + 1 + 1 + 1 + 1) by lia.
  replace (n + 4) with (n + 1 + 1 + 1 + 1) by lia.
  replace (n + 3) with (n + 1 + 1 + 1) by lia.
  replace (n + 2) with (n + 1 + 1) by lia.
  apply (filled_insert numSlices 6 index_cell _ _ i j 5);
    [|lia..|rewrite !length_insert; lia].
  apply (filled_insert numSlices 6 index_cell _ _ i j 4);
    [|lia..|rewrite !length_insert; lia].
  apply (filled_insert numSlices 6 index_cell _ _ i j 3);
    [|lia..|rewrite !length_insert; lia].
  apply (filled_insert numSlices 6 index_cell _ _ i j 2);
    [|lia..|rewrite !length_insert; lia].
  apply (filled_insert numSlices 6 index_cell _ _ i j 1);
    [|lia..|rewrite !length_insert; lia].
  apply (filled_insert numSlices 6 index_cell _ _ i j 0); [|lia..]. done.
Qed.

Lemma sphere_index_pass_spec o h b :
  get_out Indices (outs h) = Target (Some b) ->
  Z.of_nat (length b) = numIndices ->
  (forall s, s <> Indices -> get_out s (outs h) = get_out s o) ->
  wp (for_lt 0 numParallels (fun i indexBuf =>
        for_lt 0 numSlices (sphere_index_body numSlices i) indexBuf) 0)
     (inv o numIndices) no_err h.
Proof.
  intros Hb Hlen Hframe.
  eapply wp_mono;
    [apply (wp_for_lt (fun i => inv o (i * numSlices * 6)))| |done].
  - done.
  - split; [lia|]. exists b. repeat split; [done..| |done].
    replace (0 * numSlices * 6) with 0 by lia. apply filled_start.
  - intros i cur h' Hi Hinv. cbn beta.
    eapply wp_mono;
      [apply (wp_for_lt (fun j => inv o ((i * numSlices + j) * 6)))| |done].
    + done.
    + by replace ((i * numSlices + 0) * 6) with (i * numSlices * 6) by lia.
    + intros j cur' h'' Hj Hinv'. cbn beta.
      eapply wp_mono; [by apply sphere_index_body_spec| |done].
      intros a h3 H3. cbn beta.
      by replace ((i * numSlices + (j + 1)) * 6) with ((i * numSlices + j + 1) * 6) by lia.
    + intros a h3 H3. cbn beta in *.
      by replace ((i + 1) * numSlices * 6) with ((i * numSlices + numSlices) * 6) by lia.
  - done.
Qed.

End IndexPass.

(** ** The vertex pass of the sphere *)

Lemma grid_slot_frame s len w per f n h h' :
  get_out s (outs h') = get_out s (outs h) ->
  grid_slot s len w per f n h -> grid_slot s len w per f n h'.
Proof. unfold grid_slot. by intros ->. Qed.

Ltac wp_get :=
  apply wp_bind; eapply wp_load;
  [ cbn; reflexivity || eassumption
  | rewrite ?length_insert; int_range
  | | cbn beta ].

Ltac wp_req H :=
  apply wp_bind; apply wp_requested; cbn [outs]; rewrite ?H; cbn [when].

Section VertexPass.

Variables sinf cosf : float32 -> float32.
Variables numSlices numParallels : Z.
Variables radius angleStep : float32.
Hypothesis slices_nonneg : 0 <= numSlices.
Hypothesis parallels_nonneg : 0 <= numParallels.

Let numVertices : Z := (numParallels + 1) * (numSlices + 1).
Local Abbreviation pos_cell := (sphere_pos_cell sinf cosf radius angleStep).
Local Abbreviation normal_cell := (sphere_normal_cell sinf cosf radius angleStep).
Local Abbreviation tex_cell := (sphere_tex_cell numSlices numParallels).
Local Abbreviation inv :=
  (vertex_inv sinf cosf numSlices numParallels radius angleStep).
Hypothesis cells_fit : 3 * numVertices <= INT_MAX.

Lemma vertex_in_grid i j :
  0 <= i < numParallels + 1 -> 0 <= j < numSlices + 1 ->
  0 <= i * (numSlices + 1) /\ i * (numSlices + 1) + j < numVertices.
Proof.
  intros Hi Hj. unfold numVertices.
  assert (0 <= i * (numSlices + 1)) by (apply Z.mul_nonneg_nonneg; lia).
  assert ((i + 1) * (numSlices + 1) <= (numParallels + 1) * (numSlices + 1))
    by (apply Z.mul_le_mono_nonneg_r; lia).
  lia.
Qed.

Lemma sphere_write_position_spec i j h :
  0 <= i < numParallels + 1 -> 0 <= j < numSlices + 1 ->
  let t := i * (numSlices + 1) + j in
  grid_slot Vertices (3 * numVertices) (numSlices + 1) 3 pos_cell (t * 3) h ->
  wp (sphere_write_position sinf cosf radius angleStep i j (t * 3))
     (fun _ h' =>
        grid_slot Vertices (3 * numVertices) (numSlices + 1) 3 pos_cell
                  ((t + 1) * 3) h' /\
        (get_out Vertices (outs h') = NullArg <-> get_out Vertices (outs h) = NullArg) /\
        forall s, s <> Vertices -> get_out s (outs h') = get_out s (outs h))
     no_err h.
Proof.
  intros Hi Hj t Hslot.
  destruct (vertex_in_grid i j Hi Hj) as [Hlo Hhi]. fold t in Hhi.
  unfold sphere_write_position.
  destruct Hslot as [Hnull | (b & Hb & Hlen & Hfill)].
  - wp_req Hnull. apply wp_ret. split; [by left|done].
  - wp_req Hb. wp_int. wp_put. wp_int. wp_put. wp_int.
    eapply wp_store; [cbn; reflexivity|rewrite ?length_insert; int_range|].
    split; [right|split; [cbn; done|]].
    + eexists. split; [cbn; reflexivity|]. split; [by rewrite !length_insert|].
      replace ((t + 1) * 3) with (t * 3 + 0 + 1 + 1 + 1) by lia.
      replace (t * 3 + 2) with (t * 3 + 0 + 1 + 1) by lia.
      replace (t * 3 + 1) with (t * 3 + 0 + 1) by lia.
      apply (filled_insert (numSlices + 1) 3 pos_cell _ _ i j 2);
        [|lia..|rewrite !length_insert; lia].
      apply (filled_insert (numSlices + 1) 3 pos_cell _ _ i j 1);
        [|lia..|rewrite !length_insert; lia].
      apply (filled_insert (numSlices + 1) 3 pos_cell _ _ i j 0);
        [|lia..].
      by replace (t * 3 + 0) with (t * 3) by lia.
    + intros s Hs. cbn [outs]. by rewrite !get_set_ne.
Qed.

Lemma sphere_write_normal_spec i j h :
  0 <= i < numParallels + 1 -> 0 <= j < numSlices + 1 ->
  let t := i * (numSlices + 1) + j in
  grid_slot Vertices (3 * numVertices) (numSlices + 1) 3 pos_cell
            ((t + 1) * 3) h ->
  grid_slot Normals (3 * numVertices) (numSlices + 1) 3 normal_cell (t * 3) h ->
  (get_out Normals (outs h) = NullArg \/ get_out Vertices (outs h) <> NullArg) ->
  wp (sphere_write_normal radius (t * 3))
     (fun _ h' =>
        grid_slot Normals (3 * numVertices) (numSlices + 1) 3 normal_cell
                  ((t + 1) * 3) h' /\
        (get_out Normals (outs h') = NullArg <-> get_out Normals (outs h) = NullArg) /\
        forall s, s <> Normals -> get_out s (outs h') = get_out s (outs h))
     no_err h.
Proof.
  intros Hi Hj t HV HN Hwf.
  destruct (vertex_in_grid i j Hi Hj) as [Hlo Hhi]. fold t in Hhi.
  unfold sphere_write_normal.
  destruct HN as [Hnull | (b & Hb & Hlen & Hfill)].
  { wp_req Hnull. apply wp_ret. split; [by left|done]. }
  destruct Hwf as [Hwf|Hwf]; [congruence|].
  destruct HV as [HV | (bv & Hbv & Hlenv & Hfillv)]; [done|].
  assert (forall c, 0 <= c < 3 -> cellZ bv (t * 3 + c) = Some (pos_cell i j c))
    as Hread by (intros c Hc; apply Hfillv; lia).
  destruct h as [[ov oc on ot oi] tr]. cbn in Hb, Hbv. subst ov on.
  wp_req Hb.
  wp_int. wp_get; [apply Hread; lia|]. wp_put.
  wp_int. wp_get; [apply Hread; lia|]. wp_put.
  wp_int. wp_get; [apply Hread; lia|].
  eapply wp_store; [cbn; reflexivity|rewrite ?length_insert; int_range|].
  split; [right|split; [cbn; done|]].
  - eexists. split; [cbn; reflexivity|]. split; [by rewrite !length_insert|].
    replace ((t + 1) * 3) with (t * 3 + 0 + 1 + 1 + 1) by lia.
    replace (t * 3 + 2) with (t * 3 + 0 + 1 + 1) by lia.
    replace (t * 3 + 1) with (t * 3 + 0 + 1) by lia.
    apply (filled_insert (numSlices + 1) 3 normal_cell _ _ i j 2);
      [|lia..|rewrite !length_insert; lia].
    apply (filled_insert (numSlices + 1) 3 normal_cell _ _ i j 1);
      [|lia..|rewrite !length_insert; lia].
    apply (filled_insert (numSlices + 1) 3 normal_cell _ _ i j 0);
      [|lia..].
    by replace (t * 3 + 0) with (t * 3) by lia.
  - intros s Hs. cbn [outs]. by rewrite !get_set_ne.
Qed.

Lemma sphere_write_texCoord_spec i j h :
  0 <= i < numParallels + 1 -> 0 <= j < numSlices + 1 ->
  let t := i * (numSlices + 1) + j in
  grid_slot TexCoords (2 * numVertices) (numSlices + 1) 2 tex_cell (t * 2) h ->
  wp (sphere_write_texCoord numSlices numParallels i j)
     (fun _ h' =>
        grid_slot TexCoords (2 * numVertices) (numSlices + 1) 2 tex_cell
                  ((t + 1) * 2) h' /\
        (get_out TexCoords (outs h') = NullArg <-> get_out TexCoords (outs h) = NullArg) /\
        forall s, s <> TexCoords -> get_out s (outs h') = get_out s (outs h))
     no_err h.
Proof.
  intros Hi Hj t Hslot.
  destruct (vertex_in_grid i j Hi Hj) as [Hlo Hhi]. fold t in Hhi.
  unfold sphere_write_texCoord.
  destruct Hslot as [Hnull | (b & Hb & Hlen & Hfill)].
  - wp_req Hnull. apply wp_ret. split; [by left|done].
  - wp_req Hb. do 5 wp_int. fold t. wp_put. do 2 wp_int.
    eapply wp_store; [cbn; reflexivity|rewrite ?length_insert; int_range|].
    split; [right|split; [cbn; done|]].
    + eexists. split; [cbn; reflexivity|]. split; [by rewrite !length_insert|].
      replace ((t + 1) * 2) with (t * 2 + 0 + 1 + 1) by lia.
      replace (t * 2 + 1) with (t * 2 + 0 + 1) by lia.
      apply (filled_insert (numSlices + 1) 2 tex_cell _ _ i j 1);
        [|lia..|rewrite !length_insert; lia].
      apply (filled_insert (numSlices + 1) 2 tex_cell _ _ i j 0);
        [|lia..].
      by replace (t * 2 + 0) with (t * 2) by lia.
    + intros s Hs. cbn [outs]. by rewrite !get_set_ne.
Qed.

Lemma sphere_vertex_body_spec o i j u h :
  0 <= i < numParallels + 1 -> 0 <= j < numSlices + 1 ->
  inv o (i * (numSlices + 1) + j) u h ->
  wp (sphere_vertex_body sinf cosf numSlices numParallels radius angleStep i j u)
     (inv o (i * (numSlices + 1) + j + 1)) no_err h.
Proof.
  intros Hi Hj (HV & HN & HT & Hwf & Hnull & HC & HI).
  destruct (vertex_in_grid i j Hi Hj) as [Hlo Hhi].
  unfold sphere_vertex_body. do 4 wp_int.
  apply wp_bind.
  eapply wp_mono; [by apply sphere_write_position_spec| |done].
  intros [] h1 (HV1 & Hn1 & Hf1). cbn beta.
  apply wp_bind.
  eapply wp_mono; [apply sphere_write_normal_spec; [done..| |]| |done].
  { eapply grid_slot_frame; [|done]. by apply Hf1. }
  { rewrite Hn1, Hf1; done. }
  intros [] h2 (HN2 & Hn2 & Hf2). cbn beta.
  eapply wp_mono; [apply sphere_write_texCoord_spec; [done..|]| |done].
  { eapply grid_slot_frame; [|done]. rewrite Hf2, Hf1; done. }
  intros [] h3 (HT3 & Hn3 & Hf3). cbn beta.
  split; [|split; [|split; [done|split; [|split; [|split]]]]].
  - eapply grid_slot_frame; [|done]. rewrite Hf3, Hf2; done.
  - eapply grid_slot_frame; [|done]. rewrite Hf3; done.
  - rewrite !Hf3, Hn2, Hf2, Hn1, !Hf1 by done. done.
  - intros s. rewrite <- Hnull.
    destruct s; rewrite ?Hn3, ?Hf3, ?Hn2, ?Hf2, ?Hn1, ?Hf1 by done; done.
  - rewrite Hf3, Hf2, Hf1 by done. done.
  - rewrite Hf3, Hf2, Hf1 by done. done.
Qed.

Lemma sphere_vertex_pass_spec o h :
  inv o 0 tt h ->
  wp (for_lt 0 (numParallels + 1) (fun i _ =>
        jEnd <- iadd numSlices 1 ;;
        for_lt 0 jEnd
          (sphere_vertex_body sinf cosf numSlices numParallels radius angleStep i) tt) tt)
     (inv o numVertices) no_err h.
Proof.
  intros H0.
  assert (numSlices + 1 <= INT_MAX).
  { destruct (vertex_in_grid 0 numSlices); [lia..|]. int_range. }
  eapply wp_mono;
    [apply (wp_for_lt (fun i => inv o (i * (numSlices + 1))))| |done].
  - lia.
  - done.
  - intros i u h' Hi Hinv. cbn beta. wp_int.
    eapply wp_mono;
      [apply (wp_for_lt (fun j => inv o (i * (numSlices + 1) + j)))| |done].
    + lia.
    + by replace (i * (numSlices + 1) + 0) with (i * (numSlices + 1)) by lia.
    + intros j u' h'' Hj Hinv'. cbn beta.
      eapply wp_mono; [by apply sphere_vertex_body_spec| |done].
      intros a h3 H3. cbn beta.
      by replace (i * (numSlices + 1) + (j + 1))
        with (i * (numSlices + 1) + j + 1) by lia.
    + intros a h3 H3. cbn beta in *.
      by replace ((i + 1) * (numSlices + 1))
        with (i * (numSlices + 1) + (numSlices + 1)) by lia.
  - done.
Qed.

End VertexPass.

(** ** A whole call of the sphere *)

Lemma wp_malloc_if s n w per f Q E h :
  0 <= n ->
  (forall h', grid_slot s n w per f 0 h' ->
     (get_out s (outs h') = NullArg <-> get_out s (outs h) = NullArg) ->
     (forall s', s' <> s -> get_out s' (outs h') = get_out s' (outs h)) ->
     Q tt h') ->
  wp (malloc_if_requested s n) Q E h.
Proof.
  intros Hn HQ. unfold malloc_if_requested.
  apply wp_bind, wp_requested.
  destruct (get_out s (outs h)) as [|p] eqn:Hs; cbn [when].
  - apply wp_ret. apply HQ; [by left|done|done].
  - eapply wp_alloc; [done..|]. apply HQ.
    + right. eexists. split; [cbn [outs]; by rewrite get_set_eq|].
      split; [rewrite length_replicate; lia|apply filled_start].
    + cbn [outs]. rewrite get_set_eq. done.
    + intros s' Hs'. cbn [outs]. by rewrite get_set_ne.
Qed.

Lemma sphere_counts_fit numSlices :
  0 <= numSlices <= MAX_SLICES ->
  let numParallels := numSlices / 2 in
  0 <= numParallels /\
  3 * ((numParallels + 1) * (numSlices + 1)) <= INT_MAX /\
  0 <= numParallels * numSlices /\
  numParallels * numSlices * 6 <= INT_MAX.
Proof.
  intros Hs numParallels. unfold MAX_SLICES, INT_MAX in *.
  assert (0 <= numParallels <= 13377) as Hp
    by (unfold numParallels; Z.div_mod_to_equations; lia).
  assert ((numParallels + 1) * (numSlices + 1) <= 13378 * 26756)
    by (apply Z.mul_le_mono_nonneg; lia).
  assert (numParallels * numSlices <= 13377 * 26755)
    by (apply Z.mul_le_mono_nonneg; lia).
  assert (0 <= numParallels * numSlices) by (apply Z.mul_nonneg_nonneg; lia).
  lia.
Qed.

Section SphereCall.

Variables sinf cosf : float32 -> float32.

Lemma esGenSphere_mesh numSlices radius o :
  0 <= numSlices <= MAX_SLICES ->
  (get_out Normals o = NullArg \/ get_out Vertices o <> NullArg) ->
  wp (esGenSphere sinf cosf numSlices radius)
     (sphere_mesh sinf cosf o numSlices radius) no_err (start o).
Proof.
  intros Hs Hwf.
  destruct (sphere_counts_fit numSlices Hs) as (HP & HV & HPS & HI).
  unfold esGenSphere, idiv. change (2 =? 0) with false. cbv iota.
  rewrite Z.quot_div_nonneg by lia.
  fold (sphere_angleStep numSlices).
  set (numParallels := numSlices / 2) in *.
  set (numVertices := (numParallels + 1) * (numSlices + 1)) in *.
  assert (0 <= numVertices) by (apply Z.mul_nonneg_nonneg; lia).
  assert (numParallels <= numVertices /\ numSlices + 1 <= numVertices) as [? ?].
  { unfold numVertices. split; nia. }
  do 6 wp_int. fold numVertices.
  apply wp_bind.
  apply (wp_malloc_if _ _ (numSlices + 1) 3
           (sphere_pos_cell sinf cosf radius (sphere_angleStep numSlices))); [lia|].
  intros h1 G1 N1 F1. cbn beta.
  apply wp_bind.
  apply (wp_malloc_if _ _ (numSlices + 1) 3
           (sphere_normal_cell sinf cosf radius (sphere_angleStep numSlices))); [lia|].
  intros h2 G2 N2 F2. cbn beta.
  apply wp_bind.
  apply (wp_malloc_if _ _ (numSlices + 1) 2
           (sphere_tex_cell numSlices numParallels)); [lia|].
  intros h3 G3 N3 F3. cbn beta.
  apply wp_bind.
  apply (wp_malloc_if _ _ numSlices 6 (sphere_index_cell numSlices)); [lia|].
  intros h4 G4 N4 F4. cbn beta.
  wp_int. apply wp_bind.
  eapply wp_mono;
    [apply (sphere_vertex_pass_spec sinf cosf numSlices numParallels radius
              (sphere_angleStep numSlices)) with (o := outs h4); [lia..| ]| |done].
  { repeat split; try done.
    - eapply grid_slot_frame; [|exact G1]. rewrite F4, F3, F2; done.
    - eapply grid_slot_frame; [|exact G2]. rewrite F4, F3; done.
    - eapply grid_slot_frame; [|exact G3]. rewrite F4; done.
    - rewrite !F4, !F3, N2, F2, N1, !F1 by done. exact Hwf. }
  intros [] h5 (GV & GN & GT & _ & Hnull5 & HC5 & HI5). cbn beta.
  fold numVertices in GV, GN, GT.
  assert (forall s, get_out s (outs h4) = NullArg <-> get_out s o = NullArg) as Hnull4.
  { intros s. destruct s;
      rewrite ?N4, ?F4, ?N3, ?F3, ?N2, ?F2, ?N1, ?F1 by done; done. }
  assert (get_out Colors (outs h4) = get_out Colors o) as HC4.
  { rewrite F4, F3, F2, F1 by done. done. }
  wp_req HI5.
  destruct G4 as [G4 | (b & Hb & Hlen & Hfill)].
  - rewrite G4. cbn [when]. apply wp_bind, wp_ret, wp_ret.
    repeat split; try done.
    + left. by rewrite HI5.
    + by rewrite HC5.
    + intros Hx. apply Hnull4, Hnull5, Hx.
    + intros Hx. apply Hnull5, Hnull4, Hx.
  - rewrite Hb. cbn [when]. apply wp_bind, wp_bind.
    eapply wp_mono;
      [apply (sphere_index_pass_spec numSlices numParallels) with (o := outs h5) (b := b);
        [lia..|int_range|by rewrite HI5|done|done]| |done].
    intros cur h6 (_ & b' & Hb' & Hlen' & Hfill' & Hframe). cbn beta.
    apply wp_ret, wp_ret.
    split; [done|]. split; [|split; [|split; [|split; [|split]]]].
    + eapply grid_slot_frame; [|exact GV]. by apply Hframe.
    + eapply grid_slot_frame; [|exact GN]. by apply Hframe.
    + eapply grid_slot_frame; [|exact GT]. by apply Hframe.
    + right. by exists b'.
    + rewrite Hframe, HC5 by done. done.
    + intros s. rewrite <- Hnull4, <- Hnull5.
      destruct (decide (s = Indices)) as [->|Hne]; [|by rewrite Hframe].
      rewrite Hb', HI5, Hb. done.
Qed.

End SphereCall.

(** ** Access disciplines *)

Section Discipline.

Variable nul : slot -> Prop.
Variable okev : event -> Prop.
Variable okerr : error -> Prop.

Local Abbreviation keeps' := (keeps nul okev okerr).

Lemma keeps_ret {A} (a : A) : keeps' (ret a).
Proof. intros h Hh. by apply wp_ret. Qed.

Lemma keeps_bind {A B} (m : M A) (k : A -> M B) :
  keeps' m -> (forall a, keeps' (k a)) -> keeps' (bind m k).
Proof.
  intros Hm Hk h Hh. apply wp_bind.
  eapply wp_mono; [by apply Hm| |done].
  intros a h' Hh'. by apply Hk.
Qed.

Lemma keeps_int_chk z : okerr SignedOverflow -> keeps' (int_chk z).
Proof. intros Hov h Hh. by apply wp_int_chk. Qed.

Lemma keeps_idiv_2 a : okerr SignedOverflow -> keeps' (idiv a 2).
Proof. intros Hov. unfold idiv. cbn. by apply keeps_int_chk. Qed.

Lemma keeps_requested s : keeps' (requested s).
Proof. intros h Hh. by apply wp_requested. Qed.

Lemma keeps_when b m : keeps' m -> keeps' (when b m).
Proof. intros Hm. destruct b; [done|apply keeps_ret]. Qed.

Lemma keeps_for_lt {L} lo hi (body : Z -> L -> M L) acc :
  (forall k a, keeps' (body k a)) -> keeps' (for_lt lo hi body acc).
Proof.
  intros Hbody h Hh.
  apply (wp_for_lt_any (fun _ h' => disciplined nul okev h')); [done|].
  intros k a h' Hh'. by apply Hbody.
Qed.

(** A guarded statement whose argument is NULL does nothing. *)
Lemma keeps_guard_null s m :
  nul s -> keeps' (has <- requested s ;; when has m).
Proof.
  intros Hs h Hh. apply wp_bind, wp_requested.
  destruct Hh as [Hnul Htr]. rewrite (Hnul s Hs). cbn [when].
  apply wp_ret. by split.
Qed.

Lemma keeps_guard s m : keeps' m -> keeps' (has <- requested s ;; when has m).
Proof.
  intros Hm. apply keeps_bind; [apply keeps_requested|].
  intros b. by apply keeps_when.
Qed.

Lemma disciplined_set s v ev h :
  ~ nul s -> okev ev -> disciplined nul okev h ->
  disciplined nul okev (mkHeap (set_out s v (outs h)) (ev :: trace h)).
Proof.
  intros Hs Hev [Hnul Htr]. split; cbn.
  - intros s' Hs'. rewrite get_set_ne by congruence. by apply Hnul.
  - by constructor.
Qed.

Lemma keeps_alloc s n :
  ~ nul s -> okev (EvAlloc s n) -> (forall e, err_slot e = Some s -> okerr e) ->
  keeps' (alloc s n).
Proof.
  intros Hs Hev Herr h Hh. unfold wp, alloc.
  destruct (get_out s (outs h)); [by split; [|apply Herr]|].
  destruct (n <? 0); [by split; [|apply Herr]|].
  by apply disciplined_set.
Qed.

Lemma keeps_store s i c :
  ~ nul s -> okev (EvStore s i) -> (forall e, err_slot e = Some s -> okerr e) ->
  keeps' (store s i c).
Proof.
  intros Hs Hev Herr h Hh. unfold wp, store.
  destruct (get_out s (outs h)) as [|[b|]]; try (by split; [|apply Herr]).
  destruct (_ && _); [|by split; [|apply Herr]].
  by apply disciplined_set.
Qed.

(** A read through a NULL argument stops the run. *)
Lemma keeps_load_null {B} s i (k : cell -> M B) :
  nul s -> okerr (NullDeref s) -> keeps' (bind (load s i) k).
Proof.
  intros Hs Herr h Hh. apply wp_bind, wp_load_null; [|done].
  by apply Hh.
Qed.

Lemma keeps_load s i :
  okev (EvLoad s i) -> (forall e, err_slot e = Some s -> okerr e) ->
  keeps' (load s i).
Proof.
  intros Hev Herr h Hh. unfold wp, load.
  destruct (get_out s (outs h)) as [|[b|]]; try (by split; [|apply Herr]).
  destruct (_ && _); [|by split; [|apply Herr]].
  destruct Hh as [Hnul Htr]. split; cbn; [done|by constructor].
Qed.

End Discipline.

Ltac keeps_side :=
  solve [ done | cbn; intros; congruence | cbn; intros; subst; done
        | intros [] ?; cbn; congruence ].

Ltac keeps_prim :=
  lazymatch goal with
  | |- keeps _ _ _ (ret _) => apply keeps_ret
  | |- keeps _ _ _ (iadd _ _) => apply keeps_int_chk; keeps_side
  | |- keeps _ _ _ (isub _ _) => apply keeps_int_chk; keeps_side
  | |- keeps _ _ _ (imul _ _) => apply keeps_int_chk; keeps_side
  | |- keeps _ _ _ (idiv _ 2) => apply keeps_idiv_2; keeps_side
  | |- keeps _ _ _ (requested _) => apply keeps_requested
  | |- keeps _ _ _ (store _ _ _) => apply keeps_store; keeps_side
  | |- keeps _ _ _ (alloc _ _) => apply keeps_alloc; keeps_side
  | |- keeps _ _ _ (load _ _) => apply keeps_load; keeps_side
  end.

Ltac keeps_seq :=
  repeat (apply keeps_bind; [keeps_prim | intros ?]); try keeps_prim.

Section SphereDiscipline.

Variables sinf cosf : float32 -> float32.

Lemma esGenSphere_only_indices numSlices radius :
  keeps only_indices on_indices about_indices
    (esGenSphere sinf cosf numSlices radius).
Proof.
  unfold esGenSphere.
  do 6 (apply keeps_bind; [keeps_prim | intros ?]).
  do 3 (apply keeps_bind; [by apply keeps_guard_null | intros _]).
  apply keeps_bind; [apply keeps_guard; keeps_prim | intros _].
  apply keeps_bind; [keeps_prim | intros ?].
  apply keeps_bind.
  { apply keeps_for_lt. intros i []. apply keeps_bind; [keeps_prim | intros ?].
    apply keeps_for_lt. intros j []. unfold sphere_vertex_body.
    do 4 (apply keeps_bind; [keeps_prim | intros ?]).
    do 2 (apply keeps_bind; [by apply keeps_guard_null | intros _]).
    by apply keeps_guard_null. }
  intros _. apply keeps_bind; [keeps_prim | intros ?].
  apply keeps_bind; [|intros _; keeps_prim].
  apply keeps_when. apply keeps_bind; [|intros _; keeps_prim].
  apply keeps_for_lt. intros i cur. apply keeps_for_lt. intros j cur'.
  unfold sphere_index_body. keeps_seq.
Qed.

(** With a NULL vertex argument no normal is ever stored, whatever the
    normal argument is. *)
Lemma esGenSphere_no_vertices numSlices radius :
  keeps no_vertices not_normal_store any_error
    (esGenSphere sinf cosf numSlices radius).
Proof.
  unfold esGenSphere.
  do 6 (apply keeps_bind; [keeps_prim | intros ?]).
  apply keeps_bind; [by apply keeps_guard_null | intros _].
  do 3 (apply keeps_bind; [apply keeps_guard; keeps_prim | intros _]).
  apply keeps_bind; [keeps_prim | intros ?].
  apply keeps_bind.
  { apply keeps_for_lt. intros i []. apply keeps_bind; [keeps_prim | intros ?].
    apply keeps_for_lt. intros j []. unfold sphere_vertex_body.
    do 4 (apply keeps_bind; [keeps_prim | intros ?]).
    apply keeps_bind; [by apply keeps_guard_null | intros _].
    apply keeps_bind; [|intros _].
    - unfold sphere_write_normal. apply keeps_guard.
      apply keeps_bind; [keeps_prim | intros ?].
      by apply keeps_load_null.
    - unfold sphere_write_texCoord. apply keeps_guard. keeps_seq. }
  intros _. apply keeps_bind; [keeps_prim | intros ?].
  apply keeps_bind; [|intros _; keeps_prim].
  apply keeps_when. apply keeps_bind; [|intros _; keeps_prim].
  apply keeps_for_lt. intros i cur. apply keeps_for_lt. intros j cur'.
  unfold sphere_index_body. keeps_seq.
Qed.

End SphereDiscipline.

(** ** Halving in binary32 *)

Lemma shr_exponent r e n : shr r (e - 1) n = (fst (shr r e n), snd (shr r e n) - 1).
Proof. destruct n; cbn; f_equal; lia. Qed.

Lemma shr_fexp_above m e l :
  -124 <= Zdigits2 m + e ->
  shr_fexp F32.prec F32.emax m (e - 1) l =
    (fst (shr_fexp F32.prec F32.emax m e l), snd (shr_fexp F32.prec F32.emax m e l) - 1).
Proof.
  intros H. unfold shr_fexp, fexp, emin, F32.prec, F32.emax.
  rewrite !Z.max_l by lia.
  replace (Zdigits2 m + (e - 1) - 24 - (e - 1)) with (Zdigits2 m + e - 24 - e) by lia.
  apply shr_exponent.
Qed.

Lemma shr_fexp_idle m e l :
  Zdigits2 m <= 24 -> -149 <= e ->
  shr_fexp F32.prec F32.emax m e l = (shr_record_of_loc m l, e).
Proof.
  intros Hd He. unfold shr_fexp, fexp, emin, F32.prec, F32.emax.
  destruct (Z.max _ _ - e) as [|p|p] eqn:Hn; [done| lia |done].
Qed.

Lemma round_aux_shift s t mx ex s' m' e' :
  binary_round_aux F32.prec F32.emax s (Zpos mx) ex loc_Exact = S754_finite s' m' e' ->
  -124 <= Zpos (digits2_pos mx) + ex ->
  binary_round_aux F32.prec F32.emax t (Zpos mx) (ex - 1) loc_Exact =
    S754_finite t m' (e' - 1).
Proof.
  intros Hr Hd. unfold binary_round_aux in *.
  rewrite shr_fexp_above by done.
  destruct (shr_fexp F32.prec F32.emax (Zpos mx) ex loc_Exact) as [r1 e1] eqn:H1.
  cbn [fst snd].
  set (m2 := round_nearest_even (shr_m r1) (loc_of_shr_record r1)) in *.
  assert (-124 <= Zdigits2 m2 + e1 \/ (Zdigits2 m2 <= 24 /\ -148 <= e1)) as Hcase.
  { unfold shr_fexp, fexp, emin, F32.prec, F32.emax in H1.
    rewrite Z.max_l in H1 by (cbn [Zdigits2]; lia).
    cbn [Zdigits2] in H1.
    destruct (Z.pos (digits2_pos mx) + ex - 24 - ex) as [|p|p] eqn:Hn;
      cbn in H1; injection H1 as <- <-.
    - right. subst m2. cbn. lia.
    - destruct (Z_le_gt_dec (Zdigits2 m2) 24); [right|left]; lia.
    - right. subst m2. cbn. lia. }
  destruct Hcase as [Habove | [Hsmall He1]].
  - rewrite shr_fexp_above by done.
    destruct (shr_fexp F32.prec F32.emax m2 e1 loc_Exact) as [r2 e2].
    cbn [fst snd]. destruct (shr_m r2); try done.
    destruct (Z.leb_spec e2 (F32.emax - F32.prec)); [|done].
    injection Hr as _ <- <-.
    destruct (Z.leb_spec (e2 - 1) (F32.emax - F32.prec)); [done|lia].
  - rewrite shr_fexp_idle in * by lia.
    cbn [shr_m shr_record_of_loc] in *. destruct m2; try done.
    destruct (Z.leb_spec e1 (F32.emax - F32.prec)); [|done].
    injection Hr as _ <- <-.
    destruct (Z.leb_spec (e1 - 1) (F32.emax - F32.prec)); [done|lia].
Qed.

Lemma shr_23 m :
  SpecFloat.iter_pos shr_1 23
    {| shr_m := Zpos (m~0~0~0~0~0~0~0~0~0~0~0~0~0~0~0~0~0~0~0~0~0~0~0);
       shr_r := false; shr_s := false |} =
  {| shr_m := Zpos m; shr_r := false; shr_s := false |}.
Proof. reflexivity. Qed.

Lemma half_mul sc s m e :
  Zpos (digits2_pos m) = 24 -> -148 <= e <= 105 ->
  S754_finite sc 8388608 (-24) *f S754_finite s m e = S754_finite (xorb sc s) m (e - 1).
Proof.
  intros Hd He. unfold F32.mul, SFmul, binary_round_aux.
  change (8388608 * m)%positive with (m~0~0~0~0~0~0~0~0~0~0~0~0~0~0~0~0~0~0~0~0~0~0~0)%positive.
  assert (Zdigits2 (Zpos (m~0~0~0~0~0~0~0~0~0~0~0~0~0~0~0~0~0~0~0~0~0~0~0)) = 47) as Hd'.
  { cbn [Zdigits2 digits2_pos]. lia. }
  unfold shr_fexp. rewrite Hd'.
  unfold fexp, emin, F32.prec, F32.emax.
  replace (Z.max (47 + (-24 + e) - 24) (3 - 128 - 24) - (-24 + e)) with 23 by lia.
  cbn [shr shr_record_of_loc]. rewrite !shr_23.
  cbn [shr_m loc_of_shr_record round_nearest_even Zdigits2]. rewrite Hd.
  replace (Z.max (24 + (-24 + e + 23) - 24) (3 - 128 - 24) - (-24 + e + 23)) with 0 by lia.
  cbn [shr shr_record_of_loc shr_m].
  destruct (Z.leb_spec (-24 + e + 23) (128 - 24)); [|lia].
  f_equal. lia.
Qed.

Lemma binary_round_aux_sign s m e l s' m' e' :
  binary_round_aux F32.prec F32.emax s m e l = S754_finite s' m' e' -> s' = s.
Proof.
  unfold binary_round_aux.
  destruct (shr_fexp _ _ m e l) as [r1 e1].
  destruct (shr_fexp _ _ _ e1 loc_Exact) as [r2 e2].
  destruct (shr_m r2); try done. destruct (e2 <=? _); [|done].
  by intros [= <- _ _].
Qed.

(** Halving commutes with a multiplication that neither underflows nor
    overflows. *)
Lemma half_mul_assoc sc scale k :
  F32.halvable scale = true ->
  F32.halvable (scale *f k) = true ->
  F32.product_no_underflow scale k = true ->
  S754_finite sc 8388608 (-24) *f (scale *f k) =
  (S754_finite sc 8388608 (-24) *f scale) *f k.
Proof.
  intros Hs Hsk Hprod.
  destruct scale as [| | |ss ms es]; try done.
  destruct k as [| | |sk mk ek]; try done.
  unfold F32.halvable in Hs. unfold F32.product_no_underflow in Hprod.
  apply andb_prop in Hs as [[Hd%Z.eqb_eq Hlo%Z.leb_le]%andb_prop Hhi%Z.leb_le].
  apply Z.leb_le in Hprod.
  destruct (S754_finite ss ms es *f S754_finite sk mk ek) as [| | |s' m' e'] eqn:Hmul;
    try done.
  unfold F32.halvable in Hsk.
  apply andb_prop in Hsk as [[Hd'%Z.eqb_eq Hlo'%Z.leb_le]%andb_prop Hhi'%Z.leb_le].
  rewrite !half_mul by lia.
  unfold F32.mul, SFmul in *.
  pose proof (binary_round_aux_sign _ _ _ _ _ _ _ Hmul) as ->.
  replace (es - 1 + ek) with (es + ek - 1) by lia.
  rewrite (round_aux_shift _ (xorb (xorb sc ss) sk) _ _ _ _ _ Hmul) by done.
  by rewrite xorb_assoc.
Qed.

(** ** Whole calls of the cube and of the arrow *)

Lemma esGenCube_run scale o :
  exists h', esGenCube scale (start o) = (h', Ok 36) /\
    leaves Vertices o (map (fun f => FVal (f *f scale)) cubeVerts) h' /\
    leaves Normals o (map FVal cubeNormals) h' /\
    leaves TexCoords o (map FVal cubeTex) h' /\
    leaves Indices o (map UVal cubeIndices) h' /\
    get_out Colors (outs h') = get_out Colors o.
Proof.
  destruct o as [[|pv] oc [|pn] [|pt] [|pi]];
    eexists; (split; [cbv -[F32.mul]; reflexivity|]); repeat split.
Qed.

Lemma esGenArrow_run scale o :
  exists h', esGenArrow scale (start o) = (h', Ok 12) /\
    leaves Vertices o
      (map (fun f => FVal (f *f scale)) arrowVerts ++ replicate 18 Indet) h' /\
    leaves Colors o (map FVal arrowColors) h' /\
    leaves Indices o (map UVal arrowIndices) h' /\
    get_out Normals (outs h') = get_out Normals o /\
    get_out TexCoords (outs h') = get_out TexCoords o /\
    Forall (fun e => untouched Normals e /\ untouched TexCoords e) (trace h').
Proof.
  destruct o as [[|pv] [|pc] on ot [|pi]];
    eexists; (split; [cbv -[F32.mul]; reflexivity|]);
    (split; [reflexivity|split; [reflexivity|split; [reflexivity|]]]);
    (split; [reflexivity|split; [reflexivity|]]);
    cbv -[F32.mul];
    repeat (constructor; [split; discriminate|]); constructor.
Qed.

(** Every entry of [cubeVerts] is plus or minus one half. *)
Lemma cubeVerts_halves :
  Forall (fun f => exists s, f = S754_finite s 8388608 (-24)) cubeVerts.
Proof. repeat (constructor; [by eexists|]). constructor. Qed.

(** The decimal literals of the source are the nearest binary32 numbers:
    within half a unit in the last place. *)
Lemma ES_PI_nearest :
  Z.abs (13176795 * 10 ^ 8 - 314159265 * 2 ^ 22) * 2 < 10 ^ 8.
Proof. reflexivity. Qed.

Lemma f0_3_nearest : f0_3 = F32.of_int 3 /f F32.of_int 10.
Proof. reflexivity. Qed.

(** ** Reading a finished block *)

Lemma grid_slot_block s len w per f n h :
  grid_slot s len w per f n h -> get_out s (outs h) <> NullArg ->
  exists b, block_of s h = Some b /\ Z.of_nat (length b) = len /\ filled w per f n b.
Proof.
  intros [Hnull | (b & Hb & Hlen & Hfill)] Hreq; [done|].
  exists b. unfold block_of. by rewrite Hb.
Qed.

(** Every cell below [rows * w * per] is the cell [c] of a grid point
    [(i, j)] of the first [rows] rows. *)
Lemma grid_cell_of w per rows k :
  0 < w -> 0 < per -> 0 <= k < rows * w * per ->
  exists i j c, 0 <= i < rows /\ 0 <= j < w /\ 0 <= c < per /\
    k = (i * w + j) * per + c.
Proof.
  intros Hw Hper Hk.
  exists (k / per / w), ((k / per) mod w), (k mod per).
  pose proof (Z.div_mod k per ltac:(lia)) as Hk1.
  pose proof (Z.mod_pos_bound k per Hper) as Hc.
  pose proof (Z.div_mod (k / per) w ltac:(lia)) as Hk2.
  pose proof (Z.mod_pos_bound (k / per) w Hw) as Hj.
  assert (0 <= k / per) by (apply Z.div_pos; lia).
  assert (0 <= k / per / w) by (apply Z.div_pos; lia).
  assert (k / per < rows * w) by (apply Z.div_lt_upper_bound; lia).
  assert (k / per / w < rows) by (apply Z.div_lt_upper_bound; lia).
  lia.
Qed.

Lemma sphere_index_cell_range numSlices numParallels i j c :
  0 <= i < numParallels -> 0 <= j < numSlices -> 0 <= c < 6 ->
  exists v, sphere_index_cell numSlices i j c = UVal v /\
    0 <= v < (numParallels + 1) * (numSlices + 1).
Proof.
  intros Hi Hj Hc. eexists. split; [reflexivity|].
  assert (0 <= i * (numSlices + 1)) by (apply Z.mul_nonneg_nonneg; lia).
  assert ((i + 2) * (numSlices + 1) <= (numParallels + 1) * (numSlices + 1))
    by (apply Z.mul_le_mono_nonneg_r; lia).
  unfold grid_vertex.
  destruct (decide (c = 0)) as [->|]; [lia|].
  destruct (decide (c = 1)) as [->|]; [lia|].
  destruct (decide (c = 2)) as [->|]; [lia|].
  destruct (decide (c = 3)) as [->|]; [lia|].
  destruct (decide (c = 4)) as [->|]; [lia|].
  replace c with 5 by lia. lia.
Qed.

(** A call within the slice bound returns, and leaves the mesh. *)
Lemma esGenSphere_returns sinf cosf numSlices radius o :
  0 <= numSlices <= MAX_SLICES ->
  (get_out Normals o = NullArg \/ get_out Vertices o <> NullArg) ->
  exists h', esGenSphere sinf cosf numSlices radius (start o)
             = (h', Ok (numSlices / 2 * numSlices * 6)) /\
    sphere_mesh sinf cosf o numSlices radius (numSlices / 2 * numSlices * 6) h'.
Proof.
  intros Hs Hwf.
  destruct (wp_no_err_run _ _ _ (esGenSphere_mesh sinf cosf numSlices radius o Hs Hwf))
    as (h' & n & Hrun & Hmesh).
  assert (n = numSlices / 2 * numSlices * 6) as -> by apply Hmesh.
  by exists h'.
Qed.

(** The index computation overflows [int] at 26756 slices, whatever the
    C library and the arguments are. *)
Lemma esGenSphere_overflow sinf cosf radius h :
  esGenSphere sinf cosf 26756 radius h = (h, Err SignedOverflow).
Proof. reflexivity. Qed.

(** * The claims *)

(** C1, as stated, fails: at 26756 slices the index count
    [13378 * 26756 * 6 = 2147650608] does not fit an [int], and the call
    stops on the overflow instead of returning it; and a call that asks for
    normals without vertices stops on the NULL vertex argument. *)
Lemma esGenSphere_counts_counterexample :
  26756 / 2 * 26756 * 6 > INT_MAX /\
  snd (esGenSphere sinf_quadrant cosf_quadrant 26756 F32.one
         (start (indices_alone None))) = Err SignedOverflow /\
  snd (esGenSphere sinf_quadrant cosf_quadrant 4 F32.one
         (start (mkOutputs NullArg NullArg fresh NullArg fresh)))
    = Err (NullDeref Vertices).
Proof. split; [reflexivity|]. split; reflexivity. Qed.

(** C1, amended: for every slice count from 4 to 26755 and every call that
    does not ask for normals without vertices, [esGenSphere] returns
    [indexCount = (slices/2) * slices * 6]; each block it was asked for has
    [vertexCount = (slices/2 + 1) * (slices + 1)] vertices (3 cells a vertex
    for positions and normals, 2 for texture coordinates); and the index
    block has exactly [indexCount] cells, each an index strictly less than
    [vertexCount]. *)
Theorem esGenSphere_counts sinf cosf numSlices radius o :
  4 <= numSlices <= MAX_SLICES ->
  (get_out Normals o = NullArg \/ get_out Vertices o <> NullArg) ->
  let vertexCount := (numSlices / 2 + 1) * (numSlices + 1) in
  let indexCount := numSlices / 2 * numSlices * 6 in
  exists h',
    esGenSphere sinf cosf numSlices radius (start o) = (h', Ok indexCount) /\
    (get_out Vertices o <> NullArg ->
     exists b, block_of Vertices h' = Some b /\ Z.of_nat (length b) = 3 * vertexCount) /\
    (get_out Normals o <> NullArg ->
     exists b, block_of Normals h' = Some b /\ Z.of_nat (length b) = 3 * vertexCount) /\
    (get_out TexCoords o <> NullArg ->
     exists b, block_of TexCoords h' = Some b /\ Z.of_nat (length b) = 2 * vertexCount) /\
    (get_out Indices o <> NullArg ->
     exists b, block_of Indices h' = Some b /\ Z.of_nat (length b) = indexCount /\
       forall k, 0 <= k < indexCount ->
         exists v, cellZ b k = Some (UVal v) /\ 0 <= v < vertexCount).
Proof.
  intros Hs Hwf vertexCount indexCount.
  destruct (esGenSphere_returns sinf cosf numSlices radius o ltac:(lia) Hwf)
    as (h' & Hrun & _ & HV & HN & HT & HI & _ & Hnull).
  exists h'. split; [exact Hrun|].
  split; [|split; [|split]].
  - intros Hreq. rewrite <- Hnull in Hreq.
    destruct (grid_slot_block _ _ _ _ _ _ _ HV Hreq) as (b & Hb & Hlen & _). eauto.
  - intros Hreq. rewrite <- Hnull in Hreq.
    destruct (grid_slot_block _ _ _ _ _ _ _ HN Hreq) as (b & Hb & Hlen & _). eauto.
  - intros Hreq. rewrite <- Hnull in Hreq.
    destruct (grid_slot_block _ _ _ _ _ _ _ HT Hreq) as (b & Hb & Hlen & _). eauto.
  - intros Hreq. rewrite <- Hnull in Hreq.
    destruct (grid_slot_block _ _ _ _ _ _ _ HI Hreq) as (b & Hb & Hlen & Hfill).
    exists b. split; [done|]. split; [done|]. intros k Hk.
    destruct (grid_cell_of numSlices 6 (numSlices / 2) k) as (i & j & c & Hi & Hj & Hc & ->);
      [lia..|].
    destruct (sphere_index_cell_range numSlices (numSlices / 2) i j c Hi Hj Hc)
      as (v & Hv & Hrange).
    exists v. split; [|exact Hrange].
    rewrite <- Hv. apply Hfill; lia.
Qed.

(** C1, amended, at 4 slices with positions and indices asked for. *)
Lemma esGenSphere_counts_witness :
  exists h', esGenSphere sinf_quadrant cosf_quadrant 4 F32.one
               (start (mkOutputs fresh NullArg NullArg NullArg fresh))
             = (h', Ok 48).
Proof.
  destruct (esGenSphere_counts sinf_quadrant cosf_quadrant 4 F32.one
              (mkOutputs fresh NullArg NullArg NullArg fresh))
    as (h' & Hrun & _).
  - unfold MAX_SLICES. lia.
  - left. reflexivity.
  - exists h'. exact Hrun.
Defined.

(** C2, as stated, fails: the call returns 48 indices, not 24 (2 rows of 4
    grid cells, 6 indices a cell), and stores 48. *)
Lemma esGenSphere_4_counterexample :
  let run := esGenSphere sinf_quadrant cosf_quadrant 4 F32.one
               (start positions_and_indices) in
  snd run = Ok 48 /\ snd run <> Ok 24 /\
  exists b, block_of Indices (fst run) = Some b /\ length b = 48%nat.
Proof.
  vm_compute. split; [reflexivity|]. split; [discriminate|].
  eexists. split; reflexivity.
Qed.

(** C2, amended: with a C library for which [sinf(0) = 0] and
    [cosf(0) = 1], the call [esGenSphere(4, 1.0, positions, null, null,
    indices)] produces exactly 15 vertices (45 position cells) and 48
    indices, the first vertex is [(0, 1, 0)], and the two NULL arguments
    stay NULL. *)
Theorem esGenSphere_4 sinf cosf :
  sinf F32.zero = F32.zero ->
  cosf F32.zero = F32.one ->
  exists h' bv bi,
    esGenSphere sinf cosf 4 F32.one (start positions_and_indices) = (h', Ok 48) /\
    block_of Vertices h' = Some bv /\ length bv = (15 * 3)%nat /\
    block_of Indices h' = Some bi /\ length bi = 48%nat /\
    cellZ bv 0 = Some (FVal F32.zero) /\
    cellZ bv 1 = Some (FVal F32.one) /\
    cellZ bv 2 = Some (FVal F32.zero) /\
    get_out Normals (outs h') = NullArg /\
    get_out TexCoords (outs h') = NullArg.
Proof.
  intros Hsin Hcos.
  destruct (esGenSphere_returns sinf cosf 4 F32.one positions_and_indices)
    as (h' & Hrun & _ & HV & _ & _ & HI & _ & Hnull).
  { unfold MAX_SLICES. lia. }
  { by left. }
  destruct (grid_slot_block _ _ _ _ _ _ _ HV) as (bv & Hbv & Hlenv & Hfill).
  { by rewrite Hnull. }
  destruct (grid_slot_block _ _ _ _ _ _ _ HI) as (bi & Hbi & Hleni & _).
  { by rewrite Hnull. }
  exists h', bv, bi. split; [exact Hrun|].
  split; [done|]. split; [change (4 / 2) with 2 in Hlenv; lia|].
  split; [done|]. split; [change (4 / 2) with 2 in Hleni; lia|].
  assert (forall c, 0 <= c < 3 ->
            cellZ bv c = Some (sphere_pos_cell sinf cosf F32.one (sphere_angleStep 4) 0 0 c))
    as Hcell.
  { intros c Hc. apply (Hfill 0 0 c); [lia..|]. change (4 / 2) with 2. lia. }
  assert (sphere_angleStep 4 *f F32.of_int 0 = F32.zero) as Hangle by reflexivity.
  split; [|split; [|split; [|split; by apply Hnull]]].
  - rewrite (Hcell 0) by lia. unfold sphere_pos_cell, sphere_x. cbv beta iota.
    rewrite Hangle, Hsin. reflexivity.
  - rewrite (Hcell 1) by lia. unfold sphere_pos_cell, sphere_y. cbv beta iota.
    rewrite Hangle, Hcos. reflexivity.
  - rewrite (Hcell 2) by lia. unfold sphere_pos_cell, sphere_z. cbv beta iota.
    rewrite Hangle, Hsin, Hcos. reflexivity.
Qed.

(** C2, amended, with the correctly rounded sine and cosine. *)
Lemma esGenSphere_4_witness :
  sinf_quadrant F32.zero = F32.zero /\
  cosf_quadrant F32.zero = F32.one /\
  exists h', esGenSphere sinf_quadrant cosf_quadrant 4 F32.one
               (start positions_and_indices) = (h', Ok 48).
Proof.
  split; [reflexivity|]. split; [reflexivity|].
  destruct (esGenSphere_4 sinf_quadrant cosf_quadrant eq_refl eq_refl)
    as (h' & bv & bi & Hrun & _).
  exists h'. exact Hrun.
Defined.

(** C3: what the code does where the claim asks for 12 complete vertices.
    For every scale the call returns 12 and fills 12 colors (four groups of
    three, one color a group) and 12 indices, but [arrowVerts] holds 6
    vertices only: of the 36 position cells the last 18 are never written
    and stay indeterminate. *)
Theorem esGenArrow_half_written scale :
  exists h' bv,
    esGenArrow scale (start positions_colors_indices) = (h', Ok 12) /\
    block_of Vertices h' = Some bv /\ length bv = (12 * 3)%nat /\
    length arrowVerts = (6 * 3)%nat /\
    take 18 bv = map (fun f => FVal (f *f scale)) arrowVerts /\
    drop 18 bv = replicate 18 Indet /\
    block_of Colors h' =
      Some (map FVal (concat (map (fun c => c ++ c ++ c)
                                [ARROW_C1; ARROW_C2; ARROW_C3; ARROW_C1]))) /\
    block_of Indices h' = Some (map UVal arrowIndices) /\
    length arrowIndices = 12%nat.
Proof.
  destruct (esGenArrow_run scale positions_colors_indices)
    as (h' & Hrun & HV & HC & HI & _).
  unfold leaves in HV, HC, HI. cbn in HV, HC, HI.
  eexists h', _. split; [exact Hrun|].
  unfold block_of; cbn. rewrite HV, HC, HI.
  split; [reflexivity|]. repeat split.
Qed.

(** C8: the call [esGenCube(2.0, positions, null, null, indices)] returns
    and leaves [(-1.0, -1.0, -1.0)] in [positions[0..2]] and [(0, 2, 1)] in
    [indices[0..2]]. *)
Theorem esGenCube_2 :
  exists h' bv bi,
    esGenCube F32.two (start positions_and_indices) = (h', Ok 36) /\
    block_of Vertices h' = Some bv /\ block_of Indices h' = Some bi /\
    cellZ bv 0 = Some (FVal neg_one) /\
    cellZ bv 1 = Some (FVal neg_one) /\
    cellZ bv 2 = Some (FVal neg_one) /\
    cellZ bi 0 = Some (UVal 0) /\
    cellZ bi 1 = Some (UVal 2) /\
    cellZ bi 2 = Some (UVal 1).
Proof.
  destruct (esGenCube_run F32.two positions_and_indices)
    as (h' & Hrun & HV & _ & _ & HI & _).
  unfold leaves in HV, HI. cbn in HV, HI.
  eexists h', _, _. split; [exact Hrun|].
  unfold block_of; cbn. rewrite HV, HI.
  split; [reflexivity|]. split; [reflexivity|].
  vm_compute. repeat split.
Qed.

(** C10: for every scale and whatever the five arguments are,
    [esGenArrow] returns 12, never allocates, reads or writes through its
    normal and texture-coordinate arguments, and leaves both as the caller
    passed them. *)
Theorem esGenArrow_frame scale o :
  exists h',
    esGenArrow scale (start o) = (h', Ok 12) /\
    get_out Normals (outs h') = get_out Normals o /\
    get_out TexCoords (outs h') = get_out TexCoords o /\
    Forall (fun e => untouched Normals e /\ untouched TexCoords e) (trace h').
Proof.
  destruct (esGenArrow_run scale o) as (h' & Hrun & _ & _ & _ & HN & HT & Htr).
  by exists h'.
Qed.

(** C4, as stated, fails in binary32.  With [scale = 2^-149] and [k = 3]
    the first position for [scale * k] is [-2^-148], while the first
    position for [scale] is [-0], and [-0 * 3 = -0].  With [scale = 2^127]
    and [k = 2] the first position for [scale * k] is minus infinity, while
    the first position for [scale] is [-2^126], and twice that is
    [-2^127]. *)
Lemma esGenCube_scaling_counterexample :
  (F32.pos tiny = true /\
   cube_position tiny 0 = Some (FVal (S754_zero true)) /\
   cube_position (tiny *f three) 0 = Some (FVal (S754_finite true 2 (-149))) /\
   S754_zero true *f three <> S754_finite true 2 (-149)) /\
  (F32.pos huge = true /\
   cube_position huge 0 = Some (FVal (S754_finite true 8388608 103)) /\
   cube_position (huge *f F32.two) 0 = Some (FVal (S754_infinity true)) /\
   S754_finite true 8388608 103 *f F32.two <> S754_infinity true).
Proof.
  split; (split; [reflexivity|]); (split; [vm_compute; reflexivity|]);
    (split; [vm_compute; reflexivity|]); vm_compute; discriminate.
Qed.

(** Cell [i] of a table copied into a block and mapped by [g]. *)
Lemma cellZ_map {A} (g : A -> cell) (l : list A) i :
  0 <= i < Z.of_nat (length l) ->
  exists a, l !! Z.to_nat i = Some a /\ cellZ (map g l) i = Some (g a).
Proof.
  intros Hi. destruct (lookup_lt_is_Some_2 l (Z.to_nat i) ltac:(lia)) as [a Ha].
  exists a. split; [exact Ha|]. unfold cellZ. by rewrite list_lookup_fmap, Ha.
Qed.

(** C4, amended: for every scale and every set of arguments [esGenCube]
    returns 36 over a 24-vertex mesh (72 position cells, 72 normal cells,
    48 texture cells, 36 indices), every cell of every block a number the
    call has written, and the normals and the texture coordinates
    generated for [scale * k] are those generated for [scale].  Every
    position component generated for [scale] is a number [p], plus or minus
    one half times [scale], the one generated for [scale * k] a number
    [pk], the same half times [scale * k], and [pk = p * k] whenever
    [scale] and [scale * k] are normal binary32 numbers of magnitude at
    least [2^-125] and the exact product of [scale] and [k] is at least
    [2^-125] in magnitude (no underflow, no overflow, no NaN). *)
Theorem esGenCube_scaling scale k o :
  exists h1 hk,
    esGenCube scale (start o) = (h1, Ok 36) /\
    esGenCube (scale *f k) (start o) = (hk, Ok 36) /\
    get_out Normals (outs hk) = get_out Normals (outs h1) /\
    get_out TexCoords (outs hk) = get_out TexCoords (outs h1) /\
    (get_out Normals o <> NullArg ->
     exists b, block_of Normals h1 = Some b /\ length b = (24 * 3)%nat /\
       forall i, 0 <= i < 24 * 3 -> exists n, cellZ b i = Some (FVal n)) /\
    (get_out TexCoords o <> NullArg ->
     exists b, block_of TexCoords h1 = Some b /\ length b = (24 * 2)%nat /\
       forall i, 0 <= i < 24 * 2 -> exists t, cellZ b i = Some (FVal t)) /\
    (get_out Indices o <> NullArg ->
     exists b, block_of Indices h1 = Some b /\ length b = 36%nat /\
       forall i, 0 <= i < 36 -> exists v, cellZ b i = Some (UVal v)) /\
    (get_out Vertices o <> NullArg ->
     exists b1 bk,
       block_of Vertices h1 = Some b1 /\ block_of Vertices hk = Some bk /\
       length b1 = (24 * 3)%nat /\ length bk = (24 * 3)%nat /\
       forall i, 0 <= i < 24 * 3 ->
         exists p pk,
           cellZ b1 i = Some (FVal p) /\ cellZ bk i = Some (FVal pk) /\
           (exists sg, p = S754_finite sg 8388608 (-24) *f scale /\
                       pk = S754_finite sg 8388608 (-24) *f (scale *f k)) /\
           (F32.halvable scale = true ->
            F32.halvable (scale *f k) = true ->
            F32.product_no_underflow scale k = true ->
            pk = p *f k)).
Proof.
  destruct (esGenCube_run scale o) as (h1 & Hrun1 & HV1 & HN1 & HT1 & HI1 & _).
  destruct (esGenCube_run (scale *f k) o) as (hk & Hrunk & HVk & HNk & HTk & _).
  exists h1, hk. split; [exact Hrun1|]. split; [exact Hrunk|].
  unfold leaves, block_of in *.
  split; [destruct (get_out Normals o); congruence|].
  split; [destruct (get_out TexCoords o); congruence|].
  split; [|split; [|split]].
  - intros Hreq. destruct (get_out Normals o); [done|].
    rewrite HN1. eexists. split; [reflexivity|]. split; [reflexivity|].
    intros i Hi. destruct (cellZ_map FVal cubeNormals i Hi) as (n & _ & Hc). eauto.
  - intros Hreq. destruct (get_out TexCoords o); [done|].
    rewrite HT1. eexists. split; [reflexivity|]. split; [reflexivity|].
    intros i Hi. destruct (cellZ_map FVal cubeTex i Hi) as (t & _ & Hc). eauto.
  - intros Hreq. destruct (get_out Indices o); [done|].
    rewrite HI1. eexists. split; [reflexivity|]. split; [reflexivity|].
    intros i Hi. destruct (cellZ_map UVal cubeIndices i Hi) as (v & _ & Hc). eauto.
  - intros Hreq. destruct (get_out Vertices o); [done|].
    rewrite HV1, HVk. eexists _, _. split; [reflexivity|]. split; [reflexivity|].
    split; [reflexivity|]. split; [reflexivity|].
    intros i Hi.
    destruct (cellZ_map (fun f => FVal (f *f scale)) cubeVerts i Hi) as (f & Hf & H1).
    destruct (cellZ_map (fun f => FVal (f *f (scale *f k))) cubeVerts i Hi)
      as (f' & Hf' & Hk).
    assert (f' = f) as -> by congruence.
    exists (f *f scale), (f *f (scale *f k)).
    split; [exact H1|]. split; [exact Hk|].
    destruct (proj1 (Forall_lookup _ _) cubeVerts_halves _ _ Hf) as [sg ->].
    split; [by exists sg|].
    intros Hs Hsk Hp. by apply half_mul_assoc.
Qed.

(** C4, amended, at [scale = 1.0] and [k = 3.0] with positions asked for:
    the first component. *)
Lemma esGenCube_scaling_witness :
  exists b1 bk,
    block_of Vertices (fst (esGenCube F32.one (start positions_alone))) = Some b1 /\
    block_of Vertices (fst (esGenCube (F32.one *f three) (start positions_alone)))
      = Some bk /\
    exists p pk,
      cellZ b1 0 = Some (FVal p) /\ cellZ bk 0 = Some (FVal pk) /\ pk = p *f three.
Proof.
  destruct (esGenCube_scaling F32.one three positions_alone)
    as (h1 & hk & Hrun1 & Hrunk & _ & _ & _ & _ & _ & HV).
  destruct HV as (b1 & bk & Hb1 & Hbk & _ & _ & Hscale); [discriminate|].
  exists b1, bk. rewrite Hrun1, Hrunk.
  split; [exact Hb1|]. split; [exact Hbk|].
  destruct (Hscale 0) as (p & pk & Hp & Hpk & _ & Heq); [lia|].
  exists p, pk. split; [exact Hp|]. split; [exact Hpk|].
  apply Heq; reflexivity.
Defined.

(** C5, as stated, fails three ways.  A call that asks for normals alone
    reads through the NULL vertex argument.  At 26756 slices the index
    count overflows [int].  And the round trip is not exact in binary32: at
    4 slices and radius 3.0, the z of grid vertex [(2, 1)] (cell 35) is
    [p = 13534435 * 2^-70], the normal stored is [p / 3 = 9022957 * 2^-71],
    and that normal times 3 is [13534436 * 2^-70]. *)
Lemma esGenSphere_normals_counterexample :
  snd (esGenSphere sinf_quadrant cosf_quadrant 4 F32.one (start normals_alone))
    = Err (NullDeref Vertices) /\
  snd (esGenSphere sinf_quadrant cosf_quadrant 26756 F32.one
         (start positions_and_normals)) = Err SignedOverflow /\
  (F32.pos three = true /\
   sphere_3_cell Vertices 35 = Some (FVal (S754_finite false 13534435 (-70))) /\
   sphere_3_cell Normals 35 = Some (FVal (S754_finite false 9022957 (-71))) /\
   S754_finite false 9022957 (-71) *f three = S754_finite false 13534436 (-70)).
Proof.
  split; [reflexivity|]. split; [reflexivity|].
  split; [reflexivity|]. split; [vm_compute; reflexivity|].
  split; vm_compute; reflexivity.
Qed.

(** C5, amended: for every slice count from 4 to 26755 and every radius,
    when [esGenSphere] is asked for both positions and normals it returns,
    both blocks have 3 cells for each of the [(slices/2 + 1) * (slices + 1)]
    vertices, and every normal cell is the binary32 quotient of the position
    cell of the same place by [radius].  (That the normal times [radius]
    gives the position back is not part of the amended claim.) *)
Theorem esGenSphere_normals sinf cosf numSlices radius o :
  4 <= numSlices <= MAX_SLICES ->
  get_out Vertices o <> NullArg ->
  get_out Normals o <> NullArg ->
  let vertexCount := (numSlices / 2 + 1) * (numSlices + 1) in
  exists h' bv bn,
    esGenSphere sinf cosf numSlices radius (start o)
      = (h', Ok (numSlices / 2 * numSlices * 6)) /\
    block_of Vertices h' = Some bv /\ Z.of_nat (length bv) = 3 * vertexCount /\
    block_of Normals h' = Some bn /\ Z.of_nat (length bn) = 3 * vertexCount /\
    forall k, 0 <= k < 3 * vertexCount ->
      exists p, cellZ bv k = Some (FVal p) /\ cellZ bn k = Some (FVal (p /f radius)).
Proof.
  intros Hs HreqV HreqN vertexCount.
  destruct (esGenSphere_returns sinf cosf numSlices radius o ltac:(lia) (or_intror HreqV))
    as (h' & Hrun & _ & HV & HN & _ & _ & _ & Hnull).
  rewrite <- Hnull in HreqV, HreqN.
  destruct (grid_slot_block _ _ _ _ _ _ _ HV HreqV) as (bv & Hbv & Hlenv & Hfillv).
  destruct (grid_slot_block _ _ _ _ _ _ _ HN HreqN) as (bn & Hbn & Hlenn & Hfilln).
  exists h', bv, bn. repeat (split; [done|]).
  intros k Hk.
  destruct (grid_cell_of (numSlices + 1) 3 (numSlices / 2 + 1) k)
    as (i & j & c & Hi & Hj & Hc & ->); [lia..|].
  eexists. split.
  - apply Hfillv; [lia..|]. fold vertexCount. lia.
  - rewrite Hfilln; [reflexivity|lia..|]. fold vertexCount. lia.
Qed.

(** C5, amended, at 4 slices and radius 3.0. *)
Lemma esGenSphere_normals_witness :
  exists h' bv bn,
    esGenSphere sinf_quadrant cosf_quadrant 4 three (start positions_and_normals)
      = (h', Ok 48) /\
    block_of Vertices h' = Some bv /\ block_of Normals h' = Some bn /\
    exists p, cellZ bv 35 = Some (FVal p) /\ cellZ bn 35 = Some (FVal (p /f three)).
Proof.
  destruct (esGenSphere_normals sinf_quadrant cosf_quadrant 4 three
              positions_and_normals)
    as (h' & bv & bn & Hrun & Hbv & _ & Hbn & _ & Hcells).
  - unfold MAX_SLICES. lia.
  - discriminate.
  - discriminate.
  - exists h', bv, bn. split; [exact Hrun|]. split; [exact Hbv|].
    split; [exact Hbn|]. apply Hcells. change (4 / 2) with 2. lia.
Defined.

(** C6, as stated, fails: at 26756 slices the index count does not fit an
    [int] and the call stops on the overflow with no index written. *)
Lemma esGenSphere_triangles_counterexample :
  let run := esGenSphere sinf_quadrant cosf_quadrant 26756 F32.one
               (start (indices_alone None)) in
  snd run = Err SignedOverflow /\ block_of Indices (fst run) = None.
Proof. split; reflexivity. Qed.

(** C6, amended: for every slice count from 4 to 26755, when [esGenSphere]
    is asked for indices (and not for normals without vertices), the index
    block has [(slices/2) * slices * 6] cells and holds, for each grid cell
    [(i, j)] with [0 <= i < slices/2] and [0 <= j < slices], at the six
    places from [(i * slices + j) * 6] on, the row-major numbers of the
    grid vertices (i,j), (i+1,j), (i+1,j+1), (i,j), (i+1,j+1), (i,j+1), in
    that order. *)
Theorem esGenSphere_triangles sinf cosf numSlices radius o :
  4 <= numSlices <= MAX_SLICES ->
  (get_out Normals o = NullArg \/ get_out Vertices o <> NullArg) ->
  get_out Indices o <> NullArg ->
  exists h' b,
    esGenSphere sinf cosf numSlices radius (start o)
      = (h', Ok (numSlices / 2 * numSlices * 6)) /\
    block_of Indices h' = Some b /\
    Z.of_nat (length b) = numSlices / 2 * numSlices * 6 /\
    forall i j, 0 <= i < numSlices / 2 -> 0 <= j < numSlices ->
      let at_ (c : Z) := cellZ b ((i * numSlices + j) * 6 + c) in
      at_ 0 = Some (UVal (grid_vertex numSlices i j)) /\
      at_ 1 = Some (UVal (grid_vertex numSlices (i + 1) j)) /\
      at_ 2 = Some (UVal (grid_vertex numSlices (i + 1) (j + 1))) /\
      at_ 3 = Some (UVal (grid_vertex numSlices i j)) /\
      at_ 4 = Some (UVal (grid_vertex numSlices (i + 1) (j + 1))) /\
      at_ 5 = Some (UVal (grid_vertex numSlices i (j + 1))).
Proof.
  intros Hs Hwf Hreq.
  destruct (esGenSphere_returns sinf cosf numSlices radius o ltac:(lia) Hwf)
    as (h' & Hrun & _ & _ & _ & _ & HI & _ & Hnull).
  rewrite <- Hnull in Hreq.
  destruct (grid_slot_block _ _ _ _ _ _ _ HI Hreq) as (b & Hb & Hlen & Hfill).
  exists h', b. repeat (split; [done|]).
  intros i j Hi Hj at_.
  assert ((i + 1) * numSlices <= numSlices / 2 * numSlices)
    by (apply Z.mul_le_mono_nonneg_r; lia).
  assert (forall c, 0 <= c < 6 -> at_ c = Some (sphere_index_cell numSlices i j c))
    as Hcell by (intros c Hc; apply Hfill; lia).
  repeat split; by rewrite Hcell by lia.
Qed.

(** C6, amended, at 4 slices with the index argument alone. *)
Lemma esGenSphere_triangles_witness :
  exists h' b,
    esGenSphere sinf_quadrant cosf_quadrant 4 F32.one (start (indices_alone None))
      = (h', Ok 48) /\
    block_of Indices h' = Some b /\
    cellZ b 6 = Some (UVal 1) /\ cellZ b 7 = Some (UVal 6) /\
    cellZ b 8 = Some (UVal 7) /\ cellZ b 9 = Some (UVal 1) /\
    cellZ b 10 = Some (UVal 7) /\ cellZ b 11 = Some (UVal 2).
Proof.
  destruct (esGenSphere_triangles sinf_quadrant cosf_quadrant 4 F32.one
              (indices_alone None))
    as (h' & b & Hrun & Hb & _ & Hcells).
  - unfold MAX_SLICES. lia.
  - left. reflexivity.
  - discriminate.
  - exists h', b. split; [exact Hrun|]. split; [exact Hb|].
    apply (Hcells 0 1); [change (4 / 2) with 2|]; lia.
Defined.

Lemma keeps_run nul okev okerr {A} (m : M A) o :
  keeps nul okev okerr m ->
  (forall s, nul s -> get_out s o = NullArg) ->
  disciplined nul okev (fst (m (start o))) /\
  forall e, snd (m (start o)) = Err e -> okerr e.
Proof.
  intros Hm Hnul.
  assert (disciplined nul okev (start o)) as Hstart by (split; [done|constructor]).
  specialize (Hm _ Hstart). unfold wp in Hm.
  destruct (m (start o)) as [h' [a|e]]; cbn.
  - split; [done|]. intros e [=].
  - destruct Hm as [Hd He]. split; [done|]. by intros e' [= <-].
Qed.

(** C7: for each of [esGenSphere], [esGenCube] and [esGenArrow], for every
    shape parameter and whatever the caller's index pointer held, a call
    that passes the index argument alone leaves the other arguments NULL,
    goes through no argument but the index one (every allocation, read and
    write of the trace is on it), and cannot stop on an access through
    another argument. *)
Theorem indices_alone_frame sinf cosf numSlices radius scale p :
  touches_indices_only
    (esGenSphere sinf cosf numSlices radius (start (indices_alone p))) /\
  touches_indices_only (esGenCube scale (start (indices_alone p))) /\
  touches_indices_only (esGenArrow scale (start (indices_alone p))).
Proof.
  split; [|split].
  - destruct (keeps_run only_indices on_indices about_indices
                (esGenSphere sinf cosf numSlices radius) (indices_alone p))
      as [[Hnul Htr] Herr].
    + apply esGenSphere_only_indices.
    + intros s Hs. by destruct s.
    + by split.
  - unfold touches_indices_only. cbv -[F32.mul about_indices].
    split; [intros s Hs; by destruct s|].
    split; [|intros e; discriminate].
    repeat (constructor; [reflexivity|]). constructor.
  - unfold touches_indices_only. cbv -[F32.mul about_indices].
    split; [intros s Hs; by destruct s|].
    split; [|intros e; discriminate].
    repeat (constructor; [reflexivity|]). constructor.
Qed.

(** With a NULL vertex argument and normals asked for, the first grid
    vertex already reads through NULL. *)
Lemma esGenSphere_null_vertices sinf cosf numSlices radius o :
  0 <= numSlices <= MAX_SLICES ->
  get_out Vertices o = NullArg ->
  get_out Normals o <> NullArg ->
  wp (esGenSphere sinf cosf numSlices radius)
     (fun _ _ => False) (fun e _ => e = NullDeref Vertices) (start o).
Proof.
  intros Hs HV HN.
  destruct (sphere_counts_fit numSlices Hs) as (HP & HVfit & HPS & HI).
  unfold esGenSphere, idiv. change (2 =? 0) with false. cbv iota.
  rewrite Z.quot_div_nonneg by lia.
  set (numParallels := numSlices / 2) in *.
  set (numVertices := (numParallels + 1) * (numSlices + 1)) in *.
  assert (0 <= numVertices) by (apply Z.mul_nonneg_nonneg; lia).
  assert (numParallels <= numVertices /\ numSlices + 1 <= numVertices) as [? ?].
  { unfold numVertices. split; nia. }
  do 6 wp_int. fold numVertices.
  apply wp_bind.
  apply (wp_malloc_if _ _ 1 1 (fun _ _ _ => Indet)); [lia|].
  intros h1 _ N1 F1. cbn beta.
  apply wp_bind.
  apply (wp_malloc_if _ _ 1 1 (fun _ _ _ => Indet)); [lia|].
  intros h2 _ N2 F2. cbn beta.
  apply wp_bind.
  apply (wp_malloc_if _ _ 1 1 (fun _ _ _ => Indet)); [lia|].
  intros h3 _ N3 F3. cbn beta.
  apply wp_bind.
  apply (wp_malloc_if _ _ 1 1 (fun _ _ _ => Indet)); [lia|].
  intros h4 _ N4 F4. cbn beta.
  assert (get_out Vertices (outs h4) = NullArg) as HV4.
  { rewrite F4, F3, F2 by done. by apply N1. }
  assert (get_out Normals (outs h4) <> NullArg) as HN4.
  { rewrite F4, F3, N2, F1 by done. exact HN. }
  wp_int. apply wp_bind.
  apply wp_for_lt_first; [lia|]. wp_int.
  apply wp_for_lt_first; [lia|].
  unfold sphere_vertex_body. do 4 wp_int.
  apply wp_bind. unfold sphere_write_position. wp_req HV4. apply wp_ret.
  apply wp_bind. unfold sphere_write_normal.
  apply wp_bind, wp_requested.
  destruct (get_out Normals (outs h4)) as [|pn]; [done|]. cbn [when].
  wp_int. apply wp_bind. by apply wp_load_null.
Qed.

(** C9: in [esGenSphere] the normals are read back from the vertex block.
    For every call with normals asked for and the vertex argument NULL, no
    normal cell is ever written, whatever the slice count; and when the
    slice count is from 0 to 26755, so that the loops are entered, the
    call stops on the read through the NULL vertex argument. *)
Theorem esGenSphere_normals_need_vertices sinf cosf numSlices radius o :
  get_out Vertices o = NullArg ->
  get_out Normals o <> NullArg ->
  let run := esGenSphere sinf cosf numSlices radius (start o) in
  Forall not_normal_store (trace (fst run)) /\
  (0 <= numSlices <= MAX_SLICES -> snd run = Err (NullDeref Vertices)).
Proof.
  intros HV HN run. split.
  - destruct (keeps_run no_vertices not_normal_store any_error
                (esGenSphere sinf cosf numSlices radius) o) as [[_ Htr] _].
    + apply esGenSphere_no_vertices.
    + by intros s ->.
    + exact Htr.
  - intros Hs.
    pose proof (esGenSphere_null_vertices sinf cosf numSlices radius o Hs HV HN) as Hwp.
    unfold wp in Hwp. subst run.
    destruct (esGenSphere sinf cosf numSlices radius (start o)) as [h' [a|e]];
      [done|]. cbn. by rewrite Hwp.
Qed.

(** C9 at 4 slices with the normal argument alone. *)
Lemma esGenSphere_normals_need_vertices_witness :
  snd (esGenSphere sinf_quadrant cosf_quadrant 4 F32.one (start normals_alone))
    = Err (NullDeref Vertices).
Proof.
  destruct (esGenSphere_normals_need_vertices sinf_quadrant cosf_quadrant 4 F32.one
              normals_alone) as [_ Herr].
  - reflexivity.
  - discriminate.
  - apply Herr. unfold MAX_SLICES. lia.
Defined.

(** * Beyond the claims *)

(** ** Slice counts out of range *)

Lemma for_lt_empty {L} lo hi (body : Z -> L -> M L) acc :
  hi <= lo -> for_lt lo hi body acc = ret acc.
Proof.
  intros Hle. unfold for_lt. replace (Z.to_nat (hi - lo)) with 0%nat by lia. done.
Qed.

Lemma wp_malloc_out s n Q E h :
  0 <= n ->
  (forall h', outs h' = malloc_out s n (outs h) ->
     (Forall is_alloc (trace h) -> Forall is_alloc (trace h')) -> Q tt h') ->
  wp (malloc_if_requested s n) Q E h.
Proof.
  intros Hn HQ. unfold malloc_if_requested.
  apply wp_bind, wp_requested.
  destruct (get_out s (outs h)) as [|p] eqn:Hs; cbn [when].
  - apply wp_ret. apply HQ; [|done]. unfold malloc_out. by rewrite Hs.
  - eapply wp_alloc; [done..|]. apply HQ.
    + unfold malloc_out. by rewrite Hs.
    + intros Htr. cbn. by constructor.
Qed.

(** From [-26755] to [-1] slices no count overflows. *)
Lemma sphere_counts_fit_neg numSlices :
  - MAX_SLICES <= numSlices < 0 ->
  let numParallels := Z.quot numSlices 2 in
  -13377 <= numParallels <= 0 /\
  0 <= (numParallels + 1) * (numSlices + 1) /\
  3 * ((numParallels + 1) * (numSlices + 1)) <= INT_MAX /\
  0 <= numParallels * numSlices /\
  numParallels * numSlices * 6 <= INT_MAX.
Proof.
  intros Hs numParallels. unfold MAX_SLICES, INT_MAX in *.
  assert (-13377 <= numParallels <= 0) as Hp.
  { unfold numParallels. pose proof (Z.quot_opp_l (- numSlices) 2 ltac:(lia)) as Hq.
    rewrite Z.opp_involutive in Hq. rewrite Hq.
    rewrite Z.quot_div_nonneg by lia. Z.div_mod_to_equations. lia. }
  assert (numSlices = -1 \/ numParallels + 1 <= 0) as Hcase.
  { unfold numParallels in *.
    pose proof (Z.quot_opp_l (- numSlices) 2 ltac:(lia)) as Hq.
    rewrite Z.opp_involutive in Hq. rewrite Hq in *.
    rewrite Z.quot_div_nonneg in * by lia. Z.div_mod_to_equations. lia. }
  assert (0 <= (numParallels + 1) * (numSlices + 1)).
  { destruct Hcase as [->|Hc]; [lia|]. apply Z.mul_nonpos_nonpos; lia. }
  assert ((- (numParallels + 1)) * (- (numSlices + 1)) <= 13376 * 26754 \/ numSlices = -1)
    as Hb.
  { destruct Hcase as [->|Hc]; [by right|left].
    apply Z.mul_le_mono_nonneg; lia. }
  assert (0 <= numParallels * numSlices) by (apply Z.mul_nonpos_nonpos; lia).
  assert ((- numParallels) * (- numSlices) <= 13377 * 26755)
    by (apply Z.mul_le_mono_nonneg; lia).
  split; [done|]. split; [done|]. split; [|split; [done|lia]].
  destruct Hb as [Hb| ->]; lia.
Qed.

Lemma wp_no_err_run_eq {A} (m : M A) (a : A) (P : heap -> Prop) h :
  wp m (fun a' h' => a' = a /\ P h') no_err h ->
  exists h', m h = (h', Ok a) /\ P h'.
Proof.
  intros Hwp. destruct (wp_no_err_run _ _ _ Hwp) as (h' & a' & Hrun & -> & HP).
  by exists h'.
Qed.

Lemma quot_2_neg n : n < 0 -> Z.quot n 2 = - ((- n) / 2).
Proof.
  intros Hn. pose proof (Z.quot_opp_l (- n) 2 ltac:(lia)) as Hq.
  rewrite Z.opp_involutive in Hq. rewrite Hq.
  by rewrite Z.quot_div_nonneg by lia.
Qed.

(** Past 26755 slices, either way, the product [numParallels * numSlices * 6]
    is out of [int]. *)
Lemma sphere_index_count_overflows numSlices :
  MAX_SLICES < numSlices \/ numSlices < - MAX_SLICES ->
  INT_MAX < Z.quot numSlices 2 * numSlices * 6.
Proof.
  unfold MAX_SLICES, INT_MAX. intros [Hpos|Hneg].
  - rewrite Z.quot_div_nonneg by lia.
    assert (13378 <= numSlices / 2) by (Z.div_mod_to_equations; lia).
    assert (13378 * 26756 <= numSlices / 2 * numSlices)
      by (apply Z.mul_le_mono_nonneg; lia).
    lia.
  - rewrite quot_2_neg by lia.
    assert (13378 <= (- numSlices) / 2) by (Z.div_mod_to_equations; lia).
    assert (13378 * 26756 <= (- numSlices) / 2 * (- numSlices))
      by (apply Z.mul_le_mono_nonneg; lia).
    lia.
Qed.

Lemma wp_int_stop z (Q : Z -> heap -> Prop) (E : error -> heap -> Prop) h :
  E SignedOverflow h -> (in_int z = true -> Q z h) -> wp (int_chk z) Q E h.
Proof. intros HE HQ. apply wp_int_chk; auto. Qed.

(** X1: past 26755 slices, either way, the index count
    [numParallels * numSlices * 6] is above [INT_MAX]: the [int]
    declarations of lines 58-60 overflow, which C leaves undefined, so no
    value a build returns is that count.  The embedding marks undefined
    behaviour with the error [SignedOverflow]; it is met at lines 58-60,
    ahead of the first access through an argument (line 65), whatever the
    arguments are. *)
Theorem esGenSphere_too_many_slices sinf cosf numSlices radius h :
  MAX_SLICES < numSlices \/ numSlices < - MAX_SLICES ->
  INT_MAX < Z.quot numSlices 2 * numSlices * 6 /\
  esGenSphere sinf cosf numSlices radius h = (h, Err SignedOverflow).
Proof.
  intros Hs.
  pose proof (sphere_index_count_overflows numSlices Hs) as Hov.
  split; [exact Hov|].
  assert (wp (esGenSphere sinf cosf numSlices radius) (fun _ _ => False)
             (fun e h' => e = SignedOverflow /\ h' = h) h) as Hwp.
  { unfold esGenSphere, idiv. change (2 =? 0) with false. cbv iota.
    unfold iadd, imul.
    do 5 (apply wp_bind, wp_int_stop; [done|intros _]).
    apply wp_bind, wp_int_chk; [|done].
    unfold in_int. intros [_ Hle%Z.leb_le]%andb_prop. lia. }
  unfold wp in Hwp.
  destruct (esGenSphere sinf cosf numSlices radius h) as [h' [a|e]]; [done|].
  by destruct Hwp as [-> ->].
Qed.

(** X1 at 30000 slices. *)
Lemma esGenSphere_too_many_slices_witness :
  INT_MAX < Z.quot 30000 2 * 30000 * 6 /\
  esGenSphere sinf_quadrant cosf_quadrant 30000 F32.one (start positions_and_indices)
    = (start positions_and_indices, Err SignedOverflow).
Proof.
  apply esGenSphere_too_many_slices. left. unfold MAX_SLICES. lia.
Defined.

(** X2: from -26755 to -1 slices [esGenSphere] returns all the same: the
    count [numParallels * numSlices * 6] it returns is not negative (48 at
    -4 slices), every block asked for is allocated, and no vertex and no
    index is written: the trace holds allocations only, so every cell of
    every block is as [malloc] left it. *)
Theorem esGenSphere_negative_slices sinf cosf numSlices radius o :
  - MAX_SLICES <= numSlices < 0 ->
  let indexCount := Z.quot numSlices 2 * numSlices * 6 in
  exists h',
    esGenSphere sinf cosf numSlices radius (start o) = (h', Ok indexCount) /\
    0 <= indexCount /\
    outs h' = sphere_allocated numSlices o /\
    Forall is_alloc (trace h').
Proof.
  intros Hs indexCount.
  destruct (sphere_counts_fit_neg numSlices Hs) as (HP & HV0 & HV & HPS & HI).
  apply wp_no_err_run_eq.
  unfold esGenSphere, idiv. change (2 =? 0) with false. cbv iota.
  unfold sphere_allocated, indexCount.
  set (numParallels := Z.quot numSlices 2) in *.
  set (numVertices := (numParallels + 1) * (numSlices + 1)) in *.
  unfold MAX_SLICES in *.
  do 6 wp_int.
  apply wp_bind, wp_malloc_out; [lia|]. intros h1 H1 T1. cbn beta.
  apply wp_bind, wp_malloc_out; [lia|]. intros h2 H2 T2. cbn beta.
  apply wp_bind, wp_malloc_out; [lia|]. intros h3 H3 T3. cbn beta.
  apply wp_bind, wp_malloc_out; [lia|]. intros h4 H4 T4. cbn beta.
  assert (outs h4 = malloc_out Indices (numParallels * numSlices * 6)
            (malloc_out TexCoords (2 * numVertices)
               (malloc_out Normals (3 * numVertices)
                  (malloc_out Vertices (3 * numVertices) o)))) as Houts
    by (by rewrite H4, H3, H2, H1).
  assert (Forall is_alloc (trace h4)) as Htr
    by (apply T4, T3, T2, T1; constructor).
  clear H1 H2 H3 H4 T1 T2 T3 T4.
  wp_int. apply wp_bind.
  assert (wp (for_lt 0 (numParallels + 1)
                (fun i _ =>
                   jEnd <- iadd numSlices 1 ;;
                   for_lt 0 jEnd
                     (sphere_vertex_body sinf cosf numSlices numParallels radius
                        ((F32.two *f ES_PI) /f F32.of_int numSlices) i) tt) tt)
             (fun _ h' => h' = h4) no_err h4) as Hloop.
  { destruct (decide (numSlices = -1)) as [Heq|Hne].
    - assert (numParallels = 0) as -> by (subst numParallels; by rewrite Heq).
      change (for_lt 0 (0 + 1)) with (@for_range unit 1 0). cbn [for_range].
      apply wp_bind. wp_int. rewrite for_lt_empty by lia. by apply wp_ret, wp_ret.
    - rewrite for_lt_empty; [by apply wp_ret|].
      subst numParallels.
      pose proof (Z.quot_opp_l (- numSlices) 2 ltac:(lia)) as Hq.
      rewrite Z.opp_involutive in Hq. rewrite Hq.
      rewrite Z.quot_div_nonneg by lia. Z.div_mod_to_equations. lia. }
  eapply wp_mono; [exact Hloop| |done].
  intros [] h5 ->. cbn beta.
  apply wp_bind, wp_requested. apply wp_bind.
  apply wp_when.
  - intros _. rewrite for_lt_empty by lia. apply wp_bind, wp_ret, wp_ret, wp_ret.
    split; [reflexivity|]. split; [lia|]. done.
  - intros _. apply wp_ret. split; [reflexivity|]. split; [lia|]. done.
Qed.

(** X2 at -4 slices with positions and indices asked for: 3 vertices and 48
    indices are allocated and none is written. *)
Lemma esGenSphere_negative_slices_witness :
  exists h',
    esGenSphere sinf_quadrant cosf_quadrant (-4) F32.one (start positions_and_indices)
      = (h', Ok 48) /\
    outs h' = mkOutputs (Target (Some (replicate 9 Indet))) NullArg NullArg NullArg
                (Target (Some (replicate 48 Indet))).
Proof.
  destruct (esGenSphere_negative_slices sinf_quadrant cosf_quadrant (-4) F32.one
              positions_and_indices) as (h' & Hrun & _ & Houts & _).
  - unfold MAX_SLICES. lia.
  - exists h'. split; [exact Hrun|exact Houts].
Defined.

(** ** Numbers of binary32 *)

Lemma digits2_pos_size p : digits2_pos p = Pos.size p.
Proof. induction p; cbn; congruence. Qed.

Lemma digits2_pos_iter_xO p k :
  Zpos (digits2_pos (Pos.iter xO p k)) = Zpos (digits2_pos p) + Zpos k.
Proof.
  induction k as [|k IH] using Pos.peano_ind.
  - cbn. lia.
  - rewrite Pos.iter_succ. cbn [digits2_pos]. lia.
Qed.

Lemma digits2_pos_bound p k :
  Zpos p < 2 ^ k -> 0 <= k -> Zpos (digits2_pos p) <= k.
Proof.
  intros Hp Hk. rewrite digits2_pos_size.
  destruct (Z_le_gt_dec (Zpos (Pos.size p)) k) as [Hle|Hgt]; [done|exfalso].
  pose proof (Pos.size_le p) as Hsz.
  assert (2 ^ (k + 1) <= 2 ^ Zpos (Pos.size p))
    by (apply Z.pow_le_mono_r; lia).
  assert (Zpos (2 ^ Pos.size p) = 2 ^ Zpos (Pos.size p)) as Hpow
    by (by rewrite Pos2Z.inj_pow).
  assert (Zpos (2 ^ Pos.size p) <= Zpos (p~0)) by (apply Pos2Z.pos_le_pos, Hsz).
  rewrite Z.pow_add_r in * by lia. lia.
Qed.

(** A positive [int] below [2^24] converts to a positive finite number. *)
Lemma of_int_finite n :
  1 <= n < 2 ^ 24 -> exists m e, F32.of_int n = S754_finite false m e.
Proof.
  intros Hn. destruct n as [|p|p]; [lia| |lia].
  pose proof (digits2_pos_bound p 24 ltac:(lia) ltac:(lia)) as Hd.
  unfold F32.of_int, F32.of_Z_exp, binary_normalize, binary_round.
  set (d := Zpos (digits2_pos p)) in *.
  assert (fexp F32.prec F32.emax (d + 0) = d - 24) as Hfexp.
  { unfold fexp, emin, F32.prec, F32.emax. lia. }
  rewrite Hfexp.
  assert (exists mz, shl_align p 0 (d - 24) = (mz, d - 24) /\
                     Zpos (digits2_pos mz) = 24) as (mz & -> & Hmz).
  { unfold shl_align. destruct (d - 24 - 0) as [|k|k] eqn:Hk; [|lia|].
    - exists p. split; [f_equal; lia|]. fold d. lia.
    - eexists. split; [reflexivity|]. rewrite digits2_pos_iter_xO. fold d. lia. }
  unfold binary_round_aux, shr_fexp. cbn [Zdigits2]. rewrite Hmz.
  assert (fexp F32.prec F32.emax (24 + (d - 24)) - (d - 24) = 0) as ->
    by (unfold fexp, emin, F32.prec, F32.emax; lia).
  cbn [shr shr_record_of_loc shr_m loc_of_shr_record round_nearest_even Zdigits2].
  rewrite Hmz.
  assert (fexp F32.prec F32.emax (24 + (d - 24)) - (d - 24) = 0) as ->
    by (unfold fexp, emin, F32.prec, F32.emax; lia).
  cbn [shr shr_m].
  destruct (Z.leb_spec (d - 24) (F32.emax - F32.prec)) as [_|Hbad]; [by eexists _, _|].
  unfold F32.emax, F32.prec in Hbad. lia.
Qed.

Lemma zero_div_finite s m e : F32.zero /f S754_finite s m e = S754_zero s.
Proof. reflexivity. Qed.

(** A finite number divided by itself is one. *)
Lemma div_self s m e : S754_finite s m e /f S754_finite s m e = F32.one.
Proof.
  unfold F32.div, SFdiv, SFdiv_core_binary.
  replace (Z.min (fexp F32.prec F32.emax (Zdigits2 (Zpos m) + e - (Zdigits2 (Zpos m) + e)))
                 (e - e)) with (-24)
    by (unfold fexp, emin, F32.prec, F32.emax; lia).
  replace (e - e - -24) with 24 by lia.
  assert (Z.div_eucl (Z.shiftl (Zpos m) 24) (Zpos m) = (2 ^ 24, 0)) as ->.
  { rewrite Z.shiftl_mul_pow2 by lia.
    pose proof (Z.div_eucl_eq (Zpos m * 2 ^ 24) (Zpos m) ltac:(lia)) as Heq.
    pose proof (Z.mod_pos_bound (Zpos m * 2 ^ 24) (Zpos m) ltac:(lia)) as Hr.
    unfold Z.modulo in Hr.
    destruct (Z.div_eucl (Zpos m * 2 ^ 24) (Zpos m)) as [q r].
    assert (q = 2 ^ 24) by nia. subst q. f_equal. lia. }
  rewrite xorb_nilpotent.
  assert (new_location (Zpos m) 0 = loc_Exact) as ->.
  { unfold new_location. by destruct (Z.even (Zpos m)). }
  reflexivity.
Qed.

(** ** The blocks of the sphere *)

(** Two blocks of [rows * w * per] cells filled with the same cells are the
    same block. *)
Lemma filled_unique w per rows f (b b' : block) :
  0 <= w -> 0 < per -> 0 <= rows ->
  Z.of_nat (length b) = rows * w * per -> Z.of_nat (length b') = rows * w * per ->
  filled w per f (rows * w * per) b -> filled w per f (rows * w * per) b' ->
  b = b'.
Proof.
  intros Hw Hper Hrows Hlen Hlen' Hb Hb'.
  apply list_eq. intros k.
  destruct (decide (Z.of_nat k < rows * w * per)) as [Hk|Hk].
  - assert (0 < w) as Hw'.
    { destruct (decide (w = 0)) as [->|]; [|lia]. lia. }
    destruct (grid_cell_of w per rows (Z.of_nat k) Hw' Hper ltac:(lia))
      as (i & j & c & Hi & Hj & Hc & Heq).
    pose proof (Hb i j c ltac:(lia) Hj Hc ltac:(lia)) as H1.
    pose proof (Hb' i j c ltac:(lia) Hj Hc ltac:(lia)) as H2.
    unfold cellZ in H1, H2. rewrite <- Heq, Nat2Z.id in H1, H2. congruence.
  - rewrite !(proj2 (lookup_ge_None _ _)) by lia. done.
Qed.

Lemma grid_slot_unique s len n w per rows f h h' :
  0 <= w -> 0 < per -> 0 <= rows -> len = rows * w * per -> n = rows * w * per ->
  grid_slot s len w per f n h -> grid_slot s len w per f n h' ->
  get_out s (outs h) <> NullArg -> get_out s (outs h') <> NullArg ->
  exists b, block_of s h = Some b /\ block_of s h' = Some b.
Proof.
  intros Hw Hper Hrows -> -> Hg Hg' Hreq Hreq'.
  destruct (grid_slot_block _ _ _ _ _ _ _ Hg Hreq) as (b & Hb & Hlen & Hfill).
  destruct (grid_slot_block _ _ _ _ _ _ _ Hg' Hreq') as (b' & Hb' & Hlen' & Hfill').
  exists b. split; [exact Hb|]. rewrite Hb'. f_equal.
  exact (filled_unique w per rows f b' b Hw Hper Hrows Hlen' Hlen Hfill' Hfill).
Qed.

(** X9: what [esGenSphere] leaves in an argument depends on the slice count
    and the radius alone: two calls that both pass the argument leave the
    same block there, whatever other arguments each call passes and
    whatever the caller's pointers held before. *)
Theorem esGenSphere_request_independent sinf cosf numSlices radius o1 o2 s :
  0 <= numSlices <= MAX_SLICES ->
  normals_have_vertices o1 -> normals_have_vertices o2 ->
  s <> Colors -> get_out s o1 <> NullArg -> get_out s o2 <> NullArg ->
  exists b,
    sphere_block sinf cosf numSlices radius o1 s = Some b /\
    sphere_block sinf cosf numSlices radius o2 s = Some b.
Proof.
  intros Hs Hwf1 Hwf2 Hcol Hreq1 Hreq2. unfold sphere_block.
  destruct (esGenSphere_returns sinf cosf numSlices radius o1 Hs Hwf1)
    as (h1 & -> & _ & HV1 & HN1 & HT1 & HI1 & _ & Hnull1).
  destruct (esGenSphere_returns sinf cosf numSlices radius o2 Hs Hwf2)
    as (h2 & -> & _ & HV2 & HN2 & HT2 & HI2 & _ & Hnull2).
  cbn [fst]. rewrite <- Hnull1 in Hreq1. rewrite <- Hnull2 in Hreq2.
  assert (0 <= numSlices / 2) by (apply Z.div_pos; lia).
  destruct s; [| done | | |].
  - eapply grid_slot_unique with (rows := numSlices / 2 + 1);
      [| | | | | exact HV1 | exact HV2 | done | done]; lia.
  - eapply grid_slot_unique with (rows := numSlices / 2 + 1);
      [| | | | | exact HN1 | exact HN2 | done | done]; lia.
  - eapply grid_slot_unique with (rows := numSlices / 2 + 1);
      [| | | | | exact HT1 | exact HT2 | done | done]; lia.
  - eapply grid_slot_unique with (rows := numSlices / 2);
      [| | | | | exact HI1 | exact HI2 | done | done]; lia.
Qed.

(** X9 at 4 slices: the indices of a call that asks for positions too and
    of one that passes a pointer to an empty block. *)
Lemma esGenSphere_request_independent_witness :
  exists b,
    sphere_block sinf_quadrant cosf_quadrant 4 F32.one positions_and_indices Indices
      = Some b /\
    sphere_block sinf_quadrant cosf_quadrant 4 F32.one (indices_alone (Some [])) Indices
      = Some b.
Proof.
  apply (esGenSphere_request_independent sinf_quadrant cosf_quadrant 4 F32.one
           positions_and_indices (indices_alone (Some [])) Indices).
  - unfold MAX_SLICES. lia.
  - left. reflexivity.
  - left. reflexivity.
  - discriminate.
  - discriminate.
  - discriminate.
Defined.

(** X3: the position of grid vertex [(i, j)] is
    [(r sin(a i) sin(a j), r cos(a i), r sin(a i) cos(a j))] with
    [a = 2 ES_PI / numSlices], every product and the quotient rounded to
    binary32, left to right: for every grid vertex of a call from 0 to
    26755 slices.  The height [y] is the same along a parallel. *)
Theorem esGenSphere_positions sinf cosf numSlices radius o :
  0 <= numSlices <= MAX_SLICES ->
  get_out Vertices o <> NullArg ->
  let angleStep := (F32.two *f ES_PI) /f F32.of_int numSlices in
  exists h' b,
    esGenSphere sinf cosf numSlices radius (start o)
      = (h', Ok (numSlices / 2 * numSlices * 6)) /\
    block_of Vertices h' = Some b /\
    forall i j, 0 <= i <= numSlices / 2 -> 0 <= j <= numSlices ->
      vertex_at numSlices b i j =
        Some (FVal (radius *f sinf (angleStep *f F32.of_int i)
                           *f sinf (angleStep *f F32.of_int j)),
              FVal (radius *f cosf (angleStep *f F32.of_int i)),
              FVal (radius *f sinf (angleStep *f F32.of_int i)
                           *f cosf (angleStep *f F32.of_int j))).
Proof.
  intros Hs Hreq angleStep.
  destruct (esGenSphere_returns sinf cosf numSlices radius o Hs (or_intror Hreq))
    as (h' & Hrun & _ & HV & _ & _ & _ & _ & Hnull).
  rewrite <- Hnull in Hreq.
  destruct (grid_slot_block _ _ _ _ _ _ _ HV Hreq) as (b & Hb & Hlen & Hfill).
  exists h', b. split; [exact Hrun|]. split; [exact Hb|].
  intros i j Hi Hj.
  assert ((i + 1) * (numSlices + 1) <= (numSlices / 2 + 1) * (numSlices + 1))
    by (apply Z.mul_le_mono_nonneg_r; lia).
  unfold vertex_at, grid_vertex.
  replace ((i * (numSlices + 1) + j) * 3) with ((i * (numSlices + 1) + j) * 3 + 0) by lia.
  rewrite (Hfill i j 0) by lia.
  replace ((i * (numSlices + 1) + j) * 3 + 0 + 1)
    with ((i * (numSlices + 1) + j) * 3 + 1) by lia.
  rewrite (Hfill i j 1) by lia.
  replace ((i * (numSlices + 1) + j) * 3 + 0 + 2)
    with ((i * (numSlices + 1) + j) * 3 + 2) by lia.
  rewrite (Hfill i j 2) by lia.
  reflexivity.
Qed.

(** X3 at 4 slices and radius 1, the first vertex. *)
Lemma esGenSphere_positions_witness :
  exists h' b,
    esGenSphere sinf_quadrant cosf_quadrant 4 F32.one (start positions_alone)
      = (h', Ok 48) /\
    block_of Vertices h' = Some b /\
    vertex_at 4 b 0 0 = Some (FVal F32.zero, FVal F32.one, FVal F32.zero).
Proof.
  destruct (esGenSphere_positions sinf_quadrant cosf_quadrant 4 F32.one positions_alone)
    as (h' & b & Hrun & Hb & Hcells).
  - unfold MAX_SLICES. lia.
  - discriminate.
  - exists h', b. split; [exact Hrun|]. split; [exact Hb|].
    rewrite (Hcells 0 0); [|change (4 / 2) with 2; lia|lia].
    vm_compute. reflexivity.
Defined.

Lemma filled_written w per rows f (b : block) :
  0 <= w -> 0 < per ->
  Z.of_nat (length b) = rows * w * per ->
  filled w per f (rows * w * per) b ->
  (forall i j c, written (f i j c)) ->
  Forall written b.
Proof.
  intros Hw Hper Hlen Hfill Hf.
  apply Forall_lookup. intros k c Hk.
  pose proof (lookup_lt_Some _ _ _ Hk) as Hlt.
  assert (0 < w) as Hw' by (destruct (decide (w = 0)) as [->|]; lia).
  destruct (grid_cell_of w per rows (Z.of_nat k) Hw' Hper ltac:(lia))
    as (i & j & c' & Hi & Hj & Hc & Heq).
  pose proof (Hfill i j c' ltac:(lia) Hj Hc ltac:(lia)) as H1.
  unfold cellZ in H1. rewrite <- Heq, Nat2Z.id in H1.
  assert (c = f i j c') as -> by congruence. apply Hf.
Qed.

(** X10: within the slice bound [esGenSphere] writes every cell of every
    block it allocates: nothing it hands back is indeterminate. *)
Theorem esGenSphere_fully_written sinf cosf numSlices radius o s :
  0 <= numSlices <= MAX_SLICES ->
  normals_have_vertices o ->
  s <> Colors -> get_out s o <> NullArg ->
  exists b, sphere_block sinf cosf numSlices radius o s = Some b /\ Forall written b.
Proof.
  intros Hs Hwf Hcol Hreq. unfold sphere_block.
  destruct (esGenSphere_returns sinf cosf numSlices radius o Hs Hwf)
    as (h' & -> & _ & HV & HN & HT & HI & _ & Hnull).
  cbn [fst]. rewrite <- Hnull in Hreq.
  assert (0 <= numSlices / 2) by (apply Z.div_pos; lia).
  destruct s; [| done | | |].
  - destruct (grid_slot_block _ _ _ _ _ _ _ HV Hreq) as (b & Hb & Hlen & Hfill).
    exists b. split; [exact Hb|].
    eapply filled_written with (rows := (numSlices / 2 + 1));
      [| | | exact Hfill |]; [lia | lia | lia | done].
  - destruct (grid_slot_block _ _ _ _ _ _ _ HN Hreq) as (b & Hb & Hlen & Hfill).
    exists b. split; [exact Hb|].
    eapply filled_written with (rows := (numSlices / 2 + 1));
      [| | | exact Hfill |]; [lia | lia | lia | done].
  - destruct (grid_slot_block _ _ _ _ _ _ _ HT Hreq) as (b & Hb & Hlen & Hfill).
    exists b. split; [exact Hb|].
    eapply filled_written with (rows := (numSlices / 2 + 1));
      [| | | exact Hfill |]; [lia | lia | lia | done].
  - destruct (grid_slot_block _ _ _ _ _ _ _ HI Hreq) as (b & Hb & Hlen & Hfill).
    exists b. split; [exact Hb|].
    eapply filled_written with (rows := (numSlices / 2));
      [| | | exact Hfill |]; [lia | lia | lia | done].
Qed.

(** X10 at 4 slices, the normals. *)
Lemma esGenSphere_fully_written_witness :
  exists b,
    sphere_block sinf_quadrant cosf_quadrant 4 F32.one positions_and_normals Normals
      = Some b /\ Forall written b.
Proof.
  apply (esGenSphere_fully_written sinf_quadrant cosf_quadrant 4 F32.one
           positions_and_normals Normals).
  - unfold MAX_SLICES. lia.
  - right. discriminate.
  - discriminate.
  - discriminate.
Defined.

(** The texture block of a call within the slice bound. *)
Lemma sphere_tex_block sinf cosf numSlices radius o :
  0 <= numSlices <= MAX_SLICES ->
  (get_out Normals o = NullArg \/ get_out Vertices o <> NullArg) ->
  get_out TexCoords o <> NullArg ->
  let numParallels := numSlices / 2 in
  exists h' b,
    esGenSphere sinf cosf numSlices radius (start o)
      = (h', Ok (numParallels * numSlices * 6)) /\
    block_of TexCoords h' = Some b /\
    Z.of_nat (length b) = 2 * ((numParallels + 1) * (numSlices + 1)) /\
    forall i j, 0 <= i <= numParallels -> 0 <= j <= numSlices ->
      tex_u numSlices b i j = Some (FVal (F32.of_int j /f F32.of_int numSlices)) /\
      tex_v numSlices b i j =
        Some (FVal ((F32.one -f F32.of_int i) /f F32.of_int (numParallels - 1))).
Proof.
  intros Hs Hwf Hreq numParallels.
  destruct (esGenSphere_returns sinf cosf numSlices radius o Hs Hwf)
    as (h' & Hrun & _ & _ & _ & HT & _ & _ & Hnull).
  rewrite <- Hnull in Hreq.
  destruct (grid_slot_block _ _ _ _ _ _ _ HT Hreq) as (b & Hb & Hlen & Hfill).
  exists h', b. repeat (split; [done|]).
  intros i j Hi Hj. fold numParallels in Hfill.
  assert ((i + 1) * (numSlices + 1) <= (numParallels + 1) * (numSlices + 1))
    by (apply Z.mul_le_mono_nonneg_r; lia).
  unfold tex_u, tex_v, grid_vertex.
  replace ((i * (numSlices + 1) + j) * 2) with ((i * (numSlices + 1) + j) * 2 + 0) by lia.
  split.
  - rewrite (Hfill i j 0) by lia. reflexivity.
  - replace ((i * (numSlices + 1) + j) * 2 + 0 + 1)
      with ((i * (numSlices + 1) + j) * 2 + 1) by lia.
    rewrite (Hfill i j 1) by lia. reflexivity.
Qed.



(** X5: from 4 slices on, in a call that asks for texture coordinates and
    does not ask for normals without positions, [u] is exactly 0 on the
    first column and exactly 1 on the last one, and [v] is exactly 0 on the
    second row, row 1 (not on a pole: the numerator of [v] is [1 - i]). *)
Theorem esGenSphere_texCoords_seam sinf cosf numSlices radius o :
  4 <= numSlices <= MAX_SLICES ->
  (get_out Normals o = NullArg \/ get_out Vertices o <> NullArg) ->
  get_out TexCoords o <> NullArg ->
  exists h' b,
    esGenSphere sinf cosf numSlices radius (start o)
      = (h', Ok (numSlices / 2 * numSlices * 6)) /\
    block_of TexCoords h' = Some b /\
    (forall i, 0 <= i <= numSlices / 2 ->
       tex_u numSlices b i 0 = Some (FVal F32.zero) /\
       tex_u numSlices b i numSlices = Some (FVal F32.one)) /\
    (forall j, 0 <= j <= numSlices ->
       tex_v numSlices b 1 j = Some (FVal F32.zero)).
Proof.
  intros Hs Hwf Hreq.
  destruct (sphere_tex_block sinf cosf numSlices radius o ltac:(lia) Hwf Hreq)
    as (h' & b & Hrun & Hb & _ & Hcells).
  exists h', b. split; [exact Hrun|]. split; [exact Hb|].
  unfold MAX_SLICES in Hs.
  assert (2 <= numSlices / 2 <= 13377) as HP by (Z.div_mod_to_equations; lia).
  destruct (of_int_finite numSlices ltac:(lia)) as (m & e & HS).
  destruct (of_int_finite (numSlices / 2 - 1) ltac:(lia)) as (m' & e' & HP1).
  split.
  - intros i Hi. split.
    + destruct (Hcells i 0 Hi ltac:(lia)) as [-> _]. by rewrite HS.
    + destruct (Hcells i numSlices Hi ltac:(lia)) as [-> _].
      by rewrite HS, div_self.
  - intros j Hj. destruct (Hcells 1 j ltac:(lia) Hj) as [_ ->]. by rewrite HP1.
Qed.

(** X5 at 4 slices. *)
Lemma esGenSphere_texCoords_seam_witness :
  exists h' b,
    esGenSphere sinf_quadrant cosf_quadrant 4 F32.one
      (start (mkOutputs NullArg NullArg NullArg fresh NullArg)) = (h', Ok 48) /\
    block_of TexCoords h' = Some b /\
    tex_u 4 b 2 4 = Some (FVal F32.one).
Proof.
  destruct (esGenSphere_texCoords_seam sinf_quadrant cosf_quadrant 4 F32.one
              (mkOutputs NullArg NullArg NullArg fresh NullArg))
    as (h' & b & Hrun & Hb & Hu & _).
  - unfold MAX_SLICES. lia.
  - left. reflexivity.
  - discriminate.
  - exists h', b. split; [exact Hrun|]. split; [exact Hb|].
    apply (Hu 2). change (4 / 2) with 2. lia.
Defined.

(** X6: at 2 or 3 slices there is one parallel, [numParallels - 1] is 0,
    and the division of line 102 is by zero: a call that asks for texture
    coordinates and does not ask for normals without positions returns all
    the same, with [v] [+infinity] on row 0 and NaN on row 1, on every
    column. *)
Theorem esGenSphere_texCoords_one_parallel sinf cosf numSlices radius o :
  numSlices = 2 \/ numSlices = 3 ->
  (get_out Normals o = NullArg \/ get_out Vertices o <> NullArg) ->
  get_out TexCoords o <> NullArg ->
  exists h' b,
    esGenSphere sinf cosf numSlices radius (start o) = (h', Ok (numSlices * 6)) /\
    block_of TexCoords h' = Some b /\
    forall j, 0 <= j <= numSlices ->
      tex_v numSlices b 0 j = Some (FVal (S754_infinity false)) /\
      tex_v numSlices b 1 j = Some (FVal S754_nan).
Proof.
  intros Hs Hwf Hreq.
  destruct (sphere_tex_block sinf cosf numSlices radius o) as (h' & b & Hrun & Hb & _ & Hcells);
    [unfold MAX_SLICES; lia|done..|].
  assert (numSlices / 2 = 1) as HP by (destruct Hs as [-> | ->]; reflexivity).
  rewrite HP in *.
  exists h', b. split; [by rewrite Hrun, Z.mul_1_l|]. split; [exact Hb|].
  intros j Hj. split.
  - by destruct (Hcells 0 j ltac:(lia) Hj) as [_ ->].
  - by destruct (Hcells 1 j ltac:(lia) Hj) as [_ ->].
Qed.

(** X6 at 2 slices. *)
Lemma esGenSphere_texCoords_one_parallel_witness :
  exists h' b,
    esGenSphere sinf_quadrant cosf_quadrant 2 F32.one
      (start (mkOutputs NullArg NullArg NullArg fresh NullArg)) = (h', Ok 12) /\
    block_of TexCoords h' = Some b /\
    tex_v 2 b 1 0 = Some (FVal S754_nan).
Proof.
  destruct (esGenSphere_texCoords_one_parallel sinf_quadrant cosf_quadrant 2 F32.one
              (mkOutputs NullArg NullArg NullArg fresh NullArg))
    as (h' & b & Hrun & Hb & Hv).
  - left. reflexivity.
  - left. reflexivity.
  - discriminate.
  - exists h', b. split; [exact Hrun|]. split; [exact Hb|].
    apply (Hv 0). lia.
Defined.

(** The index block of a call within the slice bound: the two triangles of
    each grid cell. *)
Lemma sphere_index_block sinf cosf numSlices radius o :
  0 <= numSlices <= MAX_SLICES ->
  (get_out Normals o = NullArg \/ get_out Vertices o <> NullArg) ->
  get_out Indices o <> NullArg ->
  let numParallels := numSlices / 2 in
  exists h' b,
    esGenSphere sinf cosf numSlices radius (start o)
      = (h', Ok (numParallels * numSlices * 6)) /\
    block_of Indices h' = Some b /\
    Z.of_nat (length b) = numParallels * numSlices * 6 /\
    forall i j, 0 <= i < numParallels -> 0 <= j < numSlices ->
      triangle b ((i * numSlices + j) * 2) =
        Some (UVal (grid_vertex numSlices i j),
              UVal (grid_vertex numSlices (i + 1) j),
              UVal (grid_vertex numSlices (i + 1) (j + 1))) /\
      triangle b ((i * numSlices + j) * 2 + 1) =
        Some (UVal (grid_vertex numSlices i j),
              UVal (grid_vertex numSlices (i + 1) (j + 1)),
              UVal (grid_vertex numSlices i (j + 1))).
Proof.
  intros Hs Hwf Hreq numParallels.
  destruct (esGenSphere_returns sinf cosf numSlices radius o Hs Hwf)
    as (h' & Hrun & _ & _ & _ & _ & HI & _ & Hnull).
  rewrite <- Hnull in Hreq.
  destruct (grid_slot_block _ _ _ _ _ _ _ HI Hreq) as (b & Hb & Hlen & Hfill).
  exists h', b. repeat (split; [done|]).
  intros i j Hi Hj. fold numParallels in Hfill.
  assert ((i + 1) * numSlices <= numParallels * numSlices)
    by (apply Z.mul_le_mono_nonneg_r; lia).
  assert (forall c, 0 <= c < 6 ->
            cellZ b ((i * numSlices + j) * 6 + c)
            = Some (sphere_index_cell numSlices i j c))
    as Hcell by (intros c Hc; apply Hfill; lia).
  unfold triangle. split.
  - replace (3 * ((i * numSlices + j) * 2)) with ((i * numSlices + j) * 6 + 0) by lia.
    replace ((i * numSlices + j) * 6 + 0 + 1) with ((i * numSlices + j) * 6 + 1) by lia.
    replace ((i * numSlices + j) * 6 + 0 + 2) with ((i * numSlices + j) * 6 + 2) by lia.
    by rewrite !Hcell by lia.
  - replace (3 * ((i * numSlices + j) * 2 + 1)) with ((i * numSlices + j) * 6 + 3) by lia.
    replace ((i * numSlices + j) * 6 + 3 + 1) with ((i * numSlices + j) * 6 + 4) by lia.
    replace ((i * numSlices + j) * 6 + 3 + 2) with ((i * numSlices + j) * 6 + 5) by lia.
    by rewrite !Hcell by lia.
Qed.

(** Every triangle number below [2 * rows * w] is one of the two triangles
    of a grid cell. *)
Lemma triangle_of_cell w rows t :
  0 < w -> 0 <= t < rows * w * 2 ->
  exists i j c, 0 <= i < rows /\ 0 <= j < w /\ 0 <= c < 2 /\ t = (i * w + j) * 2 + c.
Proof. intros Hw Ht. apply grid_cell_of; lia. Qed.

(** X7: from 1 slice on, in a call that asks for indices and does not ask
    for normals without positions, every triangle of the index block has
    three different vertices, each one a vertex of the grid. *)
Theorem esGenSphere_triangles_distinct sinf cosf numSlices radius o :
  1 <= numSlices <= MAX_SLICES ->
  (get_out Normals o = NullArg \/ get_out Vertices o <> NullArg) ->
  get_out Indices o <> NullArg ->
  let vertexCount := (numSlices / 2 + 1) * (numSlices + 1) in
  exists h' b,
    esGenSphere sinf cosf numSlices radius (start o)
      = (h', Ok (numSlices / 2 * numSlices * 6)) /\
    block_of Indices h' = Some b /\
    forall t, 0 <= t < numSlices / 2 * numSlices * 2 ->
      exists x y z, triangle b t = Some (UVal x, UVal y, UVal z) /\
        x <> y /\ y <> z /\ x <> z /\
        0 <= x < vertexCount /\ 0 <= y < vertexCount /\ 0 <= z < vertexCount.
Proof.
  intros Hs Hwf Hreq vertexCount.
  destruct (sphere_index_block sinf cosf numSlices radius o ltac:(lia) Hwf Hreq)
    as (h' & b & Hrun & Hb & _ & Htri).
  exists h', b. split; [exact Hrun|]. split; [exact Hb|].
  intros t Ht.
  destruct (triangle_of_cell numSlices (numSlices / 2) t ltac:(lia) Ht)
    as (i & j & c & Hi & Hj & Hc & ->).
  destruct (Htri i j Hi Hj) as [H0 H1].
  subst vertexCount. unfold grid_vertex in *.
  set (p := numSlices / 2) in *. set (w := numSlices + 1) in *.
  assert (Hw : 2 <= w) by (unfold w; lia).
  assert (Hjw : 0 <= j < w - 1) by (unfold w; lia).
  assert (0 <= i * w) by (apply Z.mul_nonneg_nonneg; lia).
  assert (Hiw : (i + 2) * w <= (p + 1) * w)
    by (apply Z.mul_le_mono_nonneg_r; lia).
  replace ((i + 2) * w) with (i * w + 2 * w) in Hiw by ring.
  assert (Hi1 : (i + 1) * w = i * w + w) by ring.
  rewrite Hi1 in *.
  clearbody p w. clear Htri Hrun Hb Hs Hwf Hreq Ht.
  generalize dependent (i * w). generalize dependent ((p + 1) * w). intros V Z0 H0 H1 Hz HV.
  destruct (decide (c = 0)) as [->|Hc0].
  - replace ((i * numSlices + j) * 2 + 0) with ((i * numSlices + j) * 2) by lia.
    rewrite H0. eexists _, _, _. split; [reflexivity|]. lia.
  - replace c with 1 by lia. rewrite H1. eexists _, _, _. split; [reflexivity|]. lia.
Qed.

(** X7 at 4 slices, triangle 15. *)
Lemma esGenSphere_triangles_distinct_witness :
  exists h' b,
    esGenSphere sinf_quadrant cosf_quadrant 4 F32.one (start (indices_alone None))
      = (h', Ok 48) /\
    block_of Indices h' = Some b /\
    exists x y z, triangle b 15 = Some (UVal x, UVal y, UVal z) /\
      x <> y /\ y <> z /\ x <> z.
Proof.
  destruct (esGenSphere_triangles_distinct sinf_quadrant cosf_quadrant 4 F32.one
              (indices_alone None))
    as (h' & b & Hrun & Hb & Htri).
  - unfold MAX_SLICES. lia.
  - left. reflexivity.
  - discriminate.
  - exists h', b. split; [exact Hrun|]. split; [exact Hb|].
    destruct (Htri 15) as (x & y & z & Ht & Hxy & Hyz & Hxz & _);
      [change (4 / 2) with 2; lia|].
    exists x, y, z. exact (conj Ht (conj Hxy (conj Hyz Hxz))).
Defined.

(** X8: from 2 slices on, in a call that asks for indices and does not ask
    for normals without positions, every vertex of the grid is the corner
    of some triangle: the index block names each of the
    [(numParallels + 1) * (numSlices + 1)] vertices at least once. *)
Theorem esGenSphere_vertices_all_used sinf cosf numSlices radius o :
  2 <= numSlices <= MAX_SLICES ->
  (get_out Normals o = NullArg \/ get_out Vertices o <> NullArg) ->
  get_out Indices o <> NullArg ->
  exists h' b,
    esGenSphere sinf cosf numSlices radius (start o)
      = (h', Ok (numSlices / 2 * numSlices * 6)) /\
    block_of Indices h' = Some b /\
    forall v, 0 <= v < (numSlices / 2 + 1) * (numSlices + 1) ->
      exists k, 0 <= k < numSlices / 2 * numSlices * 6 /\ cellZ b k = Some (UVal v).
Proof.
  intros Hs Hwf Hreq.
  destruct (esGenSphere_returns sinf cosf numSlices radius o ltac:(lia) Hwf)
    as (h' & Hrun & _ & _ & _ & _ & HI & _ & Hnull).
  rewrite <- Hnull in Hreq.
  destruct (grid_slot_block _ _ _ _ _ _ _ HI Hreq) as (b & Hb & Hlen & Hfill).
  exists h', b. split; [exact Hrun|]. split; [exact Hb|].
  set (numParallels := numSlices / 2) in *.
  assert (1 <= numParallels) by (unfold numParallels; Z.div_mod_to_equations; lia).
  intros v Hv.
  destruct (grid_cell_of (numSlices + 1) 1 (numParallels + 1) v)
    as (i & j & c & Hi & Hj & Hc & Hveq); [lia..|].
  assert (v = grid_vertex numSlices i j) as -> by (unfold grid_vertex; lia).
  clear Hveq Hv c Hc.
  (* the grid cell (i', j') and the corner of it that is vertex (i, j) *)
  set (i' := if decide (i = numParallels) then i - 1 else i).
  set (j' := if decide (j = numSlices) then j - 1 else j).
  set (c := if decide (i = numParallels)
            then (if decide (j = numSlices) then 2 else 1)
            else (if decide (j = numSlices) then 5 else 0)).
  assert (0 <= i' < numParallels /\ 0 <= j' < numSlices /\ 0 <= c < 6) as (Hi' & Hj' & Hc).
  { unfold i', j', c. repeat destruct (decide _); lia. }
  assert ((i' + 1) * numSlices <= numParallels * numSlices)
    by (apply Z.mul_le_mono_nonneg_r; lia).
  assert (0 <= i' * numSlices) by (apply Z.mul_nonneg_nonneg; lia).
  exists ((i' * numSlices + j') * 6 + c). split; [lia|].
  rewrite (Hfill i' j' c) by lia.
  unfold sphere_index_cell, i', j', c.
  repeat destruct (decide _); subst; do 2 f_equal; unfold grid_vertex; f_equal; lia.
Qed.

(** X8 at 4 slices, the last vertex. *)
Lemma esGenSphere_vertices_all_used_witness :
  exists h' b,
    esGenSphere sinf_quadrant cosf_quadrant 4 F32.one (start (indices_alone None))
      = (h', Ok 48) /\
    block_of Indices h' = Some b /\
    exists k, 0 <= k < 48 /\ cellZ b k = Some (UVal 14).
Proof.
  destruct (esGenSphere_vertices_all_used sinf_quadrant cosf_quadrant 4 F32.one
              (indices_alone None))
    as (h' & b & Hrun & Hb & Hused).
  - unfold MAX_SLICES. lia.
  - left. reflexivity.
  - discriminate.
  - exists h', b. split; [exact Hrun|]. split; [exact Hb|].
    apply (Hused 14). change (4 / 2) with 2. lia.
Defined.

(** ** The blocks of the cube *)

Lemma leaves_block s o b h :
  leaves s o b h -> get_out s o <> NullArg -> block_of s h = Some b.
Proof.
  unfold leaves, block_of. intros Hl Hreq.
  destruct (get_out s o); [done|]. by rewrite Hl.
Qed.

Ltac below n v tac :=
  let rec go k :=
    lazymatch k with
    | O => exfalso; lia
    | S ?k' =>
      let z := eval cbv in (Z.of_nat k') in
      destruct (decide (v = z)) as [->|?]; [tac | go k']
    end in
  go n.

(** X11: for every scale the index block of the cube has 36 entries, 12
    triangles; triangle [t] has three different vertices, all among the four
    vertices of face [t / 2], so every index is below 24. *)
Theorem esGenCube_triangles scale o :
  get_out Indices o <> NullArg ->
  exists b,
    cube_block scale o Indices = Some b /\ length b = 36%nat /\
    forall t, 0 <= t < 12 ->
      exists x y z, triangle b t = Some (UVal x, UVal y, UVal z) /\
        x <> y /\ y <> z /\ x <> z /\
        x / 4 = t / 2 /\ y / 4 = t / 2 /\ z / 4 = t / 2.
Proof.
  intros Hreq. unfold cube_block.
  destruct (esGenCube_run scale o) as (h' & -> & _ & _ & _ & HI & _).
  cbn [fst]. rewrite (leaves_block _ _ _ _ HI Hreq).
  eexists. split; [reflexivity|]. split; [reflexivity|].
  intros t Ht.
  below 12%nat t ltac:(eexists _, _, _; split; [reflexivity|]; repeat split; done).
Qed.

(** X11 at scale 2, triangle 7. *)
Lemma esGenCube_triangles_witness :
  exists b, cube_block F32.two positions_and_indices Indices = Some b /\
    exists x y z, triangle b 7 = Some (UVal x, UVal y, UVal z) /\
      x / 4 = 3 /\ y / 4 = 3 /\ z / 4 = 3.
Proof.
  destruct (esGenCube_triangles F32.two positions_and_indices) as (b & Hb & _ & Htri).
  - discriminate.
  - exists b. split; [exact Hb|].
    destruct (Htri 7) as (x & y & z & Ht & _ & _ & _ & Hx & Hy & Hz); [lia|].
    exists x, y, z. exact (conj Ht (conj Hx (conj Hy Hz))).
Defined.

(** X12: for every scale, every vertex of the cube lies on the face its
    normal points out of: the normal of vertex [v] is the unit vector of the
    axis of face [v / 4], up or down it, and the coordinate of the vertex on
    that axis is [0.5 * scale] or [-0.5 * scale] accordingly. *)
Theorem esGenCube_faces scale o :
  get_out Vertices o <> NullArg -> get_out Normals o <> NullArg ->
  exists bv bn,
    cube_block scale o Vertices = Some bv /\
    cube_block scale o Normals = Some bn /\
    length bv = 72%nat /\ length bn = 72%nat /\
    forall v, 0 <= v < 24 ->
      let axis := cube_face_axis (v / 4) in
      let down := cube_face_down (v / 4) in
      cellZ bv (3 * v + axis) =
        Some (FVal ((if down then neg_half else F32.half) *f scale)) /\
      forall c, 0 <= c < 3 ->
        cellZ bn (3 * v + c) =
          Some (FVal (if decide (c = axis)
                      then (if down then neg_one else F32.one)
                      else F32.zero)).
Proof.
  intros HreqV HreqN. unfold cube_block.
  destruct (esGenCube_run scale o) as (h' & -> & HV & HN & _ & _ & _).
  cbn [fst]. rewrite (leaves_block _ _ _ _ HV HreqV), (leaves_block _ _ _ _ HN HreqN).
  eexists _, _. split; [reflexivity|]. split; [reflexivity|].
  split; [reflexivity|]. split; [reflexivity|].
  intros v Hv.
  below 24%nat v ltac:(split; [reflexivity|];
    intros c Hc; below 3%nat c ltac:(reflexivity)).
Qed.

(** X12 at scale 2, vertex 13 on the +z face. *)
Lemma esGenCube_faces_witness :
  exists bv bn,
    cube_block F32.two positions_and_normals Vertices = Some bv /\
    cube_block F32.two positions_and_normals Normals = Some bn /\
    cellZ bv (3 * 13 + 2) = Some (FVal F32.one) /\
    cellZ bn (3 * 13 + 2) = Some (FVal F32.one).
Proof.
  destruct (esGenCube_faces F32.two positions_and_normals)
    as (bv & bn & Hbv & Hbn & _ & _ & Hface).
  - discriminate.
  - discriminate.
  - exists bv, bn. split; [exact Hbv|]. split; [exact Hbn|].
    destruct (Hface 13) as [Hp Hn]; [lia|].
    split; [exact Hp|]. apply (Hn 2). lia.
Defined.

(** X13: for every scale, every cell of every block [esGenCube] allocates
    is written: the tables copied are as long as the blocks. *)
Theorem esGenCube_fully_written scale o s :
  get_out s o <> NullArg -> s <> Colors ->
  exists b, cube_block scale o s = Some b /\ Forall written b.
Proof.
  intros Hreq Hcol. unfold cube_block.
  destruct (esGenCube_run scale o) as (h' & -> & HV & HN & HT & HI & _).
  cbn [fst].
  destruct s; [| done | | |];
    [rewrite (leaves_block _ _ _ _ HV Hreq)
    |rewrite (leaves_block _ _ _ _ HN Hreq)
    |rewrite (leaves_block _ _ _ _ HT Hreq)
    |rewrite (leaves_block _ _ _ _ HI Hreq)];
    (eexists; split; [reflexivity|]);
    apply Forall_map, Forall_forall; done.
Qed.

(** X13 at scale 2, the normals. *)
Lemma esGenCube_fully_written_witness :
  exists b, cube_block F32.two positions_and_normals Normals = Some b /\ Forall written b.
Proof.
  apply (esGenCube_fully_written F32.two positions_and_normals Normals); discriminate.
Defined.

(** ** Rounding in a binary format *)

Lemma pow2_pos k : 0 <= k -> 0 < 2 ^ k.
Proof. intros. apply Z.pow_pos_nonneg; lia. Qed.

Lemma pow2_succ k : 0 <= k -> 2 ^ (k + 1) = 2 * 2 ^ k.
Proof. intros. rewrite Z.pow_add_r by lia. lia. Qed.

Lemma pow2_le a b : 0 <= a <= b -> 2 ^ a <= 2 ^ b.
Proof. intros. apply Z.pow_le_mono_r; lia. Qed.

Lemma pow2_lt a b : 0 <= a < b -> 2 ^ a < 2 ^ b.
Proof. intros. apply Z.pow_lt_mono_r; lia. Qed.

(** [le_int] at any scale that clears both exponents. *)
Lemma le_int_scale m e K s :
  0 <= s -> 0 <= e + s ->
  le_int m e K <-> m * 2 ^ (e + s) <= K * 2 ^ s.
Proof.
  intros Hs Hes. unfold le_int.
  set (t := s - Z.max (- e) 0).
  assert (0 <= t) by (unfold t; lia).
  assert (2 ^ (e + s) = 2 ^ Z.max e 0 * 2 ^ t) as ->
    by (rewrite <- Z.pow_add_r by lia; f_equal; unfold t; lia).
  assert (2 ^ s = 2 ^ Z.max (- e) 0 * 2 ^ t) as ->
    by (rewrite <- Z.pow_add_r by lia; f_equal; unfold t; lia).
  pose proof (pow2_pos t ltac:(lia)) as Ht.
  rewrite !Z.mul_assoc.
  split; intros Hle.
  - apply Z.mul_le_mono_nonneg_r; lia.
  - apply Z.mul_le_mono_pos_r in Hle; lia.
Qed.

Lemma le_int_mono m m' e K : m' <= m -> le_int m e K -> le_int m' e K.
Proof.
  unfold le_int. intros Hm Hle.
  pose proof (pow2_pos (Z.max e 0) ltac:(lia)).
  assert (m' * 2 ^ Z.max e 0 <= m * 2 ^ Z.max e 0)
    by (apply Z.mul_le_mono_nonneg_r; lia).
  lia.
Qed.

(** Moving a power of two between the mantissa and the exponent. *)
Lemma le_int_shift m e d K :
  0 <= d -> le_int (m * 2 ^ d) (e - d) K <-> le_int m e K.
Proof.
  intros Hd.
  rewrite (le_int_scale (m * 2 ^ d) (e - d) K (Z.max (- e) 0 + d)) by lia.
  rewrite (le_int_scale m e K (Z.max (- e) 0 + d)) by lia.
  replace (e + (Z.max (- e) 0 + d)) with (d + (e - d + (Z.max (- e) 0 + d))) by lia.
  rewrite (Z.pow_add_r 2 d) by lia.
  by rewrite Z.mul_assoc.
Qed.

Lemma le_int_neg m e K : e <= 0 -> le_int m e K <-> m <= K * 2 ^ (- e).
Proof.
  intros He. rewrite (le_int_scale m e K (- e)) by lia.
  replace (e + - e) with 0 by lia. by rewrite Z.pow_0_r, Z.mul_1_r.
Qed.

Lemma le_int_pos m e K : 0 <= e -> le_int m e K <-> m * 2 ^ e <= K.
Proof.
  intros He. rewrite (le_int_scale m e K 0) by lia.
  by rewrite Z.add_0_r, Z.pow_0_r, Z.mul_1_r.
Qed.

(** ** Digits *)

Lemma digits2_pos_spec p :
  2 ^ (Zpos (digits2_pos p) - 1) <= Zpos p < 2 ^ Zpos (digits2_pos p).
Proof.
  induction p as [p IH|p IH|]; cbn [digits2_pos].
  - rewrite Pos2Z.inj_succ. unfold Z.succ.
    replace (Zpos (digits2_pos p) + 1 - 1) with (Zpos (digits2_pos p) - 1 + 1) by lia.
    rewrite !pow2_succ by lia. lia.
  - rewrite Pos2Z.inj_succ. unfold Z.succ.
    replace (Zpos (digits2_pos p) + 1 - 1) with (Zpos (digits2_pos p) - 1 + 1) by lia.
    rewrite !pow2_succ by lia. lia.
  - cbn. lia.
Qed.

Lemma digits2_pos_ge p k : 0 <= k -> 2 ^ k <= Zpos p -> k + 1 <= Zpos (digits2_pos p).
Proof.
  intros Hk Hp. destruct (digits2_pos_spec p) as [_ Hlt].
  destruct (Z_lt_le_dec (Zpos (digits2_pos p)) (k + 1)) as [Hd|Hd]; [exfalso|done].
  pose proof (pow2_le (Zpos (digits2_pos p)) k ltac:(lia)). lia.
Qed.

Lemma digits2_pos_le p k : 0 <= k -> Zpos p < 2 ^ k -> Zpos (digits2_pos p) <= k.
Proof.
  intros Hk Hp. destruct (digits2_pos_spec p) as [Hge _].
  destruct (Z_le_gt_dec (Zpos (digits2_pos p)) k) as [Hd|Hd]; [done|exfalso].
  pose proof (pow2_le k (Zpos (digits2_pos p) - 1) ltac:(lia)). lia.
Qed.

Lemma iter_xO_pow p k : Zpos (Pos.iter xO p k) = Zpos p * 2 ^ Zpos k.
Proof.
  induction k as [|k IH] using Pos.peano_ind.
  - cbn. lia.
  - rewrite Pos.iter_succ, Pos2Z.inj_succ. unfold Z.succ.
    rewrite pow2_succ by lia. rewrite Pos2Z.inj_xO, IH. lia.
Qed.

(** ** Shifting right *)

Lemma iter_pos_ind {A} (f : A -> A) (Q : Z -> A -> Prop) :
  (forall j x, 0 <= j -> Q j x -> Q (j + 1) (f x)) ->
  forall n j x, 0 <= j -> Q j x -> Q (j + Zpos n) (SpecFloat.iter_pos f n x).
Proof.
  intros Hstep. induction n as [n IH|n IH|]; intros j x Hj HQ; cbn [SpecFloat.iter_pos].
  - replace (j + Zpos n~1) with (j + 1 + Zpos n + Zpos n) by lia.
    apply IH; [lia|]. apply IH; [lia|]. by apply Hstep.
  - replace (j + Zpos n~0) with (j + Zpos n + Zpos n) by lia.
    apply IH; [lia|]. by apply IH.
  - by apply Hstep.
Qed.

Lemma shifted_start N : 0 <= N -> shifted N 0 (shr_record_of_loc N loc_Exact).
Proof.
  intros HN. split; [done|]. exists 0. cbn. split; [lia|]. split; [lia|done].
Qed.

Lemma shifted_step N j r : 0 <= j -> shifted N j r -> shifted N (j + 1) (shr_1 r).
Proof.
  intros Hj [Hm (rem & HN & Hrem & Hflag)].
  pose proof (pow2_pos j Hj) as Hpow.
  unfold shifted. rewrite pow2_succ by done.
  destruct r as [m rb sb]. cbn [shr_m shr_r shr_s] in *.
  destruct m as [|[p|p|]|p]; [| | | |lia]; cbn [shr_1 shr_m shr_r shr_s orb].
  - split; [done|]. exists rem. split; [lia|]. split; [lia|].
    intros Hf. apply Hflag. by destruct rb, sb.
  - split; [lia|]. exists (2 ^ j + rem). split; [lia|]. split; [lia|]. lia.
  - split; [lia|]. exists rem. split; [lia|]. split; [lia|].
    intros Hf. apply Hflag. by destruct rb, sb.
  - split; [lia|]. exists (2 ^ j + rem). split; [lia|]. split; [lia|]. lia.
Qed.

Lemma shifted_iter N k :
  0 <= N -> shifted N (Zpos k) (SpecFloat.iter_pos shr_1 k (shr_record_of_loc N loc_Exact)).
Proof.
  intros HN.
  apply (iter_pos_ind shr_1 (shifted N) (shifted_step N) k 0); [lia|].
  by apply shifted_start.
Qed.

(** Rounding what is left to the nearest: between the integers next to
    [N / 2^j]. *)
Lemma round_shifted N j r :
  0 <= j -> shifted N j r ->
  let m1 := round_nearest_even (shr_m r) (loc_of_shr_record r) in
  0 <= m1 /\
  (forall B, N <= B * 2 ^ j -> m1 <= B) /\
  (forall L, L * 2 ^ j <= N -> L <= m1).
Proof.
  intros Hj [Hm (rem & HN & Hrem & Hflag)] m1.
  pose proof (pow2_pos j Hj) as Hpow.
  assert (m1 = shr_m r \/ (m1 = shr_m r + 1 /\ 0 < rem)) as Hm1.
  { subst m1. destruct r as [m [|] [|]]; cbn in *;
      try (destruct (Z.even m)); auto. }
  split; [lia|]. split.
  - intros B HB.
    assert (shr_m r * 2 ^ j <= B * 2 ^ j) as Hle by lia.
    apply Z.mul_le_mono_pos_r in Hle; [|done].
    destruct Hm1 as [->|[-> Hpos]]; [done|].
    destruct (decide (shr_m r = B)) as [Heq|]; [|lia].
    rewrite Heq in HN. lia.
  - intros L HL.
    assert (L * 2 ^ j < (shr_m r + 1) * 2 ^ j) as Hlt by lia.
    apply Z.mul_lt_mono_pos_r in Hlt; [|done]. lia.
Qed.

(** ** Rounding *)

Section Rounding.

Variables prec emax : Z.
Hypothesis Hprec : 0 < prec.
Hypothesis Hemax : prec < emax.

Lemma fexp_spec x : fexp prec emax x = Z.max (x - prec) (3 - emax - prec).
Proof. reflexivity. Qed.

Lemma bounded_spec m e :
  bounded prec emax m e = true <->
  fexp prec emax (Zpos (digits2_pos m) + e) = e /\ e <= emax - prec.
Proof.
  unfold bounded, canonical_mantissa.
  rewrite andb_true_iff, Z.eqb_eq, Z.leb_le. done.
Qed.

(** The second half of [binary_round_aux]: a rounded mantissa of up to
    [prec + 1] digits is put back on [prec] digits. *)
Lemma binary_round_aux_finish s n0 e0 m1 E :
  0 <= m1 <= 2 ^ prec ->
  3 - emax - prec <= E ->
  (3 - emax - prec < E -> 2 ^ (prec - 1) <= m1) ->
  (forall K, 0 <= K < 2 ^ prec -> le_int n0 e0 K -> le_int m1 E K) ->
  rounds_to prec emax s n0 e0
    (let '(mrs, e2) := shr_fexp prec emax m1 E loc_Exact in
     match shr_m mrs with
     | Z0 => S754_zero s
     | Zpos m => if e2 <=? emax - prec then S754_finite s m e2 else S754_infinity s
     | Zneg _ => S754_nan
     end).
Proof.
  intros Hm1 HE Hnorm Hbound. unfold shr_fexp.
  pose proof (pow2_pos (prec - 1) ltac:(lia)) as Hhalf.
  assert (2 ^ prec = 2 * 2 ^ (prec - 1)) as Hpow
    by (rewrite <- pow2_succ by lia; f_equal; lia).
  destruct m1 as [|p1|p1]; [| |lia].
  - cbn [Zdigits2]. rewrite fexp_spec.
    destruct (Z.max (0 + E - prec) (3 - emax - prec) - E) eqn:Hk; [|lia|];
      by cbn.
  - cbn [Zdigits2]. rewrite fexp_spec.
    pose proof (digits2_pos_spec p1) as Hd.
    assert (Zpos (digits2_pos p1) <= prec + 1) as Hd1.
    { apply digits2_pos_le; [lia|]. rewrite pow2_succ by lia. lia. }
    set (d1 := Zpos (digits2_pos p1)) in *.
    destruct (Z_le_gt_dec d1 prec) as [Hle|Hgt].
    + (* the mantissa fits *)
      assert (fexp prec emax (d1 + E) = E) as Hcanon.
      { rewrite fexp_spec. destruct (Z_le_gt_dec E (3 - emax - prec)); [lia|].
        assert (prec <= d1); [|lia].
        pose proof (digits2_pos_ge p1 (prec - 1) ltac:(lia) ltac:(lia)). lia. }
      rewrite fexp_spec in Hcanon. rewrite Hcanon, Z.sub_diag.
      cbn [shr shr_record_of_loc shr_m].
      destruct (Z.leb_spec E (emax - prec)) as [Hfin|Hinf]; cbn [rounds_to].
      * split; [done|]. split; [|exact Hbound].
        apply bounded_spec. by rewrite fexp_spec.
      * split; [done|]. intros K HK HleK. apply Hbound in HleK; [|done].
        apply (le_int_scale _ _ _ 0) in HleK; [|lia..].
        rewrite Z.add_0_r, Z.pow_0_r, Z.mul_1_r in HleK.
        pose proof (pow2_le 1 E ltac:(lia)) as HE2. change (2 ^ 1) with 2 in HE2.
        assert (2 ^ (prec - 1) * 2 <= Zpos p1 * 2 ^ E)
          by (apply Z.mul_le_mono_nonneg; lia).
        lia.
    + (* the mantissa is [2^prec]: one more shift *)
      assert (d1 = prec + 1) as Hd1' by lia.
      assert (Zpos p1 = 2 ^ prec) as Hp1.
      { rewrite Hd1' in Hd. replace (prec + 1 - 1) with prec in Hd by lia. lia. }
      replace (Z.max (d1 + E - prec) (3 - emax - prec) - E) with 1 by lia.
      cbn [shr SpecFloat.iter_pos shr_record_of_loc].
      destruct p1 as [p'|p'|]; [lia| |lia].
      cbn [shr_1 shr_m orb].
      assert (Zpos p' = 2 ^ (prec - 1)) as Hp' by lia.
      assert (Zpos (digits2_pos p') = prec) as Hd'.
      { apply Z.le_antisymm.
        - apply digits2_pos_le; [lia|]. rewrite Hp'. apply pow2_lt. lia.
        - pose proof (digits2_pos_ge p' (prec - 1) ltac:(lia) ltac:(lia)). lia. }
      assert (forall K, 0 <= K < 2 ^ prec -> le_int n0 e0 K ->
                le_int (Zpos p') (E + 1) K) as Hbound'.
      { intros K HK HleK. apply Hbound in HleK; [|done].
        apply (le_int_shift (Zpos p') (E + 1) 1 K); [lia|].
        replace (E + 1 - 1) with E by lia. change (2 ^ 1) with 2.
        replace (Zpos p' * 2) with (Zpos p'~0) by lia. exact HleK. }
      destruct (Z.leb_spec (E + 1) (emax - prec)) as [Hfin|Hinf]; cbn [rounds_to].
      * split; [done|]. split; [|exact Hbound'].
        apply bounded_spec. rewrite Hd', fexp_spec. lia.
      * split; [done|]. intros K HK HleK. apply Hbound' in HleK; [|done].
        apply (le_int_scale _ _ _ 0) in HleK; [|lia..].
        rewrite Z.add_0_r, Z.pow_0_r, Z.mul_1_r in HleK.
        pose proof (pow2_le 1 (E + 1) ltac:(lia)) as HE2. change (2 ^ 1) with 2 in HE2.
        assert (2 ^ (prec - 1) * 2 <= Zpos p' * 2 ^ (E + 1))
          by (apply Z.mul_le_mono_nonneg; lia).
        lia.
Qed.

(** Rounding a mantissa that is at least as fine as the format asks. *)
Lemma binary_round_aux_fine s n e :
  e <= fexp prec emax (Zpos (digits2_pos n) + e) ->
  rounds_to prec emax s (Zpos n) e
    (binary_round_aux prec emax s (Zpos n) e loc_Exact).
Proof.
  intros Hfine. unfold binary_round_aux.
  pose proof (digits2_pos_spec n) as Hd.
  set (d := Zpos (digits2_pos n)) in *.
  set (E := fexp prec emax (d + e)) in *.
  assert (3 - emax - prec <= E) as HE by (unfold E; rewrite fexp_spec; lia).
  assert (d + e - prec <= E) as HE' by (unfold E; rewrite fexp_spec; lia).
  assert (3 - emax - prec < E -> E = d + e - prec) as Hnormal
    by (unfold E; rewrite fexp_spec; lia).
  pose proof (pow2_pos (prec - 1) ltac:(lia)) as Hhalf.
  assert (2 ^ prec = 2 * 2 ^ (prec - 1)) as Hpow
    by (rewrite <- pow2_succ by lia; f_equal; lia).
  (* no integer below [2^prec] bounds a number rounded at a positive exponent *)
  assert (0 < E -> forall K, 0 <= K < 2 ^ prec -> ~ le_int (Zpos n) e K) as Hbig.
  { intros HEpos K HK Hle.
    pose proof (Hnormal ltac:(lia)) as HEd.
    set (sc := Z.max (- e) 0) in *.
    apply (le_int_scale _ _ _ sc) in Hle; [|unfold sc; lia..].
    pose proof (pow2_pos sc ltac:(unfold sc; lia)) as HB.
    pose proof (pow2_pos (e + sc) ltac:(unfold sc; lia)) as HA.
    assert (2 ^ (d - 1) * 2 ^ (e + sc) <= Zpos n * 2 ^ (e + sc)) as H1
      by (apply Z.mul_le_mono_nonneg_r; lia).
    assert (2 ^ prec * 2 ^ sc <= 2 ^ (d - 1) * 2 ^ (e + sc)) as H2.
    { rewrite <- !Z.pow_add_r by (unfold sc; lia). apply pow2_le. unfold sc. lia. }
    assert (K * 2 ^ sc < 2 ^ prec * 2 ^ sc) as H3
      by (apply Z.mul_lt_mono_pos_r; lia).
    lia. }
  unfold shr_fexp at 1. cbn [Zdigits2]. fold d. fold E.
  destruct (E - e) as [|k|k] eqn:Hk; [| |lia].
  - (* no shift *)
    cbn [shr shr_record_of_loc shr_m loc_of_shr_record round_nearest_even].
    assert (E = e) as HEe by lia.
    apply binary_round_aux_finish.
    + assert (d <= prec) by lia.
      pose proof (pow2_le d prec ltac:(lia)). lia.
    + lia.
    + intros Hn. pose proof (Hnormal ltac:(lia)).
      replace (prec - 1) with (d - 1) by lia. lia.
    + done.
  - (* a shift of [k] digits *)
    cbn [shr].
    pose proof (shifted_iter (Zpos n) k ltac:(lia)) as Hsh.
    destruct (round_shifted (Zpos n) (Zpos k) _ ltac:(lia) Hsh) as (Hm0 & Hup & Hdown).
    set (m1 := round_nearest_even _ _) in *.
    replace (e + Zpos k) with E by lia.
    pose proof (pow2_pos (Zpos k) ltac:(lia)) as Hpk.
    apply binary_round_aux_finish.
    + split; [done|]. apply Hup.
      rewrite <- Z.pow_add_r by lia.
      pose proof (pow2_le d (prec + Zpos k) ltac:(lia)). lia.
    + done.
    + intros Hn. pose proof (Hnormal Hn). apply Hdown.
      rewrite <- Z.pow_add_r by lia.
      replace (prec - 1 + Zpos k) with (d - 1) by lia. lia.
    + intros K HK Hle.
      destruct (Z_le_gt_dec E 0) as [HE0|HE0]; [|by destruct (Hbig ltac:(lia) K HK)].
      apply (le_int_scale _ _ _ (- E)); [lia..|].
      replace (E + - E) with 0 by lia. rewrite Z.pow_0_r, Z.mul_1_r.
      apply Hup.
      apply (le_int_scale _ _ _ (- e)) in Hle; [|lia..].
      replace (e + - e) with 0 in Hle by lia. rewrite Z.pow_0_r, Z.mul_1_r in Hle.
      rewrite <- Z.mul_assoc, <- Z.pow_add_r by lia.
      by replace (- E + Zpos k) with (- e) by lia.
Qed.

(** Rounding any mantissa: [binary_round] first makes it fine enough. *)
Lemma binary_round_spec s n e :
  rounds_to prec emax s (Zpos n) e (binary_round prec emax s n e).
Proof.
  unfold binary_round, shl_align.
  set (d := Zpos (digits2_pos n)).
  destruct (fexp prec emax (d + e) - e) as [|k|k] eqn:Hk.
  - apply binary_round_aux_fine. fold d. lia.
  - apply binary_round_aux_fine. fold d. lia.
  - pose proof (binary_round_aux_fine s (Pos.iter xO n k) (fexp prec emax (d + e))) as H.
    rewrite digits2_pos_iter_xO in H. fold d in H.
    replace (d + Zpos k + fexp prec emax (d + e)) with (d + e) in H by lia.
    specialize (H ltac:(lia)).
    destruct (binary_round_aux _ _ _ _ _ _) as [s'|s'| |s' m' e']; [done| |done|].
    + destruct H as [-> H]. split; [done|]. intros K HK Hle. apply (H K HK).
      rewrite iter_xO_pow.
      replace (fexp prec emax (d + e)) with (e - Zpos k) by lia.
      by apply le_int_shift.
    + destruct H as (-> & Hb & H). split; [done|]. split; [done|].
      intros K HK Hle. apply (H K HK).
      rewrite iter_xO_pow.
      replace (fexp prec emax (d + e)) with (e - Zpos k) by lia.
      by apply le_int_shift.
Qed.

End Rounding.

(** ** Numbers on one side of an integer *)

Lemma shl_align_fst mx ex ez :
  ez <= ex -> Zpos (fst (shl_align mx ex ez)) = Zpos mx * 2 ^ (ex - ez).
Proof.
  intros Hle. unfold shl_align.
  destruct (ez - ex) as [|k|k] eqn:Hk; cbn [fst].
  - replace (ex - ez) with 0 by lia. cbn. lia.
  - lia.
  - rewrite iter_xO_pow. f_equal. f_equal. lia.
Qed.

Lemma le_int_align mx ex ez K :
  ez <= ex -> le_int (Zpos (fst (shl_align mx ex ez))) ez K <-> le_int (Zpos mx) ex K.
Proof.
  intros Hle. rewrite shl_align_fst by done.
  replace ez with (ex - (ex - ez)) at 2 by lia.
  apply le_int_shift. lia.
Qed.

Section Arithmetic.

Variables prec emax : Z.
Hypothesis Hprec : 0 < prec.
Hypothesis Hemax : prec < emax.

Lemma binary_normalize_spec M e :
  match M with
  | Z0 => binary_normalize prec emax M e false = S754_zero false
  | Zpos n => rounds_to prec emax false (Zpos n) e (binary_normalize prec emax M e false)
  | Zneg n => rounds_to prec emax true (Zpos n) e (binary_normalize prec emax M e false)
  end.
Proof. destruct M; [done|apply binary_round_spec; done..]. Qed.

(** A rounded number is a number of the format. *)
Lemma rounds_to_valid s n e r :
  rounds_to prec emax s n e r -> valid_binary prec emax r = true /\ r <> S754_nan.
Proof. destruct r; cbn; try done. by intros (_ & -> & _). Qed.

Lemma rounds_to_at_most K n e r :
  0 <= K < 2 ^ prec -> le_int n e K ->
  rounds_to prec emax false n e r -> at_most K r.
Proof.
  intros HK Hle. destruct r as [s|s| |s m' e']; cbn; try done.
  - intros [_ Hno]. by destruct (Hno K HK).
  - intros (_ & _ & Hb). right. by apply Hb.
Qed.

Lemma rounds_to_at_least_neg K n e r :
  0 <= K < 2 ^ prec -> le_int n e K ->
  rounds_to prec emax true n e r -> at_least_neg K r.
Proof.
  intros HK Hle. destruct r as [s|s| |s m' e']; cbn; try done.
  - intros [_ Hno]. by destruct (Hno K HK).
  - intros (_ & _ & Hb). right. by apply Hb.
Qed.

Lemma rounds_to_negative K n e r :
  rounds_to prec emax true n e r -> at_most K r.
Proof.
  destruct r as [s|s| |s m' e']; cbn; try done.
  - by intros [-> _].
  - intros (-> & _). by left.
Qed.

Lemma rounds_to_positive K n e r :
  rounds_to prec emax false n e r -> at_least_neg K r.
Proof.
  destruct r as [s|s| |s m' e']; cbn; try done.
  - by intros [-> _].
  - intros (-> & _). by left.
Qed.

(** Adding something that is not negative to a number that is at least
    [-K] gives a number that is at least [-K]. *)
Lemma add_at_least_neg K x y :
  0 <= K < 2 ^ prec ->
  is_finite x -> valid_binary prec emax x = true -> at_least_neg K x ->
  not_negative y -> valid_binary prec emax y = true ->
  let r := SFadd prec emax x y in
  valid_binary prec emax r = true /\ at_least_neg K r.
Proof.
  intros HK Hfx Hvx Hx Hy Hvy.
  destruct x as [sx|sx| |sx mx ex]; try done;
    destruct y as [sy|sy| |sy my ey]; try done; cbn [SFadd];
    try solve [by destruct sx, sy | done
              | cbn in Hy; subst sy; split; [done|by left] ].
  - cbn in Hy. subst sy.
    set (ez := Z.min ex ey).
    pose proof (shl_align_fst mx ex ez ltac:(lia)) as Hmx.
    pose proof (shl_align_fst my ey ez ltac:(lia)) as Hmy.
    cbn [cond_Zopp].
    pose proof (binary_normalize_spec
                  (cond_Zopp sx (Zpos (fst (shl_align mx ex ez)))
                   + Zpos (fst (shl_align my ey ez))) ez) as Hspec.
    destruct (cond_Zopp sx (Zpos (fst (shl_align mx ex ez)))
              + Zpos (fst (shl_align my ey ez))) as [|n|n] eqn:HM.
    + by rewrite Hspec.
    + split; [by apply (rounds_to_valid _ _ _ _ Hspec)|].
      by apply (rounds_to_positive K _ _ _ Hspec).
    + split; [by apply (rounds_to_valid _ _ _ _ Hspec)|].
      eapply rounds_to_at_least_neg; [exact HK| |exact Hspec].
      destruct sx; cbn [cond_Zopp] in HM; [|lia].
      destruct Hx as [|Hx]; [done|].
      apply (le_int_mono (Zpos (fst (shl_align mx ex ez)))); [lia|].
      by apply le_int_align; [lia|].
Qed.

(** Taking something that is not negative from a number that is at most
    [K] gives a number that is at most [K]. *)
Lemma sub_at_most K x y :
  0 <= K < 2 ^ prec ->
  is_finite x -> at_most K x -> not_negative y ->
  at_most K (SFsub prec emax x y).
Proof.
  intros HK Hfx Hx Hy.
  destruct x as [sx|sx| |sx mx ex]; try done;
    destruct y as [sy|sy| |sy my ey]; try done; cbn [SFsub];
    try solve [by destruct sx, sy | done | cbn in Hy; by subst sy
              | cbn in Hy; subst sy; by left ].
  - cbn in Hy. subst sy.
    set (ez := Z.min ex ey).
    pose proof (shl_align_fst mx ex ez ltac:(lia)) as Hmx.
    pose proof (shl_align_fst my ey ez ltac:(lia)) as Hmy.
    cbn [cond_Zopp].
    pose proof (binary_normalize_spec
                  (cond_Zopp sx (Zpos (fst (shl_align mx ex ez)))
                   - Zpos (fst (shl_align my ey ez))) ez) as Hspec.
    destruct (cond_Zopp sx (Zpos (fst (shl_align mx ex ez)))
              - Zpos (fst (shl_align my ey ez))) as [|n|n] eqn:HM.
    + by rewrite Hspec.
    + eapply rounds_to_at_most; [exact HK| |exact Hspec].
      destruct sx; cbn [cond_Zopp] in HM; [lia|].
      destruct Hx as [|Hx]; [done|].
      apply (le_int_mono (Zpos (fst (shl_align mx ex ez)))); [lia|].
      by apply le_int_align; [lia|].
    + by apply (rounds_to_negative K _ _ _ Hspec).
Qed.

(** Rounding a number that is at most [K] to the format, as a conversion
    does. *)
Lemma convert_at_most K x :
  0 <= K < 2 ^ prec -> at_most K x ->
  let r := match x with
           | S754_finite s m e =>
             binary_normalize prec emax (cond_Zopp s (Zpos m)) e false
           | _ => x
           end in
  valid_binary prec emax r = true /\ at_most K r.
Proof.
  intros HK Hx. destruct x as [sx|sx| |sx mx ex]; try done.
  destruct sx; cbn [cond_Zopp].
  - pose proof (binary_normalize_spec (Zneg mx) ex) as Hspec. cbn beta iota in Hspec.
    split; [by apply (rounds_to_valid _ _ _ _ Hspec)|].
    by apply (rounds_to_negative K _ _ _ Hspec).
  - pose proof (binary_normalize_spec (Zpos mx) ex) as Hspec. cbn beta iota in Hspec.
    split; [by apply (rounds_to_valid _ _ _ _ Hspec)|].
    destruct Hx as [|Hx]; [done|].
    eapply rounds_to_at_most; [exact HK|exact Hx|exact Hspec].
Qed.

Lemma convert_is_finite K x :
  0 <= K < 2 ^ prec -> is_finite x -> at_most K x -> at_least_neg K x ->
  is_finite match x with
            | S754_finite s m e =>
              binary_normalize prec emax (cond_Zopp s (Zpos m)) e false
            | _ => x
            end.
Proof.
  intros HK Hfx Hhi Hlo. destruct x as [sx|sx| |sx mx ex]; try done.
  assert (le_int (Zpos mx) ex K) as Hle.
  { destruct sx; [by destruct Hlo|by destruct Hhi]. }
  destruct sx; cbn [cond_Zopp].
  - pose proof (binary_normalize_spec (Zneg mx) ex) as Hspec. cbn beta iota in Hspec.
    destruct (binary_normalize _ _ _ _ _) as [s|s| |s m' e']; try done.
    destruct Hspec as [_ Hno]. by destruct (Hno K HK).
  - pose proof (binary_normalize_spec (Zpos mx) ex) as Hspec. cbn beta iota in Hspec.
    destruct (binary_normalize _ _ _ _ _) as [s|s| |s m' e']; try done.
    destruct Hspec as [_ Hno]. by destruct (Hno K HK).
Qed.

(** The product of two numbers that are not negative is not negative;
    the second one is finite with a full mantissa. *)
Lemma mul_not_negative x my ey :
  prec <= Zpos (digits2_pos my) ->
  not_negative x ->
  let r := SFmul prec emax x (S754_finite false my ey) in
  valid_binary prec emax r = true /\ not_negative r.
Proof.
  intros Hdy Hx. destruct x as [sx|sx| |sx mx ex]; try done; cbn [SFmul].
  - cbn in Hx. by subst sx.
  - cbn in Hx. subst sx. cbn [xorb].
    pose proof (binary_round_aux_fine prec emax Hprec Hemax false (mx * my) (ex + ey))
      as Hspec.
    assert (ex + ey <= fexp prec emax (Zpos (digits2_pos (mx * my)) + (ex + ey))) as Hfine.
    { rewrite fexp_spec.
      pose proof (digits2_pos_spec my) as Hmy.
      pose proof (digits2_pos_ge (mx * my) (Zpos (digits2_pos my) - 1) ltac:(lia)) as Hd.
      assert (Zpos my <= Zpos (mx * my)) by (rewrite Pos2Z.inj_mul; nia).
      specialize (Hd ltac:(lia)). lia. }
    specialize (Hspec Hfine).
    split; [by apply (rounds_to_valid _ _ _ _ Hspec)|].
    destruct (binary_round_aux _ _ _ _ _ _) as [s|s| |s m' e']; cbn in *; try done.
    + by destruct Hspec.
    + by destruct Hspec.
Qed.

End Arithmetic.

(** ** Exact operations, and the last row of texture coordinates *)

Section Exact.

Variables prec emax : Z.

(** Rounding [m * 2^k] written on more digits than it needs, [k] zeros at
    the end, is exact when [m] fits the format. *)
Lemma binary_round_aux_exact s m k e :
  fexp prec emax (Zpos (digits2_pos m) + Zpos k + e) = e + Zpos k ->
  e + Zpos k <= emax - prec ->
  binary_round_aux prec emax s (Zpos (Pos.iter xO m k)) e loc_Exact
  = S754_finite s m (e + Zpos k).
Proof.
  intros Hcanon Hmax. unfold binary_round_aux, shr_fexp at 1.
  cbn [Zdigits2]. rewrite digits2_pos_iter_xO, Hcanon.
  replace (e + Zpos k - e) with (Zpos k) by lia. cbn [shr].
  pose proof (shifted_iter (Zpos (Pos.iter xO m k)) k ltac:(lia)) as Hsh.
  destruct Hsh as [Hm0 (rem & HN & Hrem & Hflag)].
  set (r := SpecFloat.iter_pos shr_1 k _) in *.
  pose proof (pow2_pos (Zpos k) ltac:(lia)) as Hpk.
  rewrite iter_xO_pow in HN.
  assert (rem = 0 /\ shr_m r = Zpos m) as [-> Hr].
  { assert (rem = (Zpos m - shr_m r) * 2 ^ Zpos k) as Heq by lia.
    destruct (Z_lt_le_dec (Zpos m - shr_m r) 1) as [Hlt|Hge].
    - destruct (Z_lt_le_dec (Zpos m - shr_m r) 0) as [Hneg|Hz]; [nia|].
      assert (Zpos m - shr_m r = 0) as H0 by lia. rewrite H0 in Heq. lia.
    - assert (1 * 2 ^ Zpos k <= (Zpos m - shr_m r) * 2 ^ Zpos k)
        by (apply Z.mul_le_mono_nonneg_r; lia).
      lia. }
  assert (loc_of_shr_record r = loc_Exact) as ->.
  { destruct r as [mr [|] [|]]; cbn in Hflag |- *; try done;
      by specialize (Hflag eq_refl). }
  cbn [round_nearest_even]. rewrite Hr.
  unfold shr_fexp. cbn [Zdigits2].
  replace (Zpos (digits2_pos m) + (e + Zpos k))
    with (Zpos (digits2_pos m) + Zpos k + e) by lia.
  rewrite Hcanon, Z.sub_diag. cbn [shr shr_record_of_loc shr_m].
  by destruct (Z.leb_spec (e + Zpos k) (emax - prec)); [|lia].
Qed.


(** The same, for any number of zeros at the end, none included. *)
Lemma binary_round_aux_exact_Z s n m k e :
  0 <= k -> Zpos n = Zpos m * 2 ^ k ->
  fexp prec emax (Zpos (digits2_pos m) + k + e) = e + k ->
  e + k <= emax - prec ->
  binary_round_aux prec emax s (Zpos n) e loc_Exact = S754_finite s m (e + k).
Proof.
  intros Hk Hn Hcanon Hmax. destruct k as [|k|k]; [| |lia].
  - rewrite Z.pow_0_r, Z.mul_1_r in Hn. injection Hn as ->.
    rewrite !Z.add_0_r in *.
    unfold binary_round_aux, shr_fexp. cbn [Zdigits2].
    rewrite Hcanon, Z.sub_diag.
    cbn [shr shr_record_of_loc shr_m loc_of_shr_record round_nearest_even Zdigits2].
    rewrite Hcanon, Z.sub_diag. cbn [shr shr_m].
    by destruct (Z.leb_spec e (emax - prec)); [|lia].
  - rewrite <- iter_xO_pow in Hn. injection Hn as ->.
    by apply binary_round_aux_exact.
Qed.

(** Rounding a number that the format holds gives that number: [m] on
    [prec] digits, or fewer at the least exponent, and the same value. *)
Lemma binary_round_exact s n e m e' :
  Zpos n * 2 ^ (e - Z.min e e') = Zpos m * 2 ^ (e' - Z.min e e') ->
  bounded prec emax m e' = true ->
  binary_round prec emax s n e = S754_finite s m e'.
Proof.
  intros Hval [Hcanon Hmax]%bounded_spec. unfold binary_round.
  destruct (Z_lt_le_dec e' e) as [Hlt|Hle].
  - (* [n] has fewer digits than [m]: it is shifted left first *)
    replace (Z.min e e') with e' in Hval by lia.
    rewrite Z.sub_diag, Z.pow_0_r, Z.mul_1_r in Hval.
    destruct (e - e') as [|k|k] eqn:Hk; [lia| |lia].
    rewrite <- iter_xO_pow in Hval. injection Hval as <-.
    rewrite digits2_pos_iter_xO in Hcanon.
    replace (Zpos (digits2_pos n) + e) with (Zpos (digits2_pos n) + Zpos k + e') by lia.
    rewrite Hcanon. unfold shl_align.
    replace (e' - e) with (Zneg k) by lia.
    replace (S754_finite s (Pos.iter xO n k) e')
      with (S754_finite s (Pos.iter xO n k) (e' + 0)) by (f_equal; lia).
    apply binary_round_aux_exact_Z; [lia|lia| |lia].
    rewrite digits2_pos_iter_xO, !Z.add_0_r. exact Hcanon.
  - (* [n] is [m] and zeros *)
    replace (Z.min e e') with e in Hval by lia.
    rewrite Z.sub_diag, Z.pow_0_r, Z.mul_1_r in Hval.
    assert (Zpos (digits2_pos n) = Zpos (digits2_pos m) + (e' - e)) as Hd.
    { destruct (e' - e) as [|k|k] eqn:Hk; [| |lia].
      - rewrite Z.pow_0_r, Z.mul_1_r in Hval. injection Hval as ->. lia.
      - rewrite <- iter_xO_pow in Hval. injection Hval as ->.
        apply digits2_pos_iter_xO. }
    replace (Zpos (digits2_pos n) + e) with (Zpos (digits2_pos m) + e') by lia.
    rewrite Hcanon. unfold shl_align.
    assert (match e' - e with
            | Zneg d => (Pos.iter xO n d, e')
            | _ => (n, e)
            end = (n, e)) as -> by (destruct (e' - e) eqn:?; [done|done|lia]).
    replace (S754_finite s m e') with (S754_finite s m (e + (e' - e)))
      by (f_equal; lia).
    apply binary_round_aux_exact_Z; [lia|done| |lia].
    replace (Zpos (digits2_pos m) + (e' - e) + e) with (Zpos (digits2_pos m) + e') by lia.
    rewrite Hcanon. lia.
Qed.

End Exact.

(** A positive [int] below [2^24] converts to itself, on 24 digits. *)
Lemma of_int_normal n :
  1 <= n < 2 ^ 24 ->
  exists m e', -23 <= e' <= 0 /\ Zpos m = n * 2 ^ (- e') /\
    bounded F32.prec F32.emax m e' = true /\
    F32.of_int n = S754_finite false m e'.
Proof.
  intros Hn. destruct n as [|p|p]; [lia| |lia].
  pose proof (digits2_pos_spec p) as Hd.
  pose proof (digits2_pos_le p 24 ltac:(lia) ltac:(lia)) as Hd24.
  set (d := Zpos (digits2_pos p)) in *.
  assert (1 <= d) by (unfold d; lia).
  pose proof (pow2_pos (24 - d) ltac:(lia)) as Hpow.
  assert (2 ^ 23 <= Zpos p * 2 ^ (24 - d) < 2 ^ 24) as Hm.
  { assert (2 ^ 23 = 2 ^ (d - 1) * 2 ^ (24 - d)) as ->
      by (rewrite <- Z.pow_add_r by lia; f_equal; lia).
    assert (2 ^ 24 = 2 ^ d * 2 ^ (24 - d)) as ->
      by (rewrite <- Z.pow_add_r by lia; f_equal; lia).
    split.
    - apply Z.mul_le_mono_nonneg_r; lia.
    - apply Z.mul_lt_mono_pos_r; lia. }
  destruct (Zpos p * 2 ^ (24 - d)) as [|m|m] eqn:Hmeq; [lia| |lia].
  assert (Zpos (digits2_pos m) = 24) as Hdm.
  { apply Z.le_antisymm; [apply digits2_pos_le; lia|].
    pose proof (digits2_pos_ge m 23 ltac:(lia) ltac:(lia)). lia. }
  assert (bounded F32.prec F32.emax m (d - 24) = true) as Hb.
  { apply bounded_spec. rewrite Hdm, fexp_spec. unfold F32.prec, F32.emax. lia. }
  exists m, (d - 24). split; [lia|]. split; [|split; [exact Hb|]].
  - rewrite <- Hmeq. f_equal. f_equal. lia.
  - unfold F32.of_int, F32.of_Z_exp, binary_normalize.
    apply binary_round_exact; [|exact Hb].
    replace (Z.min 0 (d - 24)) with (d - 24) by lia.
    rewrite Z.sub_diag, Z.pow_0_r, Z.mul_1_r, <- Hmeq. f_equal. f_equal. lia.
Qed.

(** [1.0f - (float) n] is exact. *)
Lemma one_sub_of_int n :
  2 <= n < 2 ^ 24 -> F32.one -f F32.of_int n = SFopp (F32.of_int (n - 1)).
Proof.
  intros Hn.
  destruct (of_int_normal n ltac:(lia)) as (mp & ep & Hep & Hmp & _ & ->).
  destruct (of_int_normal (n - 1) ltac:(lia)) as (m & e' & He' & Hm & Hb & ->).
  change F32.one with (S754_finite false 8388608 (-23)).
  unfold F32.sub, SFsub. cbn [cond_Zopp SFopp negb].
  replace (Z.min (-23) ep) with (-23) by lia.
  pose proof (shl_align_fst 8388608 (-23) (-23) ltac:(lia)) as H1.
  pose proof (shl_align_fst mp ep (-23) ltac:(lia)) as H2.
  rewrite Hmp in H2. rewrite <- Z.mul_assoc, <- Z.pow_add_r in H2 by lia.
  replace (- ep + (ep - -23)) with 23 in H2 by lia.
  change (-23 - -23) with 0 in H1. rewrite Z.pow_0_r in H1.
  change (2 ^ 23) with 8388608 in H2.
  destruct (Zpos (fst (shl_align 8388608 (-23) (-23)))
            - Zpos (fst (shl_align mp ep (-23)))) as [|q|q] eqn:HM; [lia|lia|].
  unfold binary_normalize.
  apply binary_round_exact; [|exact Hb].
  replace (Z.min (-23) e') with (-23) by lia.
  rewrite Z.sub_diag, Z.pow_0_r, Z.mul_1_r, Hm.
  rewrite <- Z.mul_assoc, <- Z.pow_add_r by lia.
  replace (- e' + (e' - -23)) with 23 by lia.
  change (2 ^ 23) with 8388608. lia.
Qed.

(** Two finite numbers of the same magnitude: the quotient is 1 or -1. *)
Lemma div_same_magnitude s1 s2 m e :
  S754_finite s1 m e /f S754_finite s2 m e
  = S754_finite (xorb s1 s2) 8388608 (-23).
Proof.
  unfold F32.div, SFdiv, SFdiv_core_binary.
  replace (Z.min (fexp F32.prec F32.emax (Zdigits2 (Zpos m) + e - (Zdigits2 (Zpos m) + e)))
                 (e - e)) with (-24)
    by (unfold fexp, emin, F32.prec, F32.emax; lia).
  replace (e - e - -24) with 24 by lia.
  assert (Z.div_eucl (Z.shiftl (Zpos m) 24) (Zpos m) = (2 ^ 24, 0)) as ->.
  { rewrite Z.shiftl_mul_pow2 by lia.
    pose proof (Z.div_eucl_eq (Zpos m * 2 ^ 24) (Zpos m) ltac:(lia)) as Heq.
    pose proof (Z.mod_pos_bound (Zpos m * 2 ^ 24) (Zpos m) ltac:(lia)) as Hr.
    unfold Z.modulo in Hr.
    destruct (Z.div_eucl (Zpos m * 2 ^ 24) (Zpos m)) as [q r].
    assert (q = 2 ^ 24) by nia. subst q. f_equal. lia. }
  assert (new_location (Zpos m) 0 = loc_Exact) as ->.
  { unfold new_location. by destruct (Z.even (Zpos m)). }
  by destruct (xorb s1 s2).
Qed.

(** X16: from 4 slices on, in a call that asks for texture coordinates and
    does not ask for normals without positions, every vertex of the last
    row has [v] exactly -1.0: [1.0f - (float) numParallels] is exact and is
    the opposite of the divisor [(float) (numParallels - 1)].  With X5, [v]
    runs from [1 / (numParallels - 1)] on the first row through 0 on the
    second down to -1, not from 0 to 1. *)
Theorem esGenSphere_texCoords_last_row sinf cosf numSlices radius o :
  4 <= numSlices <= MAX_SLICES ->
  (get_out Normals o = NullArg \/ get_out Vertices o <> NullArg) ->
  get_out TexCoords o <> NullArg ->
  exists h' b,
    esGenSphere sinf cosf numSlices radius (start o)
      = (h', Ok (numSlices / 2 * numSlices * 6)) /\
    block_of TexCoords h' = Some b /\
    forall j, 0 <= j <= numSlices ->
      tex_v numSlices b (numSlices / 2) j = Some (FVal neg_one).
Proof.
  intros Hs Hwf Hreq.
  destruct (sphere_tex_block sinf cosf numSlices radius o ltac:(lia) Hwf Hreq)
    as (h' & b & Hrun & Hb & _ & Hcells).
  exists h', b. split; [exact Hrun|]. split; [exact Hb|].
  unfold MAX_SLICES in Hs.
  assert (2 <= numSlices / 2 <= 13377) as HP by (Z.div_mod_to_equations; lia).
  intros j Hj. destruct (Hcells (numSlices / 2) j ltac:(lia) Hj) as [_ ->].
  rewrite one_sub_of_int by lia.
  destruct (of_int_finite (numSlices / 2 - 1) ltac:(lia)) as (m & e & ->).
  cbn [SFopp negb]. by rewrite div_same_magnitude.
Qed.

(** X16 at 6 slices. *)
Lemma esGenSphere_texCoords_last_row_witness :
  exists h' b,
    esGenSphere sinf_quadrant cosf_quadrant 6 F32.one
      (start (mkOutputs NullArg NullArg NullArg fresh NullArg)) = (h', Ok 108) /\
    block_of TexCoords h' = Some b /\
    tex_v 6 b 3 0 = Some (FVal neg_one).
Proof.
  destruct (esGenSphere_texCoords_last_row sinf_quadrant cosf_quadrant 6 F32.one
              (mkOutputs NullArg NullArg NullArg fresh NullArg))
    as (h' & b & Hrun & Hb & Hv).
  - unfold MAX_SLICES. lia.
  - left. reflexivity.
  - discriminate.
  - exists h', b. split; [exact Hrun|]. split; [exact Hb|].
    apply (Hv 0). lia.
Defined.

(** ** The rotation angle of Simple_VertexShader.c *)

Lemma SFcompare_antisym x y :
  SFcompare y x = option_map CompOpp (SFcompare x y).
Proof.
  destruct x as [sx|sx| |sx mx ex], y as [sy|sy| |sy my ey]; cbn;
    try done; try (by destruct sx); try (by destruct sy); try (by destruct sx, sy).
  f_equal. rewrite (Z.compare_antisym ex ey).
  pose proof (Pos.compare_cont_antisym mx my Eq) as Hm. cbn [CompOpp] in Hm.
  destruct sx, sy; try done; destruct (ex ?= ey); cbn [CompOpp]; try done;
    by rewrite <- Hm, ?CompOpp_involutive.
Qed.

(** Of two numbers, one is at most the other. *)
Lemma SFleb_total x y :
  x <> S754_nan -> y <> S754_nan -> SFleb x y = false -> SFleb y x = true.
Proof.
  intros Hx Hy. unfold SFleb. rewrite (SFcompare_antisym x y).
  destruct (SFcompare x y) as [[| |]|] eqn:Hc; try done.
  destruct x, y; try done; cbn in Hc; by repeat case_match.
Qed.

Lemma F32_bounded m e :
  bounded F32.prec F32.emax m e = true ->
  (-149 < e -> Zpos (digits2_pos m) = 24) /\ Zpos (digits2_pos m) <= 24 /\ -149 <= e.
Proof.
  intros [Hc _]%bounded_spec. rewrite fexp_spec in Hc.
  unfold F32.prec, F32.emax in Hc. lia.
Qed.

Lemma ANGLE_MAX_eq : ANGLE_MAX = S754_finite false 9830400 (-17).
Proof. reflexivity. Qed.

Lemma ANGLE_MIN_eq : ANGLE_MIN = S754_finite true 9830400 (-17).
Proof. reflexivity. Qed.

(** For a number of binary32, the comparisons with 75 and -75 are
    comparisons of values. *)
Lemma compare_cont_Z p q :
  match Pos.compare_cont Eq p q with
  | Eq => Zpos p = Zpos q
  | Lt => Zpos p < Zpos q
  | Gt => Zpos q < Zpos p
  end.
Proof.
  change (Pos.compare_cont Eq p q) with (Zpos p ?= Zpos q).
  destruct (Z.compare_spec (Zpos p) (Zpos q)); lia.
Qed.

Lemma at_most_75 x :
  F32.valid x = true -> SFleb x ANGLE_MAX = true <-> at_most 75 x.
Proof.
  intros Hv. rewrite ANGLE_MAX_eq.
  destruct x as [s|s| |s m e]; cbn [at_most]; try done.
  - by destruct s.
  - unfold SFleb, SFcompare. destruct s; [by intuition|].
    destruct (F32_bounded m e Hv) as (Hnorm & Hd & He).
    pose proof (digits2_pos_spec m) as Hm.
    pose proof (pow2_le (Zpos (digits2_pos m)) 24 ltac:(lia)) as Hd24.
    change (2 ^ 24) with 16777216 in Hd24.
    destruct (Z.compare_spec e (-17)) as [->|Hlt|Hgt].
    + rewrite le_int_neg by lia. change (2 ^ (- -17)) with 131072.
      pose proof (compare_cont_Z m 9830400) as Hcmp.
      destruct (Pos.compare_cont Eq m 9830400).
      * split; [intros _; right; lia|done].
      * split; [intros _; right; lia|done].
      * split; [done|]. intros [|Hle]; [done|lia].
    + split; [|done]. intros _. right. rewrite le_int_neg by lia.
      pose proof (pow2_le 18 (- e) ltac:(lia)) as H18.
      change (2 ^ 18) with 262144 in H18. lia.
    + split; [done|]. intros [|Hle]; [done|exfalso].
      rewrite (Hnorm ltac:(lia)) in Hm. change (2 ^ (24 - 1)) with 8388608 in Hm.
      destruct (Z_le_gt_dec 0 e).
      * rewrite le_int_pos in Hle by lia.
        pose proof (pow2_pos e ltac:(lia)). nia.
      * rewrite le_int_neg in Hle by lia.
        pose proof (pow2_le (- e) 16 ltac:(lia)) as H16.
        change (2 ^ 16) with 65536 in H16. lia.
Qed.

Lemma SFcompare_opp x y : SFcompare (SFopp y) (SFopp x) = SFcompare x y.
Proof.
  destruct x as [sx|sx| |sx mx ex], y as [sy|sy| |sy my ey]; cbn;
    try done; try (by destruct sx); try (by destruct sy); try (by destruct sx, sy).
  f_equal. rewrite (Z.compare_antisym ex ey).
  pose proof (Pos.compare_cont_antisym mx my Eq) as Hm. cbn [CompOpp] in Hm.
  destruct sx, sy; try done; destruct (ex ?= ey); cbn [CompOpp negb]; try done;
    by rewrite <- Hm, ?CompOpp_involutive.
Qed.

Lemma at_least_neg_75 x :
  F32.valid x = true -> SFleb ANGLE_MIN x = true <-> at_least_neg 75 x.
Proof.
  intros Hv.
  assert (SFleb ANGLE_MIN x = SFleb (SFopp x) ANGLE_MAX) as ->.
  { unfold SFleb. rewrite <- (SFcompare_opp (SFopp x) ANGLE_MAX).
    change (SFopp ANGLE_MAX) with ANGLE_MIN.
    by destruct x as [s|s| |s m e]; cbn [SFopp]; rewrite ?negb_involutive. }
  rewrite at_most_75 by (destruct x; exact Hv).
  destruct x as [s|s| |s m e]; cbn; try done; destruct s; cbn; intuition congruence.
Qed.

Lemma angle_in_range_spec a :
  angle_in_range a <->
  F32.valid a = true /\ is_finite a /\ at_least_neg 75 a /\ at_most 75 a.
Proof.
  unfold angle_in_range. split.
  - intros (Hv & Hlo & Hhi).
    apply at_least_neg_75 in Hlo; [|done]. apply at_most_75 in Hhi; [|done].
    repeat split; try done.
    destruct a as [s|s| |s m e]; try done. cbn in *. congruence.
  - intros (Hv & _ & Hlo & Hhi).
    split; [done|]. split; [by apply at_least_neg_75|by apply at_most_75].
Qed.

Lemma forward_not_negative deltaTime : forward deltaTime -> not_negative deltaTime.
Proof.
  unfold forward. destruct deltaTime as [s|s| |s m e]; cbn; try done; by destruct s.
Qed.

Lemma at_least_neg_not_nan K x : at_least_neg K x -> x <> S754_nan.
Proof. by destruct x. Qed.

Lemma at_most_not_nan K x : at_most K x -> x <> S754_nan.
Proof. by destruct x. Qed.

(** A promotion or a conversion keeps what is not negative so. *)
Lemma convert_not_negative prec emax x :
  0 < prec -> prec < emax -> not_negative x ->
  not_negative match x with
               | S754_finite s m e =>
                 binary_normalize prec emax (cond_Zopp s (Zpos m)) e false
               | _ => x
               end.
Proof.
  intros Hprec Hemax Hx. destruct x as [s|s| |s m e]; try done.
  cbn in Hx. subst s. cbn [cond_Zopp].
  pose proof (binary_normalize_spec prec emax Hprec Hemax (Zpos m) e) as Hspec.
  cbn beta iota in Hspec.
  destruct (binary_normalize _ _ _ _ _) as [s|s| |s m' e']; cbn in *; try done;
    by destruct Hspec.
Qed.

Lemma ANGLE_MAX_in_range : angle_in_range ANGLE_MAX.
Proof. by vm_compute. Qed.

Lemma ANGLE_MIN_in_range : angle_in_range ANGLE_MIN.
Proof. by vm_compute. Qed.

Lemma F32_75 : 0 <= 75 < 2 ^ F32.prec.
Proof. by vm_compute. Qed.

Lemma F64_75 : 0 <= 75 < 2 ^ F64.prec.
Proof. by vm_compute. Qed.

(** One step of the angle, forward in time, stays in range. *)
Lemma Update_angle_in_range deltaTime a inc :
  forward deltaTime -> angle_in_range a ->
  angle_in_range (fst (Update_angle deltaTime a inc)).
Proof.
  intros Hdt%forward_not_negative (Hv & Hfin & Hlo & Hhi)%angle_in_range_spec.
  unfold Update_angle. destruct (negb (inc =? 0)).
  - (* up, in [float] *)
    destruct (mul_not_negative F32.prec F32.emax ltac:(done) ltac:(done)
                deltaTime 13107200 (-17) ltac:(done) Hdt) as [Hvp Hp].
    change (S754_finite false 13107200 (-17)) with (F32.of_int 100) in *.
    destruct (add_at_least_neg F32.prec F32.emax ltac:(done) ltac:(done) 75
                a (deltaTime *f F32.of_int 100) F32_75 Hfin Hv Hlo Hp Hvp)
      as [Hva Hloa].
    fold (fadd a (deltaTime *f F32.of_int 100)) in Hva, Hloa.
    destruct (SFleb ANGLE_MAX (a +f deltaTime *f F32.of_int 100)) eqn:Hclamp; cbn [fst].
    + apply ANGLE_MAX_in_range.
    + split; [done|]. split; [by apply at_least_neg_75|].
      apply SFleb_total; [done|by eapply at_least_neg_not_nan|done].
  - (* down, in [double] *)
    destruct (convert_at_most F64.prec F64.emax ltac:(done) ltac:(done) 75 a F64_75 Hhi)
      as [_ Hhid].
    pose proof (convert_is_finite F64.prec F64.emax ltac:(done) ltac:(done) 75 a
                  F64_75 Hfin Hhi Hlo) as Hfind.
    pose proof (convert_not_negative F64.prec F64.emax deltaTime ltac:(done) ltac:(done)
                  Hdt) as Hdtd.
    fold (F64.of_float32 a) in Hhid, Hfind. fold (F64.of_float32 deltaTime) in Hdtd.
    destruct (mul_not_negative F64.prec F64.emax ltac:(done) ltac:(done)
                (F64.of_float32 deltaTime) 8444249301319680 (-47) ltac:(done) Hdtd)
      as [_ Htd].
    change (S754_finite false 8444249301319680 (-47)) with (F64.of_Z_exp 60 0) in Htd.
    fold (F64.mul (F64.of_float32 deltaTime) (F64.of_Z_exp 60 0)) in Htd.
    pose proof (sub_at_most F64.prec F64.emax ltac:(done) ltac:(done) 75
                  _ _ F64_75 Hfind Hhid Htd) as Hd.
    fold (F64.sub (F64.of_float32 a)
            (F64.mul (F64.of_float32 deltaTime) (F64.of_Z_exp 60 0))) in Hd.
    destruct (convert_at_most F32.prec F32.emax ltac:(done) ltac:(done) 75 _ F32_75 Hd)
      as [Hva Hhia].
    fold (F64.to_float32 (F64.sub (F64.of_float32 a)
            (F64.mul (F64.of_float32 deltaTime) (F64.of_Z_exp 60 0)))) in Hva, Hhia.
    destruct (SFleb (F64.to_float32 _) ANGLE_MIN) eqn:Hclamp; cbn [fst].
    + apply ANGLE_MIN_in_range.
    + split; [done|]. split; [|by apply at_most_75].
      apply SFleb_total; [by eapply at_most_not_nan|done|done].
Qed.

Section UpdateProofs.

Variable ESMatrix : Type.
Variable esMatrixLoadIdentity : ESMatrix -> ESMatrix.
Variable esPerspective : ESMatrix -> float32 -> float32 -> float32 -> float32 -> ESMatrix.
Variable esTranslate : ESMatrix -> float32 -> float32 -> float32 -> ESMatrix.
Variable esRotate : ESMatrix -> float32 -> float32 -> float32 -> float32 -> ESMatrix.
Variable esMatrixMultiply : ESMatrix -> ESMatrix -> ESMatrix -> ESMatrix.
Variables width height : Z.
Variables perspective modelview : ESMatrix.

Local Abbreviation Update' :=
  (Update ESMatrix esMatrixLoadIdentity esPerspective esTranslate esRotate
     esMatrixMultiply width height perspective modelview).
Local Abbreviation frames' :=
  (frames ESMatrix esMatrixLoadIdentity esPerspective esTranslate esRotate
     esMatrixMultiply width height perspective modelview).

(** What [Update] leaves in the two fields is what lines 105-118 compute. *)
Lemma Update_fields deltaTime u :
  (angle ESMatrix (Update' deltaTime u), increase ESMatrix (Update' deltaTime u))
  = Update_angle deltaTime (angle ESMatrix u) (increase ESMatrix u).
Proof. unfold Update. by destruct (Update_angle _ _ _). Qed.

Lemma Update_angle_flag deltaTime a inc :
  snd (Update_angle deltaTime a inc) = inc \/
  snd (Update_angle deltaTime a inc) = 0 \/
  snd (Update_angle deltaTime a inc) = 1.
Proof. unfold Update_angle. repeat case_match; cbn; auto. Qed.

Lemma Update_angle_nan deltaTime inc :
  Update_angle deltaTime S754_nan inc = (S754_nan, inc).
Proof. unfold Update_angle. by destruct (negb (inc =? 0)). Qed.

Lemma Update_angle_nan_time a inc :
  Update_angle S754_nan a inc = (S754_nan, inc).
Proof.
  unfold Update_angle. destruct (negb (inc =? 0)).
  - by destruct a.
  - change (F64.mul (F64.of_float32 S754_nan) (F64.of_Z_exp 60 0)) with S754_nan.
    assert (F64.sub (F64.of_float32 a) S754_nan = S754_nan) as ->; [|done].
    by destruct (F64.of_float32 a).
Qed.

Lemma frames_nan deltaTimes u :
  angle ESMatrix u = S754_nan ->
  angle ESMatrix (frames' deltaTimes u) = S754_nan /\
  increase ESMatrix (frames' deltaTimes u) = increase ESMatrix u.
Proof.
  revert u. induction deltaTimes as [|dt dts IH]; intros u Hnan; [done|].
  change (frames' (dt :: dts) u) with (frames' dts (Update' dt u)).
  pose proof (Update_fields dt u) as Hf. rewrite Hnan, Update_angle_nan in Hf.
  injection Hf as Ha Hi.
  destruct (IH (Update' dt u) Ha) as [-> ->]. done.
Qed.

(** X14: from a state whose angle is a binary32 number from -75.0 to 75.0,
    as [Init] leaves it, any number of calls of [Update] with frame times
    that are zero or more (infinite ones too) leaves the angle a binary32
    number from -75.0 to 75.0: never NaN, never infinite, never past a
    bound by a rounding of the addition, of the [double] subtraction or of
    the conversion back to [float]. *)
Theorem Update_keeps_angle_in_range deltaTimes u :
  Forall forward deltaTimes ->
  angle_in_range (angle ESMatrix u) ->
  angle_in_range
    (angle ESMatrix
       (frames ESMatrix esMatrixLoadIdentity esPerspective esTranslate esRotate
          esMatrixMultiply width height perspective modelview deltaTimes u)).
Proof.
  revert u. induction deltaTimes as [|dt dts IH]; intros u Hdts Hu; [done|].
  apply Forall_cons in Hdts as [Hdt Hdts].
  change (frames' (dt :: dts) u) with (frames' dts (Update' dt u)).
  apply IH; [done|].
  pose proof (Update_fields dt u) as Hf.
  pose proof (Update_angle_in_range dt _ (increase ESMatrix u) Hdt Hu) as Hr.
  rewrite <- Hf in Hr. exact Hr.
Qed.

(** X15: one frame time that is NaN makes the angle NaN, and it stays NaN
    whatever the later frame times are; the direction never changes again,
    since no comparison with a NaN holds. *)
Theorem Update_nan_is_forever deltaTimes u :
  let u' :=
    frames ESMatrix esMatrixLoadIdentity esPerspective esTranslate esRotate
      esMatrixMultiply width height perspective modelview
      (S754_nan :: deltaTimes) u in
  angle ESMatrix u' = S754_nan /\ increase ESMatrix u' = increase ESMatrix u.
Proof.
  cbv zeta.
  change (frames' (S754_nan :: deltaTimes) u)
    with (frames' deltaTimes (Update' S754_nan u)).
  pose proof (Update_fields S754_nan u) as Hf. rewrite Update_angle_nan_time in Hf.
  injection Hf as Ha Hi.
  destruct (frames_nan deltaTimes (Update' S754_nan u) Ha) as [-> ->]. done.
Qed.

End UpdateProofs.

(** X14 from the state [Init] leaves, angle -45.0 and going up, for frame
    times of 1 s and 0.5 s. *)
Lemma Update_keeps_angle_in_range_witness :
  angle_in_range
    (angle unit
       (frames unit (fun m => m) (fun m _ _ _ _ => m) (fun m _ _ _ => m)
          (fun m _ _ _ _ => m) (fun m _ _ => m) 320 240 tt tt
          [F32.one; F32.half] (mkUserData unit (F32.of_int (-45)) 1 tt))).
Proof.
  apply Update_keeps_angle_in_range.
  - repeat constructor.
  - by vm_compute.
Defined.
